(** * Chess move generator (BlueCannonBall/chess-library): shallow embedding

    The development follows [src/chess.hpp] (bit primitives, attack tables,
    the pin/check analyzer, the per-piece generators, the move list builder,
    make/unmake) and [src/chess.cpp] (the FEN parser that resets the
    counters and hashes, the position hash, the mate predicates).

    Data is kept the way the C++ has it: a [Bitboard] is a [uint64_t], here
    a [Z] in [0, 2^64) with the wrap-around written out; a [Square], a
    [Piece] and a packed [Move] are unsigned integers; the two arrays of the
    board are lists updated by index. *)

From Stdlib Require Import ZArith List Bool Lia String Ascii.
From stdpp Require Import base option list.

Local Open Scope Z_scope.

(** ** Unsigned 64-bit arithmetic *)

Definition Bitboard := Z.

Definition U64 : Z := 2 ^ 64.

(** [18446744073709551615ULL], every bit set. *)
Definition ALL : Bitboard := 18446744073709551615.

Definition wrap64 (x : Z) : Bitboard := x mod U64.

(** [a << n] on [uint64_t].  C++ leaves a count outside 0..63 undefined,
    and [LegalPawnMoves] shifts by [enpassantSquare] unguarded, [NO_SQ]
    included; the shift of the compiled program takes the count modulo 64,
    and so does the model. *)
Definition shl64 (a n : Z) : Bitboard := wrap64 (Z.shiftl a (n mod 64)).

Definition shr64 (a n : Z) : Bitboard := Z.shiftr a n.

(** [~a] on [uint64_t]. *)
Definition not64 (a : Z) : Bitboard := wrap64 (Z.lnot a).

Definition sub64 (a b : Z) : Bitboard := wrap64 (a - b).
Definition add64 (a b : Z) : Bitboard := wrap64 (a + b).
Definition mul64 (a b : Z) : Bitboard := wrap64 (a * b).

(** [1ULL << sq]. *)
Definition bit (sq : Z) : Bitboard := shl64 1 sq.

(** A bitboard used as a condition. *)
Definition nz (x : Z) : bool := negb (x =? 0).

(** Array read with the value 0 outside the bounds.  The constant tables
    are only ever indexed by a square below 64, a file, a rank or a
    diagonal number of such a square; the one exception, [GetPawnPush] of a
    pawn standing on its last rank, reads 0 here. *)
Definition rd (t : list Z) (i : Z) : Z :=
  if i <? 0 then 0 else default 0 (t !! Z.to_nat i).

(** ** Types *)

Inductive Color := White | Black.

Definition color_idx (c : Color) : Z :=
  match c with White => 0 | Black => 1 end.

(** [operator~]: [Color(C ^ Black)]. *)
Definition opp (c : Color) : Color :=
  match c with White => Black | Black => White end.

Definition Color_eqb (a b : Color) : bool :=
  match a, b with White, White | Black, Black => true | _, _ => false end.

Inductive PieceType := Pawn | Knight | Bishop | Rook | Queen | King.

Definition pt_idx (t : PieceType) : Z :=
  match t with
  | Pawn => 0 | Knight => 1 | Bishop => 2 | Rook => 3 | Queen => 4 | King => 5
  end.

(** [enum Piece : uint8_t]; kept as its number, since the move encoding and
    the array indices work on the number. *)
Definition Piece := Z.
Definition WhitePawn : Piece := 0.
Definition WhiteKnight : Piece := 1.
Definition WhiteBishop : Piece := 2.
Definition WhiteRook : Piece := 3.
Definition WhiteQueen : Piece := 4.
Definition WhiteKing : Piece := 5.
Definition BlackPawn : Piece := 6.
Definition BlackKnight : Piece := 7.
Definition BlackBishop : Piece := 8.
Definition BlackRook : Piece := 9.
Definition BlackQueen : Piece := 10.
Definition BlackKing : Piece := 11.
(** The enumerator [None]. *)
Definition NoPiece : Piece := 12.

Definition Square := Z.
Definition SQ_A1 : Square := 0.
Definition SQ_B1 : Square := 1.
Definition SQ_C1 : Square := 2.
Definition SQ_D1 : Square := 3.
Definition SQ_E1 : Square := 4.
Definition SQ_F1 : Square := 5.
Definition SQ_G1 : Square := 6.
Definition SQ_H1 : Square := 7.
Definition SQ_A8 : Square := 56.
Definition SQ_B8 : Square := 57.
Definition SQ_C8 : Square := 58.
Definition SQ_D8 : Square := 59.
Definition SQ_E8 : Square := 60.
Definition SQ_F8 : Square := 61.
Definition SQ_G8 : Square := 62.
Definition SQ_H8 : Square := 63.
Definition NO_SQ : Square := 64.

Definition whiteKingSideCastling : Z := 1.
Definition whiteQueenSideCastling : Z := 2.
Definition blackKingSideCastling : Z := 4.
Definition blackQueenSideCastling : Z := 8.

(** ** Bitboard constants *)

Definition SQUARE_BB : list Z :=
  [
    0x1; 0x2; 0x4; 0x8;
    0x10; 0x20; 0x40; 0x80;
    0x100; 0x200; 0x400; 0x800;
    0x1000; 0x2000; 0x4000; 0x8000;
    0x10000; 0x20000; 0x40000; 0x80000;
    0x100000; 0x200000; 0x400000; 0x800000;
    0x1000000; 0x2000000; 0x4000000; 0x8000000;
    0x10000000; 0x20000000; 0x40000000; 0x80000000;
    0x100000000; 0x200000000; 0x400000000; 0x800000000;
    0x1000000000; 0x2000000000; 0x4000000000; 0x8000000000;
    0x10000000000; 0x20000000000; 0x40000000000; 0x80000000000;
    0x100000000000; 0x200000000000; 0x400000000000; 0x800000000000;
    0x1000000000000; 0x2000000000000; 0x4000000000000; 0x8000000000000;
    0x10000000000000; 0x20000000000000; 0x40000000000000; 0x80000000000000;
    0x100000000000000; 0x200000000000000; 0x400000000000000; 0x800000000000000;
    0x1000000000000000; 0x2000000000000000; 0x4000000000000000; 0x8000000000000000
  ].

Definition MASK_FILE : list Z :=
  [
    0x101010101010101; 0x202020202020202; 0x404040404040404; 0x808080808080808;
    0x1010101010101010; 0x2020202020202020; 0x4040404040404040; 0x8080808080808080
  ].

Definition MASK_RANK : list Z :=
  [
    0xff; 0xff00; 0xff0000; 0xff000000;
    0xff00000000; 0xff0000000000; 0xff000000000000; 0xff00000000000000
  ].

Definition MASK_DIAGONAL : list Z :=
  [
    0x80; 0x8040; 0x804020; 0x80402010;
    0x8040201008; 0x804020100804; 0x80402010080402; 0x8040201008040201;
    0x4020100804020100; 0x2010080402010000; 0x1008040201000000; 0x804020100000000;
    0x402010000000000; 0x201000000000000; 0x100000000000000
  ].

Definition MASK_ANTI_DIAGONAL : list Z :=
  [
    0x1; 0x102; 0x10204; 0x1020408;
    0x102040810; 0x10204081020; 0x1020408102040; 0x102040810204080;
    0x204081020408000; 0x408102040800000; 0x810204080000000; 0x1020408000000000;
    0x2040800000000000; 0x4080000000000000; 0x8000000000000000
  ].

Definition KNIGHT_ATTACKS_TABLE : list Z :=
  [
    0x0000000000020400; 0x0000000000050800; 0x00000000000A1100; 0x0000000000142200;
    0x0000000000284400; 0x0000000000508800; 0x0000000000A01000; 0x0000000000402000;
    0x0000000002040004; 0x0000000005080008; 0x000000000A110011; 0x0000000014220022;
    0x0000000028440044; 0x0000000050880088; 0x00000000A0100010; 0x0000000040200020;
    0x0000000204000402; 0x0000000508000805; 0x0000000A1100110A; 0x0000001422002214;
    0x0000002844004428; 0x0000005088008850; 0x000000A0100010A0; 0x0000004020002040;
    0x0000020400040200; 0x0000050800080500; 0x00000A1100110A00; 0x0000142200221400;
    0x0000284400442800; 0x0000508800885000; 0x0000A0100010A000; 0x0000402000204000;
    0x0002040004020000; 0x0005080008050000; 0x000A1100110A0000; 0x0014220022140000;
    0x0028440044280000; 0x0050880088500000; 0x00A0100010A00000; 0x0040200020400000;
    0x0204000402000000; 0x0508000805000000; 0x0A1100110A000000; 0x1422002214000000;
    0x2844004428000000; 0x5088008850000000; 0xA0100010A0000000; 0x4020002040000000;
    0x0400040200000000; 0x0800080500000000; 0x1100110A00000000; 0x2200221400000000;
    0x4400442800000000; 0x8800885000000000; 0x100010A000000000; 0x2000204000000000;
    0x0004020000000000; 0x0008050000000000; 0x00110A0000000000; 0x0022140000000000;
    0x0044280000000000; 0x0088500000000000; 0x0010A00000000000; 0x0020400000000000
  ].

Definition KING_ATTACKS_TABLE : list Z :=
  [
    0x0000000000000302; 0x0000000000000705; 0x0000000000000E0A; 0x0000000000001C14;
    0x0000000000003828; 0x0000000000007050; 0x000000000000E0A0; 0x000000000000C040;
    0x0000000000030203; 0x0000000000070507; 0x00000000000E0A0E; 0x00000000001C141C;
    0x0000000000382838; 0x0000000000705070; 0x0000000000E0A0E0; 0x0000000000C040C0;
    0x0000000003020300; 0x0000000007050700; 0x000000000E0A0E00; 0x000000001C141C00;
    0x0000000038283800; 0x0000000070507000; 0x00000000E0A0E000; 0x00000000C040C000;
    0x0000000302030000; 0x0000000705070000; 0x0000000E0A0E0000; 0x0000001C141C0000;
    0x0000003828380000; 0x0000007050700000; 0x000000E0A0E00000; 0x000000C040C00000;
    0x0000030203000000; 0x0000070507000000; 0x00000E0A0E000000; 0x00001C141C000000;
    0x0000382838000000; 0x0000705070000000; 0x0000E0A0E0000000; 0x0000C040C0000000;
    0x0003020300000000; 0x0007050700000000; 0x000E0A0E00000000; 0x001C141C00000000;
    0x0038283800000000; 0x0070507000000000; 0x00E0A0E000000000; 0x00C040C000000000;
    0x0302030000000000; 0x0705070000000000; 0x0E0A0E0000000000; 0x1C141C0000000000;
    0x3828380000000000; 0x7050700000000000; 0xE0A0E00000000000; 0xC040C00000000000;
    0x0203000000000000; 0x0507000000000000; 0x0A0E000000000000; 0x141C000000000000;
    0x2838000000000000; 0x5070000000000000; 0xA0E0000000000000; 0x40C0000000000000
  ].

Definition PAWN_ATTACKS_WHITE : list Z :=
  [
    0x200; 0x500; 0xa00; 0x1400;
    0x2800; 0x5000; 0xa000; 0x4000;
    0x20000; 0x50000; 0xa0000; 0x140000;
    0x280000; 0x500000; 0xa00000; 0x400000;
    0x2000000; 0x5000000; 0xa000000; 0x14000000;
    0x28000000; 0x50000000; 0xa0000000; 0x40000000;
    0x200000000; 0x500000000; 0xa00000000; 0x1400000000;
    0x2800000000; 0x5000000000; 0xa000000000; 0x4000000000;
    0x20000000000; 0x50000000000; 0xa0000000000; 0x140000000000;
    0x280000000000; 0x500000000000; 0xa00000000000; 0x400000000000;
    0x2000000000000; 0x5000000000000; 0xa000000000000; 0x14000000000000;
    0x28000000000000; 0x50000000000000; 0xa0000000000000; 0x40000000000000;
    0x200000000000000; 0x500000000000000; 0xa00000000000000; 0x1400000000000000;
    0x2800000000000000; 0x5000000000000000; 0xa000000000000000; 0x4000000000000000;
    0x0; 0x0; 0x0; 0x0;
    0x0; 0x0; 0x0; 0x0
  ].

Definition PAWN_ATTACKS_BLACK : list Z :=
  [
    0x0; 0x0; 0x0; 0x0;
    0x0; 0x0; 0x0; 0x0;
    0x2; 0x5; 0xa; 0x14;
    0x28; 0x50; 0xa0; 0x40;
    0x200; 0x500; 0xa00; 0x1400;
    0x2800; 0x5000; 0xa000; 0x4000;
    0x20000; 0x50000; 0xa0000; 0x140000;
    0x280000; 0x500000; 0xa00000; 0x400000;
    0x2000000; 0x5000000; 0xa000000; 0x14000000;
    0x28000000; 0x50000000; 0xa0000000; 0x40000000;
    0x200000000; 0x500000000; 0xa00000000; 0x1400000000;
    0x2800000000; 0x5000000000; 0xa000000000; 0x4000000000;
    0x20000000000; 0x50000000000; 0xa0000000000; 0x140000000000;
    0x280000000000; 0x500000000000; 0xa00000000000; 0x400000000000;
    0x2000000000000; 0x5000000000000; 0xa000000000000; 0x14000000000000;
    0x28000000000000; 0x50000000000000; 0xa0000000000000; 0x40000000000000
  ].

(** [PAWN_ATTACKS_TABLE[c][sq]]. *)
Definition PAWN_ATTACKS_TABLE (c : Color) : list Z :=
  match c with White => PAWN_ATTACKS_WHITE | Black => PAWN_ATTACKS_BLACK end.

(** ** Bit primitives *)

(** [reverse]: the bit reversal of a 64-bit word. *)
Definition reverse (bb : Bitboard) : Bitboard :=
  let bb := Z.lor (shl64 (Z.land bb 0x5555555555555555) 1)
                  (Z.land (shr64 bb 1) 0x5555555555555555) in
  let bb := Z.lor (shl64 (Z.land bb 0x3333333333333333) 2)
                  (Z.land (shr64 bb 2) 0x3333333333333333) in
  let bb := Z.lor (shl64 (Z.land bb 0x0f0f0f0f0f0f0f0f) 4)
                  (Z.land (shr64 bb 4) 0x0f0f0f0f0f0f0f0f) in
  let bb := Z.lor (shl64 (Z.land bb 0x00ff00ff00ff00ff) 8)
                  (Z.land (shr64 bb 8) 0x00ff00ff00ff00ff) in
  Z.lor (Z.lor (Z.lor (shl64 bb 48) (shl64 (Z.land bb 0xffff0000) 16))
               (Z.land (shr64 bb 16) 0xffff0000))
        (shr64 bb 48).

Fixpoint bsf_from (fuel : nat) (i : Z) (bb : Bitboard) : Square :=
  match fuel with
  | O => NO_SQ
  | S k => if Z.testbit bb i then i else bsf_from k (i + 1) bb
  end.

(** [bsf]: index of the least significant set bit.  [_BitScanForward64]
    leaves the index unset on an empty board; [NO_SQ] stands for that
    unspecified square. *)
Definition bsf (bb : Bitboard) : Square := bsf_from 64 0 bb.

(** The board left by [poplsb]: [bb &= bb - 1]. *)
Definition poplsb_rest (bb : Bitboard) : Bitboard := Z.land bb (sub64 bb 1).

(** [poplsb]: the least significant square and the board without it. *)
Definition poplsb (bb : Bitboard) : Square * Bitboard := (bsf bb, poplsb_rest bb).

Definition popCount (x : Bitboard) : Z :=
  let x := sub64 x (Z.land (shr64 x 1) 0x5555555555555555) in
  let x := add64 (Z.land x 0x3333333333333333)
                 (Z.land (shr64 x 2) 0x3333333333333333) in
  let x := Z.land (add64 x (shr64 x 4)) 0x0f0f0f0f0f0f0f0f in
  shr64 (mul64 x 0x0101010101010101) 56.

(** [while (bb) { Square sq = poplsb(bb); body }]: the loop over the set
    squares of a bitboard, lowest first.  A 64-bit board is empty after at
    most 64 rounds (see [pop_loop_fold] below), so 64 rounds of fuel run
    every loop of the program to its end. *)
Fixpoint pop_loop {St : Type} (fuel : nat) (bb : Bitboard)
    (body : Square -> St -> St) (s : St) : St :=
  match fuel with
  | O => s
  | S k => if nz bb then pop_loop k (poplsb_rest bb) body (body (bsf bb) s) else s
  end.

(** The same loop for a body that may fail. *)
Fixpoint pop_loopM {St : Type} (fuel : nat) (bb : Bitboard)
    (body : Square -> St -> option St) (s : St) : option St :=
  match fuel with
  | O => Some s
  | S k =>
      if nz bb then
        match body (bsf bb) s with
        | Some s' => pop_loopM k (poplsb_rest bb) body s'
        | None => None
        end
      else Some s
  end.

Arguments pop_loop : simpl never.
Arguments pop_loopM : simpl never.

(** ** Helper functions *)

Definition rank_of (sq : Square) : Z := Z.shiftr sq 3.
Definition file_of (sq : Square) : Z := Z.land sq 7.

(** Both results are [uint8_t]. *)
Definition diagonal_of (sq : Square) : Z := (7 + rank_of sq - file_of sq) mod 256.
Definition anti_diagonal_of (sq : Square) : Z := (rank_of sq + file_of sq) mod 256.

Definition makePiece (type : PieceType) (color : Color) : Piece :=
  6 * color_idx color + pt_idx type.

Definition squareDistance (a b : Square) : Z :=
  Z.max (Z.abs (file_of a - file_of b)) (Z.abs (rank_of a - rank_of b)).

(** ** Moves *)

(** The packed [uint32_t] of a move. *)
Definition Move := Z.

Definition mkMove (source target : Square) (piece promoted : Piece)
    (capture doublePush enpassant castling : Z) : Move :=
  (Z.lor (Z.lor (Z.lor (Z.lor (Z.lor (Z.lor (Z.lor
     source (Z.shiftl target 6)) (Z.shiftl piece 12)) (Z.shiftl promoted 16))
     (Z.shiftl capture 20)) (Z.shiftl doublePush 21)) (Z.shiftl enpassant 22))
     (Z.shiftl castling 23)) mod 2 ^ 32.

Definition source (m : Move) : Square := Z.land m 0x3f.
Definition target (m : Move) : Square := Z.shiftr (Z.land m 0xfc0) 6.
Definition piece (m : Move) : Piece := Z.shiftr (Z.land m 0xf000) 12.
Definition promoted (m : Move) : Piece := Z.shiftr (Z.land m 0xf0000) 16.
Definition capture (m : Move) : bool := nz (Z.shiftr (Z.land m 0x100000) 20).
Definition doublePush (m : Move) : bool := nz (Z.shiftr (Z.land m 0x200000) 21).
Definition enpassant (m : Move) : bool := nz (Z.shiftr (Z.land m 0x400000) 22).
Definition castling (m : Move) : bool := nz (Z.shiftr (Z.land m 0x800000) 23).

(** [struct Moves]: 256 slots and a [uint8_t] count. *)
Record Moves := mkMoves { moves : list Move; count : Z }.

(** [Moves moveList;]: every slot default-constructed, the count 0. *)
Definition Moves_init : Moves :=
  mkMoves (replicate 256 (mkMove NO_SQ NO_SQ NoPiece NoPiece 0 0 0 0)) 0.

(** [Add]: [moves[count] = move; count++], the count wrapping at 256. *)
Definition Add (ml : Moves) (m : Move) : Moves :=
  mkMoves (<[Z.to_nat (count ml) := m]> (moves ml)) ((count ml + 1) mod 256).

(** The moves a caller reads: the first [count] slots. *)
Definition moveList (ml : Moves) : list Move := take (Z.to_nat (count ml)) (moves ml).

(** ** Board *)

Record State := mkState {
  PiecesCopyBB : list Bitboard;
  boardCopy : list Piece;
  sideToMoveCopy : Color;
  enpassantCopy : Square;
  castlingRightsCopy : Z
}.

(** [class Board].  [chess.hpp] declares the members up to [doubleCheck];
    [halfMoveClock], [fullMoveCounter] and [hashKey] are the further
    members that [chess.cpp] reads and writes. *)
Record Board := mkBoard {
  PiecesBB : list Bitboard;
  board : list Piece;
  sideToMove : Color;
  enpassantSquare : Square;
  castlingRights : Z;
  storeInfo : list State;
  checkMask : Bitboard;
  pinMaskHV : Bitboard;
  pinMaskD : Bitboard;
  doubleCheck : Z;
  halfMoveClock : Z;
  fullMoveCounter : Z;
  hashKey : Z
}.

Definition set_PiecesBB (v : list Bitboard) (b : Board) : Board :=
  mkBoard v (board b) (sideToMove b) (enpassantSquare b) (castlingRights b)
    (storeInfo b) (checkMask b) (pinMaskHV b) (pinMaskD b) (doubleCheck b)
    (halfMoveClock b) (fullMoveCounter b) (hashKey b).
Definition set_board (v : list Piece) (b : Board) : Board :=
  mkBoard (PiecesBB b) v (sideToMove b) (enpassantSquare b) (castlingRights b)
    (storeInfo b) (checkMask b) (pinMaskHV b) (pinMaskD b) (doubleCheck b)
    (halfMoveClock b) (fullMoveCounter b) (hashKey b).
Definition set_sideToMove (v : Color) (b : Board) : Board :=
  mkBoard (PiecesBB b) (board b) v (enpassantSquare b) (castlingRights b)
    (storeInfo b) (checkMask b) (pinMaskHV b) (pinMaskD b) (doubleCheck b)
    (halfMoveClock b) (fullMoveCounter b) (hashKey b).
Definition set_enpassantSquare (v : Square) (b : Board) : Board :=
  mkBoard (PiecesBB b) (board b) (sideToMove b) v (castlingRights b)
    (storeInfo b) (checkMask b) (pinMaskHV b) (pinMaskD b) (doubleCheck b)
    (halfMoveClock b) (fullMoveCounter b) (hashKey b).
Definition set_castlingRights (v : Z) (b : Board) : Board :=
  mkBoard (PiecesBB b) (board b) (sideToMove b) (enpassantSquare b) v
    (storeInfo b) (checkMask b) (pinMaskHV b) (pinMaskD b) (doubleCheck b)
    (halfMoveClock b) (fullMoveCounter b) (hashKey b).
Definition set_storeInfo (v : list State) (b : Board) : Board :=
  mkBoard (PiecesBB b) (board b) (sideToMove b) (enpassantSquare b)
    (castlingRights b) v (checkMask b) (pinMaskHV b) (pinMaskD b)
    (doubleCheck b) (halfMoveClock b) (fullMoveCounter b) (hashKey b).
Definition set_checkMask (v : Bitboard) (b : Board) : Board :=
  mkBoard (PiecesBB b) (board b) (sideToMove b) (enpassantSquare b)
    (castlingRights b) (storeInfo b) v (pinMaskHV b) (pinMaskD b)
    (doubleCheck b) (halfMoveClock b) (fullMoveCounter b) (hashKey b).
Definition set_pinMasks (hv d : Bitboard) (b : Board) : Board :=
  mkBoard (PiecesBB b) (board b) (sideToMove b) (enpassantSquare b)
    (castlingRights b) (storeInfo b) (checkMask b) hv d
    (doubleCheck b) (halfMoveClock b) (fullMoveCounter b) (hashKey b).
Definition set_doubleCheck (v : Z) (b : Board) : Board :=
  mkBoard (PiecesBB b) (board b) (sideToMove b) (enpassantSquare b)
    (castlingRights b) (storeInfo b) (checkMask b) (pinMaskHV b) (pinMaskD b)
    v (halfMoveClock b) (fullMoveCounter b) (hashKey b).
Definition set_counters (h f : Z) (b : Board) : Board :=
  mkBoard (PiecesBB b) (board b) (sideToMove b) (enpassantSquare b)
    (castlingRights b) (storeInfo b) (checkMask b) (pinMaskHV b) (pinMaskD b)
    (doubleCheck b) h f (hashKey b).
Definition set_hashKey (v : Z) (b : Board) : Board :=
  mkBoard (PiecesBB b) (board b) (sideToMove b) (enpassantSquare b)
    (castlingRights b) (storeInfo b) (checkMask b) (pinMaskHV b) (pinMaskD b)
    (doubleCheck b) (halfMoveClock b) (fullMoveCounter b) v.

(** [PiecesBB[i]] and [board[sq]] read. *)
Definition bbAt (b : Board) (i : Z) : Bitboard := rd (PiecesBB b) i.
Definition getPiece (b : Board) (sq : Square) : Piece :=
  if sq <? 0 then NoPiece else default NoPiece (board b !! Z.to_nat sq).

(** [PiecesBB[i] = v] for an index the code computes as [type + 6 * color]. *)
Definition setBB (i : Z) (v : Bitboard) (b : Board) : Board :=
  set_PiecesBB (<[Z.to_nat i := v]> (PiecesBB b)) b.

(** Indexing [PiecesBB] by a piece that is not one of the twelve, or
    [SQUARE_BB] and [board] by a square that is not one of the 64, is
    outside the arrays: the call has no defined result. *)
Definition placePiece (p : Piece) (sq : Square) (b : Board) : option Board :=
  if (0 <=? p) && (p <? 12) && (0 <=? sq) && (sq <? 64) then
    Some (set_PiecesBB (<[Z.to_nat p := Z.lor (bbAt b p) (rd SQUARE_BB sq)]> (PiecesBB b))
            (set_board (<[Z.to_nat sq := p]> (board b)) b))
  else None.

Definition removePiece (p : Piece) (sq : Square) (b : Board) : option Board :=
  if (0 <=? p) && (p <? 12) && (0 <=? sq) && (sq <? 64) then
    Some (set_board (<[Z.to_nat sq := NoPiece]> (board b))
            (set_PiecesBB (<[Z.to_nat p := Z.land (bbAt b p) (not64 (rd SQUARE_BB sq))]> (PiecesBB b)) b))
  else None.

Definition Pawns (b : Board) (c : Color) : Bitboard := bbAt b (color_idx c * 6).
Definition Knights (b : Board) (c : Color) : Bitboard := bbAt b (color_idx c * 6 + pt_idx Knight).
Definition Bishops (b : Board) (c : Color) : Bitboard := bbAt b (color_idx c * 6 + pt_idx Bishop).
Definition Rooks (b : Board) (c : Color) : Bitboard := bbAt b (color_idx c * 6 + pt_idx Rook).
Definition Queens (b : Board) (c : Color) : Bitboard := bbAt b (color_idx c * 6 + pt_idx Queen).
Definition Kings (b : Board) (c : Color) : Bitboard := bbAt b (color_idx c * 6 + pt_idx King).

Definition allPieces (b : Board) (c : Color) : Bitboard :=
  Z.lor (Z.lor (Z.lor (Z.lor (Z.lor (Pawns b c) (Knights b c)) (Bishops b c))
                      (Rooks b c)) (Queens b c)) (Kings b c).

Definition Enemy (b : Board) (c : Color) : Bitboard :=
  match c with White => allPieces b Black | Black => allPieces b White end.

Definition EnemyEmpty (b : Board) (c : Color) : Bitboard :=
  match c with White => not64 (allPieces b White) | Black => not64 (allPieces b Black) end.

Definition KingSq (b : Board) (c : Color) : Square :=
  match c with White => bsf (Kings b White) | Black => bsf (Kings b Black) end.

(** ** Attack generation *)

(** Hyperbola Quintessence. *)
Definition hyp_quint (square : Square) (occ mask : Bitboard) : Bitboard :=
  Z.land
    (Z.lxor (sub64 (Z.land mask occ) (mul64 (rd SQUARE_BB square) 2))
            (reverse (sub64 (reverse (Z.land mask occ))
                            (mul64 (reverse (rd SQUARE_BB square)) 2))))
    mask.

Definition GetPawnPush (sq : Square) (c : Color) : Bitboard :=
  match c with White => rd SQUARE_BB (sq + 8) | Black => rd SQUARE_BB (sq - 8) end.

Definition GetPawnAttacks (square : Square) (c : Color) : Bitboard :=
  rd (PAWN_ATTACKS_TABLE c) square.

Definition GetKnightAttacks (square : Square) : Bitboard := rd KNIGHT_ATTACKS_TABLE square.

Definition GetBishopAttacks (square : Square) (occ : Bitboard) : Bitboard :=
  Z.lor (hyp_quint square occ (rd MASK_DIAGONAL (diagonal_of square)))
        (hyp_quint square occ (rd MASK_ANTI_DIAGONAL (anti_diagonal_of square))).

Definition GetRookAttacks (square : Square) (occ : Bitboard) : Bitboard :=
  Z.lor (hyp_quint square occ (rd MASK_FILE (file_of square)))
        (hyp_quint square occ (rd MASK_RANK (rank_of square))).

Definition GetQueenAttacks (square : Square) (occ : Bitboard) : Bitboard :=
  Z.lor (GetBishopAttacks square occ) (GetRookAttacks square occ).

Definition GetKingAttacks (square : Square) : Bitboard := rd KING_ATTACKS_TABLE square.

(** [isSquareAttacked]: is [sq] attacked by the side [color]. *)
Definition isSquareAttacked (b : Board) (sq : Square) (color : Color) : bool :=
  if negb (sq =? NO_SQ) then
    if nz (Z.land (GetPawnAttacks sq (opp color)) (Pawns b color)) then true
    else if nz (Z.land (GetKnightAttacks sq) (Knights b color)) then true
    else if nz (Z.land (GetBishopAttacks sq (Z.lor (allPieces b White) (allPieces b Black)))
                       (Bishops b color)) then true
    else if nz (Z.land (GetRookAttacks sq (Z.lor (allPieces b White) (allPieces b Black)))
                       (Rooks b color)) then true
    else if nz (Z.land (GetQueenAttacks sq (Z.lor (allPieces b White) (allPieces b Black)))
                       (Queens b color)) then true
    else false
  else false.

(** ** Pin and check analysis *)

(** [doCheckmask]: returns the check squares and leaves the counter of
    checks in [doubleCheck] (a [uint8_t], incremented at most four times). *)
Definition doCheckmask (b : Board) (c : Color) (sq : Square) : Bitboard * Board :=
  let checks := 0 in
  let pawn_attack := GetPawnAttacks sq c in
  let knight_attack := GetKnightAttacks sq in
  let bishop_attack :=
    Z.land (GetBishopAttacks sq (Z.lor (allPieces b c) (allPieces b (opp c))))
           (not64 (allPieces b c)) in
  let rook_attack :=
    Z.land (GetRookAttacks sq (Z.lor (allPieces b c) (allPieces b (opp c))))
           (not64 (allPieces b c)) in
  let pawn_mask := Z.land pawn_attack (Pawns b (opp c)) in
  let knight_mask := Z.land knight_attack (Knights b (opp c)) in
  let bishop_mask := Z.land bishop_attack (Z.lor (Bishops b (opp c)) (Queens b (opp c))) in
  let rook_mask := Z.land rook_attack (Z.lor (Rooks b (opp c)) (Queens b (opp c))) in
  let dc := 0 in
  let '(checks, dc) :=
    if nz pawn_mask then (Z.lor checks pawn_mask, dc + 1) else (checks, dc) in
  let '(checks, dc) :=
    if nz knight_mask then (Z.lor checks knight_mask, dc + 1) else (checks, dc) in
  let '(checks, dc) :=
    if nz bishop_mask then
      (Z.lor checks
         (Z.lor (Z.land bishop_attack (GetBishopAttacks (bsf bishop_mask) (allPieces b c)))
                (bit (bsf bishop_mask))),
       dc + 1)
    else (checks, dc) in
  let '(checks, dc) :=
    if nz rook_mask then
      (Z.lor checks
         (Z.lor (Z.land rook_attack (GetRookAttacks (bsf rook_mask) (allPieces b c)))
                (bit (bsf rook_mask))),
       dc + 1)
    else (checks, dc) in
  (checks, set_doubleCheck dc b).

Definition create_pins (b : Board) (c : Color) (sq : Square) : Board :=
  let rook_attack := GetRookAttacks sq (allPieces b (opp c)) in
  let bishop_attack := GetBishopAttacks sq (allPieces b (opp c)) in
  let rook_mask := Z.land rook_attack (Z.lor (Rooks b (opp c)) (Queens b (opp c))) in
  let bishop_mask := Z.land bishop_attack (Z.lor (Bishops b (opp c)) (Queens b (opp c))) in
  let rook_pin :=
    pop_loop 64 rook_mask (fun index rook_pin =>
      let possible_pin :=
        Z.lor (Z.land rook_attack (GetRookAttacks index (Kings b c))) (bit index) in
      if popCount (Z.land possible_pin (allPieces b c)) =? 1
      then Z.lor rook_pin possible_pin else rook_pin) 0 in
  let bishop_pin :=
    pop_loop 64 bishop_mask (fun index bishop_pin =>
      let possible_pin :=
        Z.lor (Z.land bishop_attack (GetBishopAttacks index (Kings b c))) (bit index) in
      if popCount (Z.land possible_pin (allPieces b c)) =? 1
      then Z.lor bishop_pin possible_pin else bishop_pin) 0 in
  set_pinMasks rook_pin bishop_pin b.

Definition init (b : Board) (c : Color) (sq : Square) : Board :=
  let '(mask, b) := doCheckmask b c sq in
  let b := set_checkMask (if nz mask then mask else ALL) b in
  create_pins b c sq.

(** ** Legal moves of one piece *)

(** [int8_t offset = c==White ? -8 : 8]: from the en-passant square to the
    pawn that can be taken there. *)
Definition ep_offset (c : Color) : Z := match c with White => -8 | Black => 8 end.

(** The en-passant test of [LegalPawnMoves]: both pawns are taken off
    their bitboards, a pawn is placed on the en-passant square, the capture
    joins [moves] if the king is not attacked, and the edits are undone. *)
Definition ep_test (b : Board) (c : Color) (sq : Square) (moves : Bitboard)
    : option (Bitboard * Board) :=
  let ep := enpassantSquare b in
  let own := pt_idx Pawn + 6 * color_idx c in
  let their := pt_idx Pawn + 6 * color_idx (opp c) in
  let b := setBB own (Z.land (bbAt b own) (not64 (bit sq))) b in
  let b := setBB their (Z.land (bbAt b their) (not64 (bit (ep + ep_offset c)))) b in
  b ← placePiece (makePiece Pawn c) ep b;
  let moves :=
    if negb (isSquareAttacked b (KingSq b c) (opp c))
    then Z.lor moves (bit ep) else moves in
  b ← removePiece (makePiece Pawn c) ep b;
  let b := setBB own (Z.lor (bbAt b own) (bit sq)) b in
  let b := setBB their (Z.lor (bbAt b their) (bit (ep + ep_offset c))) b in
  Some (moves, b).

(** The pushes of [LegalPawnMoves]: [push] after the conditional
    expression that assigns [push2] (its [push |= ...] changes [push] too),
    and [push2]. *)
Definition pawn_pushes (b : Board) (c : Color) (sq : Square) : Bitboard * Bitboard :=
  let not_all := Z.land (not64 (allPieces b c)) (not64 (allPieces b (opp c))) in
  let push := Z.land (GetPawnPush sq c) not_all in
  match c with
  | White =>
      if rank_of sq =? 1 then
        let push := Z.lor push (Z.land (shl64 push 8) not_all) in (push, push)
      else (push, 0)
  | Black =>
      if rank_of sq =? 6 then
        let push := Z.lor push (Z.land (shr64 push 8) not_all) in (push, push)
      else (push, 0)
  end.

(** [LegalPawnMoves] edits the board for the en-passant test and puts it
    back, so it returns the board with the move set. *)
Definition LegalPawnMoves (b : Board) (c : Color) (sq : Square)
    : option (Bitboard * Board) :=
  if doubleCheck b =? 2 then Some (0, b)
  else if nz (Z.land (pinMaskD b) (bit sq)) then
    Some (Z.land (Z.land (Z.land (GetPawnAttacks sq c) (pinMaskD b)) (checkMask b))
                 (Enemy b c), b)
  else
    let attacks := GetPawnAttacks sq c in
    let '(push, push2) := pawn_pushes b c sq in
    if nz (Z.land (pinMaskHV b) (bit sq)) then
      Some (Z.land (Z.land (Z.lor push push2) (pinMaskHV b)) (checkMask b), b)
    else
      let offset := ep_offset c in
      if negb (checkMask b =? ALL)
         && nz (Z.land attacks (bit (enpassantSquare b)))
         && nz (Z.land (checkMask b) (bit (enpassantSquare b + offset)))
      then Some (Z.land (GetPawnAttacks sq c) (bit (enpassantSquare b)), b)
      else if negb (checkMask b =? ALL) then
        Some (Z.land (Z.lor (Z.lor (Z.land (GetPawnAttacks sq c) (Enemy b c)) push) push2)
                     (checkMask b), b)
      else
        let moves := Z.land (Z.lor (Z.lor (Z.land attacks (Enemy b c)) push) push2)
                            (checkMask b) in
        if negb (enpassantSquare b =? NO_SQ)
           && (squareDistance sq (enpassantSquare b) =? 1)
           && nz (Z.land (bit (enpassantSquare b)) attacks)
        then ep_test b c sq moves
        else Some (moves, b).

Definition LegalKnightMoves (b : Board) (c : Color) (sq : Square) : Bitboard :=
  if doubleCheck b =? 2 then 0
  else if nz (Z.land (Z.lor (pinMaskHV b) (pinMaskD b)) (bit sq)) then 0
  else Z.land (Z.land (GetKnightAttacks sq) (EnemyEmpty b c)) (checkMask b).

Definition LegalBishopMoves (b : Board) (c : Color) (sq : Square) : Bitboard :=
  if doubleCheck b =? 2 then 0
  else if nz (Z.land (pinMaskHV b) (bit sq)) then 0
  else if nz (Z.land (pinMaskD b) (bit sq)) then
    Z.land (Z.land (Z.land
      (GetBishopAttacks sq (Z.lor (allPieces b White) (allPieces b Black)))
      (EnemyEmpty b c)) (checkMask b)) (pinMaskD b)
  else
    let allBB := Z.lor (allPieces b White) (allPieces b Black) in
    Z.land (Z.land (GetBishopAttacks sq allBB) (EnemyEmpty b c)) (checkMask b).

Definition LegalRookMoves (b : Board) (c : Color) (sq : Square) : Bitboard :=
  if doubleCheck b =? 2 then 0
  else if nz (Z.land (pinMaskD b) (bit sq)) then 0
  else if nz (Z.land (pinMaskHV b) (bit sq)) then
    Z.land (Z.land (Z.land
      (GetRookAttacks sq (Z.lor (allPieces b White) (allPieces b Black)))
      (EnemyEmpty b c)) (checkMask b)) (pinMaskHV b)
  else
    let allBB := Z.lor (allPieces b White) (allPieces b Black) in
    Z.land (Z.land (GetRookAttacks sq allBB) (EnemyEmpty b c)) (checkMask b).

Definition LegalQueenMoves (b : Board) (c : Color) (sq : Square) : Bitboard :=
  if doubleCheck b =? 2 then 0
  else Z.lor (LegalRookMoves b c sq) (LegalBishopMoves b c sq).

(** One castling test of [LegalKingMoves]: the right, the side to move, the
    squares that must be empty, the rook on its corner, the two squares
    that must not be attacked. *)
Definition castle_ok (b : Board) (right : Z) (side : Color) (empty : list Square)
    (rookSq : Square) (by_ : Color) (safe1 safe2 : Square) : bool :=
  let allBB := Z.lor (allPieces b White) (allPieces b Black) in
  nz (Z.land (castlingRights b) right)
  && Color_eqb (sideToMove b) side
  && forallb (fun s => negb (nz (Z.land allBB (bit s)))) empty
  && nz (Z.land (bit rookSq) (Rooks b side))
  && negb (isSquareAttacked b safe1 by_)
  && negb (isSquareAttacked b safe2 by_).

(** [LegalKingMoves] takes the king off its bitboard while it tests the
    destinations and puts it back. *)
Definition LegalKingMoves (b : Board) (c : Color) (sq : Square) : Bitboard * Board :=
  let king_moves := Z.land (GetKingAttacks sq) (EnemyEmpty b c) in
  let kidx := pt_idx King + 6 * color_idx c in
  let b := setBB kidx (Z.land (bbAt b kidx) (not64 (bit sq))) b in
  let legal_king :=
    pop_loop 64 king_moves (fun index legal_king =>
      if isSquareAttacked b index (opp c) then Z.lor legal_king 0
      else Z.lor legal_king (bit index)) 0 in
  let b := setBB kidx (Z.lor (bbAt b kidx) (bit sq)) b in
  let inCheck := negb (ALL =? checkMask b) in
  let castlingMoves :=
    if negb inCheck then
      let cm := 0 in
      let cm := if castle_ok b whiteKingSideCastling White [SQ_F1; SQ_G1] SQ_H1
                     (opp c) SQ_F1 SQ_G1
                then Z.lor cm (bit SQ_G1) else cm in
      let cm := if castle_ok b whiteQueenSideCastling White [SQ_D1; SQ_C1; SQ_B1] SQ_A1
                     (opp c) SQ_D1 SQ_C1
                then Z.lor cm (bit SQ_C1) else cm in
      let cm := if castle_ok b blackKingSideCastling Black [SQ_F8; SQ_G8] SQ_H8
                     (opp c) SQ_F8 SQ_G8
                then Z.lor cm (bit SQ_G8) else cm in
      let cm := if castle_ok b blackQueenSideCastling Black [SQ_D8; SQ_C8; SQ_B8] SQ_A8
                     (opp Black) SQ_D8 SQ_C8
                then Z.lor cm (bit SQ_C8) else cm in
      cm
    else 0 in
  (Z.lor legal_king castlingMoves, b).

(** ** Move list builder *)

(** The emission loop of one pawn. *)
Definition emit_pawn (b : Board) (source : Square) (moves : Bitboard) (ml : Moves) : Moves :=
  let stm := sideToMove b in
  pop_loop 64 moves (fun target ml =>
    let capture := if nz (Z.land (bit target) (Enemy b stm)) then 1 else 0 in
    if (rank_of target =? 7) || (rank_of target =? 0) then
      let ml := Add ml (mkMove source target (makePiece Pawn stm) (makePiece Queen stm) capture 0 0 0) in
      let ml := Add ml (mkMove source target (makePiece Pawn stm) (makePiece Rook stm) capture 0 0 0) in
      let ml := Add ml (mkMove source target (makePiece Pawn stm) (makePiece Bishop stm) capture 0 0 0) in
      Add ml (mkMove source target (makePiece Pawn stm) (makePiece Knight stm) capture 0 0 0)
    else if Z.abs (source - target) =? 16 then
      Add ml (mkMove source target (makePiece Pawn stm) NoPiece capture 1 0 0)
    else if target =? enpassantSquare b then
      Add ml (mkMove source target (makePiece Pawn stm) NoPiece 1 0 1 0)
    else
      Add ml (mkMove source target (makePiece Pawn stm) NoPiece capture 0 0 0)) ml.

(** The emission loop of a knight, bishop, rook or queen. *)
Definition emit_piece (b : Board) (t : PieceType) (source : Square) (moves : Bitboard)
    (ml : Moves) : Moves :=
  let stm := sideToMove b in
  pop_loop 64 moves (fun target ml =>
    let capture := if nz (Z.land (bit target) (Enemy b stm)) then 1 else 0 in
    Add ml (mkMove source target (makePiece t stm) NoPiece capture 0 0 0)) ml.

Definition emit_king (b : Board) (source : Square) (moves : Bitboard) (ml : Moves) : Moves :=
  let stm := sideToMove b in
  pop_loop 64 moves (fun target ml =>
    let capture := if nz (Z.land (bit target) (Enemy b stm)) then 1 else 0 in
    if (target =? SQ_G1) && (source =? SQ_E1) then
      Add ml (mkMove source target (makePiece King stm) NoPiece 0 0 0 1)
    else if (target =? SQ_C1) && (source =? SQ_E1) then
      Add ml (mkMove source target (makePiece King stm) NoPiece 0 0 0 1)
    else if (target =? SQ_G8) && (source =? SQ_E8) then
      Add ml (mkMove source target (makePiece King stm) NoPiece 0 0 0 1)
    else if (target =? SQ_C8) && (source =? SQ_E8) then
      Add ml (mkMove source target (makePiece King stm) NoPiece 0 0 0 1)
    else
      Add ml (mkMove source target (makePiece King stm) NoPiece capture 0 0 0)) ml.

(** The loop over the pawns: [LegalPawnMoves] may edit the board, so the
    board is threaded through with the list. *)
Definition gen_pawns (pawn_mask : Bitboard) (b : Board) (moveList : Moves)
    : option (Moves * Board) :=
  pop_loopM 64 pawn_mask (fun source '(moveList, b) =>
    '(moves, b) ← LegalPawnMoves b (sideToMove b) source;
    Some (emit_pawn b source moves moveList, b)) (moveList, b).

(** The loops over the knights, bishops, rooks and queens. *)
Definition gen_officers (knight_mask bishop_mask rook_mask queen_mask : Bitboard)
    (b : Board) (moveList : Moves) : Moves :=
  let stm := sideToMove b in
  let moveList :=
    pop_loop 64 knight_mask (fun source moveList =>
      emit_piece b Knight source (LegalKnightMoves b stm source) moveList) moveList in
  let moveList :=
    pop_loop 64 bishop_mask (fun source moveList =>
      emit_piece b Bishop source (LegalBishopMoves b stm source) moveList) moveList in
  let moveList :=
    pop_loop 64 rook_mask (fun source moveList =>
      emit_piece b Rook source (LegalRookMoves b stm source) moveList) moveList in
  pop_loop 64 queen_mask (fun source moveList =>
    emit_piece b Queen source (LegalQueenMoves b stm source) moveList) moveList.

Definition gen_king (king_mask : Bitboard) (b : Board) (moveList : Moves) : Moves * Board :=
  let source := bsf king_mask in
  let '(moves, b) := LegalKingMoves b (sideToMove b) source in
  (emit_king b source moves moveList, b).

(** [generateLegalMoves]: the move list, and the board as the call leaves
    it (the analyzer fields rewritten, the pieces edited and put back).
    The six piece masks are read once, after the analyzer. *)
Definition generateLegalMoves (b : Board) : option (Moves * Board) :=
  let moveList := Moves_init in
  let b := init b (sideToMove b) (KingSq b (sideToMove b)) in
  let stm := sideToMove b in
  let pawn_mask := Pawns b stm in
  let knight_mask := Knights b stm in
  let bishop_mask := Bishops b stm in
  let rook_mask := Rooks b stm in
  let queen_mask := Queens b stm in
  let king_mask := Kings b stm in
  '(moveList, b) ←
    (if doubleCheck b <? 2 then
       '(moveList, b) ← gen_pawns pawn_mask b moveList;
       Some (gen_officers knight_mask bishop_mask rook_mask queen_mask b moveList, b)
     else Some (moveList, b));
  Some (gen_king king_mask b moveList).

(** ** Make and unmake *)

(** [castlingRights &= ~right] on the [uint8_t]. *)
Definition clear_right (right : Z) (b : Board) : Board :=
  set_castlingRights (Z.land (castlingRights b) (Z.lnot right)) b.

(** [makemove], in the order of the source: the snapshot is pushed, then
    come the castling rook and the rights of the king, the rights lost by a
    rook move and by a rook capture, the pawn taken en passant, the new
    en-passant square, the pieces of the move itself, and the side. *)

Definition mm_castle (move : Move) (stm : Color) (b : Board) : option Board :=
  if piece move =? makePiece King stm then
    if (source move =? SQ_E1) && (target move =? SQ_G1)
       && nz (Z.land (castlingRights b) whiteKingSideCastling) then
      let b := clear_right whiteQueenSideCastling (clear_right whiteKingSideCastling b) in
      b ← removePiece (makePiece Rook White) SQ_H1 b;
      placePiece (makePiece Rook White) SQ_F1 b
    else if (source move =? SQ_E8) && (target move =? SQ_G8)
       && nz (Z.land (castlingRights b) blackKingSideCastling) then
      let b := clear_right blackQueenSideCastling (clear_right blackKingSideCastling b) in
      b ← removePiece (makePiece Rook Black) SQ_H8 b;
      placePiece (makePiece Rook Black) SQ_F8 b
    else if (source move =? SQ_E1) && (target move =? SQ_C1)
       && nz (Z.land (castlingRights b) whiteQueenSideCastling) then
      let b := clear_right whiteKingSideCastling (clear_right whiteQueenSideCastling b) in
      b ← removePiece (makePiece Rook White) SQ_A1 b;
      placePiece (makePiece Rook White) SQ_D1 b
    else if (source move =? SQ_E8) && (target move =? SQ_C8)
       && nz (Z.land (castlingRights b) blackQueenSideCastling) then
      let b := clear_right blackKingSideCastling (clear_right blackQueenSideCastling b) in
      b ← removePiece (makePiece Rook Black) SQ_A8 b;
      placePiece (makePiece Rook Black) SQ_D8 b
    else Some b
  else Some b.

Definition mm_king_rights (move : Move) (stm : Color) (b : Board) : Board :=
  let b :=
    if (piece move =? makePiece King stm) && Color_eqb stm White
    then clear_right whiteQueenSideCastling (clear_right whiteKingSideCastling b) else b in
  if (piece move =? makePiece King stm) && Color_eqb stm Black
  then clear_right blackQueenSideCastling (clear_right blackKingSideCastling b) else b.

(** rook move loses castle rights *)
Definition mm_rook_move (move : Move) (b : Board) : Board :=
  if piece move =? makePiece Rook White then
    if source move =? SQ_A1 then clear_right whiteQueenSideCastling b
    else if source move =? SQ_H1 then clear_right whiteKingSideCastling b
    else b
  else if piece move =? makePiece Rook Black then
    if source move =? SQ_A8 then clear_right blackQueenSideCastling b
    else if source move =? SQ_H8 then clear_right blackKingSideCastling b
    else b
  else b.

(** Rook capture loses castle rights.  The [else if] repeats the condition
    of the [if] word for word, as the source does. *)
Definition mm_rook_capture (move : Move) (stm : Color) (b : Board) : Board :=
  if capture move && nz (Z.land (bit (target move)) (Rooks b (opp stm))) then
    if target move =? SQ_A1 then clear_right whiteQueenSideCastling b
    else if target move =? SQ_H1 then clear_right whiteKingSideCastling b
    else b
  else if capture move && nz (Z.land (bit (target move)) (Rooks b (opp stm))) then
    if target move =? SQ_A8 then clear_right blackQueenSideCastling b
    else if target move =? SQ_H8 then clear_right blackKingSideCastling b
    else b
  else b.

(** enpassant capture; [Square(move.target() + offset)] is a [uint8_t]. *)
Definition mm_enpassant (move : Move) (stm : Color) (b : Board) : option Board :=
  if (target move =? enpassantSquare b) && enpassant move then
    let offset := ep_offset stm in
    removePiece (makePiece Pawn (opp stm)) ((target move + offset) mod 256) b
  else Some b.

(** update enpassant square *)
Definition mm_update_ep (move : Move) (stm : Color) (b : Board) : Board :=
  let b := set_enpassantSquare NO_SQ b in
  if (piece move =? makePiece Pawn stm) && (Z.abs (source move - target move) =? 16) then
    let offset := ep_offset stm in
    let epMask := GetPawnAttacks ((target move + offset) mod 256) stm in
    if nz (Z.land epMask (Pawns b (opp stm)))
    then set_enpassantSquare ((target move + offset) mod 256) b else b
  else b.

Definition mm_pieces (move : Move) (b : Board) : option Board :=
  b ← (if capture move then removePiece (getPiece b (target move)) (target move) b
       else Some b);
  b ← removePiece (piece move) (source move) b;
  b ← placePiece (piece move) (target move) b;
  if negb (promoted move =? NoPiece) then
    b ← removePiece (piece move) (target move) b;
    placePiece (promoted move) (target move) b
  else Some b.

Definition snapshot (b : Board) : State :=
  mkState (PiecesBB b) (board b) (sideToMove b) (enpassantSquare b) (castlingRights b).

Definition makemove (b : Board) (move : Move) : option Board :=
  let stm := sideToMove b in
  let b := set_storeInfo (snapshot b :: storeInfo b) b in
  b ← mm_castle move stm b;
  let b := mm_king_rights move stm b in
  let b := mm_rook_move move b in
  let b := mm_rook_capture move stm b in
  b ← mm_enpassant move stm b;
  let b := mm_update_ep move stm b in
  b ← mm_pieces move b;
  (* Switch sides *)
  Some (set_sideToMove (opp stm) b).

(** [unmakemove]: [storeInfo.top()] of an empty stack has no defined result. *)
Definition unmakemove (b : Board) : option Board :=
  match storeInfo b with
  | [] => None
  | safeState :: rest =>
      Some (set_storeInfo rest
             (set_castlingRights (castlingRightsCopy safeState)
               (set_enpassantSquare (enpassantCopy safeState)
                 (set_sideToMove (sideToMoveCopy safeState)
                   (set_board (boardCopy safeState)
                     (set_PiecesBB (PiecesCopyBB safeState) b))))))
  end.

(** ** Hash, FEN parser and mate predicates ([chess.cpp]) *)

Section Hashing.

(** The Zobrist tables and the check predicate are declared outside the
    listed sources; the functions below take them as they are. *)
Variable RANDOM_ARRAY : Z -> Z.
Variable hash_piece : Piece -> Z.
Variable castlingKey : Z -> Z.
Variable isCheck : Board -> Color -> bool.

Definition piece_at (b : Board) (sq : Square) : Piece := getPiece b sq.

Definition updateKeyPiece (p : Piece) (sq : Square) (key : Z) : Z :=
  Z.lxor key (RANDOM_ARRAY (64 * hash_piece p + sq)).

Definition updateKeyEnPassant (sq : Square) (key : Z) : Z :=
  Z.lxor key (RANDOM_ARRAY (772 + file_of sq)).

Definition updateKeyCastling (b : Board) (key : Z) : Z :=
  Z.lxor key (castlingKey (castlingRights b)).

Definition updateKeySideToMove (key : Z) : Z := Z.lxor key (RANDOM_ARRAY 780).

(** [hash]: recomputes [hashKey] from the position. *)
Definition hash (b : Board) : Board :=
  let key := 0 in
  let wPieces := allPieces b White in
  let bPieces := allPieces b Black in
  let key := pop_loop 64 wPieces (fun sq key => updateKeyPiece (piece_at b sq) sq key) key in
  let key := pop_loop 64 bPieces (fun sq key => updateKeyPiece (piece_at b sq) sq key) key in
  let key :=
    if negb (enpassantSquare b =? NO_SQ) then
      let '(epMask, pawns) :=
        if rank_of (enpassantSquare b) =? 2
        then (GetPawnAttacks (enpassantSquare b) White, Pawns b Black)
        else (GetPawnAttacks (enpassantSquare b) Black, Pawns b White) in
      if nz (Z.land epMask pawns) then updateKeyEnPassant (enpassantSquare b) key else key
    else key in
  let key := if Color_eqb (sideToMove b) White then updateKeySideToMove key else key in
  let key := updateKeyCastling b key in
  set_hashKey key b.

(** The character code, as the [int] the parser computes with. *)
Definition code (ch : ascii) : Z := Z.of_nat (nat_of_ascii ch).

Definition charToPiece (ch : ascii) : option Piece :=
  if Ascii.eqb ch "P" then Some WhitePawn
  else if Ascii.eqb ch "N" then Some WhiteKnight
  else if Ascii.eqb ch "B" then Some WhiteBishop
  else if Ascii.eqb ch "R" then Some WhiteRook
  else if Ascii.eqb ch "Q" then Some WhiteQueen
  else if Ascii.eqb ch "K" then Some WhiteKing
  else if Ascii.eqb ch "p" then Some BlackPawn
  else if Ascii.eqb ch "n" then Some BlackKnight
  else if Ascii.eqb ch "b" then Some BlackBishop
  else if Ascii.eqb ch "r" then Some BlackRook
  else if Ascii.eqb ch "q" then Some BlackQueen
  else if Ascii.eqb ch "k" then Some BlackKing
  else None.

Definition isdigit (ch : ascii) : bool := (48 <=? code ch) && (code ch <=? 57).

(** The split on spaces.  A token is pushed when a space ends it, so the
    characters after the last space are never pushed. *)
Fixpoint split_tokens (FEN : string) (token : string) (tokens : list string)
    : list string :=
  match FEN with
  | EmptyString => tokens
  | String ch rest =>
      if Ascii.eqb ch " " then
        if negb (String.length token =? 0)%nat
        then split_tokens rest EmptyString (tokens ++ [token])
        else split_tokens rest token tokens
      else split_tokens rest (token ++ String ch EmptyString)%string tokens
  end.

(** The piece placement loop; [square] is a [uint8_t]. *)
Fixpoint load_pieces (pieces : string) (square : Square) (b : Board) : option Board :=
  match pieces with
  | EmptyString => Some b
  | String curr rest =>
      match charToPiece curr with
      | Some p =>
          b ← placePiece p square b;
          load_pieces rest ((square + 1) mod 256) b
      | None =>
          if Ascii.eqb curr "/" then load_pieces rest ((square - 16) mod 256) b
          else if isdigit curr then load_pieces rest ((square + (code curr - 48)) mod 256) b
          else load_pieces rest square b
      end
  end.

Fixpoint load_castling (castling : string) (b : Board) : Board :=
  match castling with
  | EmptyString => b
  | String ch rest =>
      let b :=
        if Ascii.eqb ch "K" then set_castlingRights (Z.lor (castlingRights b) whiteKingSideCastling) b
        else if Ascii.eqb ch "Q" then set_castlingRights (Z.lor (castlingRights b) whiteQueenSideCastling) b
        else if Ascii.eqb ch "k" then set_castlingRights (Z.lor (castlingRights b) blackKingSideCastling) b
        else if Ascii.eqb ch "q" then set_castlingRights (Z.lor (castlingRights b) blackQueenSideCastling) b
        else b in
      load_castling rest b
  end.

(** [parseFEN] of [chess.cpp].  With fewer than four tokens the four
    strings stay empty, and the parser then reads [ep[1]] of the empty
    string, past its terminator: no defined result. *)
Definition parseFEN (b : Board) (FEN : string) : option Board :=
  let b := set_PiecesBB (replicate 12 0) b in
  let b := set_board (replicate 64 NoPiece) b in
  let b := set_storeInfo [] b in
  let b := set_enpassantSquare NO_SQ b in
  let b := set_castlingRights 0 b in
  let b := set_counters 0 1 b in
  let tokens := split_tokens FEN EmptyString [] in
  let '(pieces, color, castling, ep) :=
    match tokens with
    | t0 :: t1 :: t2 :: t3 :: _ => (t0, t1, t2, t3)
    | _ => (EmptyString, EmptyString, EmptyString, EmptyString)
    end in
  b ← load_pieces pieces 56 b;
  let b := set_sideToMove (if String.eqb color "w" then White else Black) b in
  b ← (if negb (String.eqb ep "-") then
         match ep with
         | EmptyString => None
         | String f EmptyString =>
             let rank := 0 - 49 in
             let file := code f - 97 in
             Some (set_enpassantSquare ((rank * 8 + file) mod 256) b)
         | String f (String r _) =>
             let rank := code r - 49 in
             let file := code f - 97 in
             Some (set_enpassantSquare ((rank * 8 + file) mod 256) b)
         end
       else Some b);
  let b := load_castling castling b in
  Some (hash b).

(** [legal_moves] dispatches on the side to move to the one generator. *)
Definition legal_moves (b : Board) : option (Moves * Board) := generateLegalMoves b.

Definition isCheckmate (b : Board) : option bool :=
  if isCheck b (sideToMove b) then
    '(movesList, _) ← legal_moves b;
    if count movesList =? 0 then Some true else Some false
  else Some false.

Definition isStalemate (b : Board) : option bool :=
  if isCheck b (sideToMove b) then Some false
  else
    '(movesList, _) ← legal_moves b;
    if count movesList =? 0 then Some true else Some false.

End Hashing.

(** A board before any FEN is parsed (the constructor's own resets). *)
Definition Board_blank : Board :=
  mkBoard (replicate 12 0) (replicate 64 NoPiece) White NO_SQ 0 [] ALL 0 0 0 0 1 0.

(** ** Reference notions for the claims *)

(** [Board::PieceBB]. *)
Definition PieceBB (b : Board) (type : PieceType) (c : Color) : Bitboard :=
  bbAt b (color_idx c * 6 + pt_idx type).

Definition squares : list Square := map Z.of_nat (seq 0 64).

(** *** Attacks by the rules of chess

    The reference for the attack query: a piece of kind [t] and colour [c]
    standing on [from] attacks [to] by the geometry of its move, a slider
    only over empty squares of the full board. *)

Definition occupied (b : Board) (sq : Square) : bool :=
  Z.testbit (Z.lor (allPieces b White) (allPieces b Black)) sq.

(** Walks from file [f], rank [r] by the step [df], [dr]: true when the
    target is reached before any occupied square. *)
Fixpoint clear_path (b : Board) (n : nat) (f r df dr tf tr : Z) : bool :=
  match n with
  | O => false
  | S k =>
      let f' := f + df in
      let r' := r + dr in
      if (f' =? tf) && (r' =? tr) then true
      else if occupied b (8 * r' + f') then false
      else clear_path b k f' r' df dr tf tr
  end.

Definition slides (b : Board) (diagonal : bool) (from to : Square) : bool :=
  let df := file_of to - file_of from in
  let dr := rank_of to - rank_of from in
  negb (from =? to)
  && (if diagonal then Z.abs df =? Z.abs dr else (df =? 0) || (dr =? 0))
  && clear_path b 7 (file_of from) (rank_of from) (Z.sgn df) (Z.sgn dr)
       (file_of to) (rank_of to).

Definition attacks_by_rules (b : Board) (t : PieceType) (c : Color) (from to : Square)
    : bool :=
  let df := file_of to - file_of from in
  let dr := rank_of to - rank_of from in
  match t with
  | Pawn => (Z.abs df =? 1) && (dr =? match c with White => 1 | Black => -1 end)
  | Knight => ((Z.abs df =? 1) && (Z.abs dr =? 2)) || ((Z.abs df =? 2) && (Z.abs dr =? 1))
  | Bishop => slides b true from to
  | Rook => slides b false from to
  | Queen => slides b true from to || slides b false from to
  | King => Z.max (Z.abs df) (Z.abs dr) =? 1
  end.

(** Some pawn, knight, bishop, rook, queen or king of colour [c] attacks [sq]. *)
Definition attacked_by_rules (b : Board) (sq : Square) (c : Color) : bool :=
  existsb (fun t =>
    existsb (fun from => Z.testbit (PieceBB b t c) from && attacks_by_rules b t c from sq)
      squares)
    [Pawn; Knight; Bishop; Rook; Queen; King].

(** *** Checkers of a king (analyzer)

    The enemy pieces giving check to the king of [c] on [sq]: the pawn,
    knight, bishop and rook attacks projected from the king square over the
    full occupancy, each met with the enemy pieces of that kind, queens
    counting with the bishops and with the rooks. *)

Definition pawn_checkers (b : Board) (c : Color) (sq : Square) : Bitboard :=
  Z.land (GetPawnAttacks sq c) (Pawns b (opp c)).

Definition knight_checkers (b : Board) (c : Color) (sq : Square) : Bitboard :=
  Z.land (GetKnightAttacks sq) (Knights b (opp c)).

Definition diagonal_checkers (b : Board) (c : Color) (sq : Square) : Bitboard :=
  Z.land (GetBishopAttacks sq (Z.lor (allPieces b c) (allPieces b (opp c))))
         (Z.lor (Bishops b (opp c)) (Queens b (opp c))).

Definition straight_checkers (b : Board) (c : Color) (sq : Square) : Bitboard :=
  Z.land (GetRookAttacks sq (Z.lor (allPieces b c) (allPieces b (opp c))))
         (Z.lor (Rooks b (opp c)) (Queens b (opp c))).

Definition checkers (b : Board) (c : Color) (sq : Square) : Bitboard :=
  Z.lor (Z.lor (Z.lor (pawn_checkers b c sq) (knight_checkers b c sq))
               (diagonal_checkers b c sq)) (straight_checkers b c sq).

(** The number of squares of a bitboard among those of [l]. *)
Definition count_in (l : list Square) (x : Bitboard) : Z :=
  fold_right (fun i n => if Z.testbit x i then n + 1 else n) 0 l.

(** The number of squares of a bitboard. *)
Definition card (x : Bitboard) : Z := count_in squares x.

Definition kind_count (x : Bitboard) : Z := if nz x then 1 else 0.

(** The number of kinds of attack (pawn, knight, diagonal, straight) along
    which at least one enemy piece gives check. *)
Definition check_kinds (b : Board) (c : Color) (sq : Square) : Z :=
  kind_count (pawn_checkers b c sq) + kind_count (knight_checkers b c sq)
  + kind_count (diagonal_checkers b c sq) + kind_count (straight_checkers b c sq).

(** *** The en-passant test position

    The capturing pawn taken off [sq], the captured pawn taken off the
    square behind the en-passant square, a pawn of the capturing side put
    on the en-passant square. *)
Definition ep_test_board (b : Board) (c : Color) (sq : Square) : Board :=
  let ep := enpassantSquare b in
  let own := pt_idx Pawn + 6 * color_idx c in
  let their := pt_idx Pawn + 6 * color_idx (opp c) in
  let b := setBB own (Z.land (bbAt b own) (not64 (bit sq))) b in
  let b := setBB their (Z.land (bbAt b their) (not64 (bit (ep + ep_offset c)))) b in
  let b := setBB own (Z.lor (bbAt b own) (bit ep)) b in
  set_board (<[Z.to_nat ep := makePiece Pawn c]> (board b)) b.

(** The king of [c] is attacked in the test position. *)
Definition ep_exposes_king (b : Board) (c : Color) (sq : Square) : bool :=
  let t := ep_test_board b c sq in
  isSquareAttacked t (KingSq t c) (opp c).

(** *** Positions

    The shape of a board that the arrays of the class give it, and the part
    of the data-model invariants that the generator relies on. *)

Definition u64 (x : Z) : Prop := 0 <= x < U64.

Definition wf_arrays (b : Board) : Prop :=
  length (PiecesBB b) = 12%nat /\ length (board b) = 64%nat /\ Forall u64 (PiecesBB b).

(** The en-passant square, if any, is empty (in the mailbox and on the
    bitboards) and the pawn that can be taken stands behind it. *)
Definition ep_consistent (b : Board) : Prop :=
  let ep := enpassantSquare b in
  let c := sideToMove b in
  0 <= ep < 64 ->
  getPiece b ep = NoPiece /\
  occupied b ep = false /\
  Z.testbit (Pawns b (opp c)) (ep + ep_offset c) = true.

(** The twelve piece bitboards are pairwise disjoint. *)
Definition pieces_disjoint (b : Board) : Prop :=
  forall i j, 0 <= i < 12 -> 0 <= j < 12 -> i <> j -> Z.land (bbAt b i) (bbAt b j) = 0.

(** The side to move has a king. *)
Definition has_king (b : Board) : Prop := Kings b (sideToMove b) <> 0.

(** The analyzer has run on the position for the side to move. *)
Definition analyzed (b : Board) : Board := init b (sideToMove b) (KingSq b (sideToMove b)).

(** Deciders for the two consistency conditions, to check them on a
    concrete board by evaluation. *)
Definition wf_arraysb (b : Board) : bool :=
  (length (PiecesBB b) =? 12)%nat && (length (board b) =? 64)%nat
  && forallb (fun x => (0 <=? x) && (x <? U64)) (PiecesBB b).

Definition ep_consistentb (b : Board) : bool :=
  let ep := enpassantSquare b in
  let c := sideToMove b in
  if (0 <=? ep) && (ep <? 64) then
    (getPiece b ep =? NoPiece) && negb (occupied b ep)
    && Z.testbit (Pawns b (opp c)) (ep + ep_offset c)
  else true.

Definition pieces : list Piece := map Z.of_nat (seq 0 12).

Definition pieces_disjointb (b : Board) : bool :=
  forallb (fun i => forallb (fun j => (i =? j) || (Z.land (bbAt b i) (bbAt b j) =? 0)) pieces)
    pieces.

(** ** Worked positions *)

(** Tables for running the parser on a concrete FEN.  No piece placement,
    move list or made move depends on them; only [hashKey] does. *)
Definition sample_RANDOM_ARRAY (i : Z) : Z := i + 1.
Definition sample_hash_piece (p : Piece) : Z := p.
Definition sample_castlingKey (rights : Z) : Z := rights.

Definition fen_board (FEN : string) : option Board :=
  parseFEN sample_RANDOM_ARRAY sample_hash_piece sample_castlingKey Board_blank FEN.

Definition sample_hash (b : Board) : Board :=
  hash sample_RANDOM_ARRAY sample_hash_piece sample_castlingKey b.

(** [defaultFEN], the start position. *)
Definition defaultFEN : string := "rnbqkbnr/pppppppp/8/8/8/8/PPPPPPPP/RNBQKBNR w KQkq - 0 1 ".

Definition pos_start : Board :=
  Eval vm_compute in default Board_blank (fen_board defaultFEN).

(** e2e4, as the generator emits it. *)
Definition move_e2e4 : Move := mkMove 12 28 WhitePawn NoPiece 0 1 0 0.

(** Both kings and a white queen, Black to move: the stalemate scenario of
    the test plan. *)
Definition fen_kings : string := "7k/8/6K1/8/8/8/8/5Q2 b - - 0 1".
Definition pos_kings : Board :=
  Eval vm_compute in default Board_blank (fen_board fen_kings).
(** h8g7. *)
Definition move_h8g7 : Move := mkMove 63 54 BlackKing NoPiece 0 0 0 0.

(** Rooks on h1 and h8 with both kingside rights, White to move. *)
Definition fen_rooks : string := "4k2r/8/8/8/8/8/8/4K2R w Kk - 0 1".
Definition pos_rooks : Board :=
  Eval vm_compute in default Board_blank (fen_board fen_rooks).
(** h1xh8. *)
Definition move_h1h8 : Move := mkMove 7 63 WhiteRook NoPiece 1 0 0 0.

(** The white king on e1 checked by the rooks on a1 and e8 at once. *)
Definition fen_two_rooks : string := "4r3/8/8/8/8/8/8/r3K2k w - - 0 1".
Definition pos_two_rooks : Board :=
  Eval vm_compute in default Board_blank (fen_board fen_two_rooks).

(** The white king on e4 checked by the pawn that just went d7-d5, with a
    bishop on b7 behind that pawn; the white pawn on e5 can take on d6. *)
Definition fen_ep_check : string := "8/1b6/8/3pP3/4K3/8/8/7k w - d6 0 1".
Definition pos_ep_check : Board :=
  Eval vm_compute in default Board_blank (fen_board fen_ep_check).

(** The white pawn on e5 pinned by the bishop on g7 to the king on d4,
    after f7-f5: taking on f6 stays on the pin ray. *)
Definition fen_ep_pinned : string := "8/6b1/8/4Pp2/3K4/8/8/7k w - f6 0 1".
Definition pos_ep_pinned : Board :=
  Eval vm_compute in default Board_blank (fen_board fen_ep_pinned).

(** An en-passant capture that the test lets through: e5xd6. *)
Definition fen_ep_free : string := "4k3/8/8/3pP3/8/8/8/4K3 w - d6 0 1".
Definition pos_ep_free : Board :=
  Eval vm_compute in default Board_blank (fen_board fen_ep_free).

(** Kings only, with the counters 5 and 10 in fields five and six. *)
Definition fen_counters : string := "4k3/8/8/8/8/8/8/4K3 w - - 5 10 ".

(** The check predicate of the original library, for running the mate
    predicates on a concrete position: the king square of [c] asked of the
    attack query. *)
Definition sample_isCheck (b : Board) (c : Color) : bool :=
  isSquareAttacked b (KingSq b c) (opp c).

(** The start position after e2e4, and the generator's result on
    [pos_kings]. *)
Definition pos_after_e2e4 : Board :=
  Eval vm_compute in default Board_blank (makemove pos_start move_e2e4).

Definition gen_pos_kings : Moves * Board :=
  Eval vm_compute in default (Moves_init, Board_blank) (generateLegalMoves pos_kings).

(** ** Reference notions for the bit primitives *)

(** The squares of a bitboard, lowest first: the order in which
    [while (bb) { sq = poplsb(bb); ... }] visits them. *)
Definition set_squares_of (l : list Square) (bb : Bitboard) : list Square :=
  List.filter (fun i => Z.testbit bb i) l.

Definition set_squares (bb : Bitboard) : list Square := set_squares_of squares bb.

(** One swap stage of [reverse]: [(bb & M) << s | (bb >> s) & M]. *)
Definition swap_stage (M s : Z) (bb : Bitboard) : Bitboard :=
  Z.lor (shl64 (Z.land bb M) s) (Z.land (shr64 bb s) M).

(** Where a swap stage takes the bit of square [i] from. *)
Definition swap_from (M s i : Z) : Z := if Z.testbit M i then i + s else i - s.

(** Where the last line of [reverse] (the swap of the four 16-bit words)
    takes the bit of square [i] from. *)
Definition word_from (i : Z) : Z :=
  if i <? 16 then i + 48 else if i <? 32 then i + 16 else if i <? 48 then i - 16 else i - 48.

(** ** Relations between boards used by the proofs *)

(** The saved states, the counters and the hash key: only the snapshot push
    of [makemove], [unmakemove] and the parser write them. *)
Definition same_saved (b b' : Board) : Prop :=
  storeInfo b' = storeInfo b /\ hashKey b' = hashKey b /\
  halfMoveClock b' = halfMoveClock b /\ fullMoveCounter b' = fullMoveCounter b.

(** Every right held after an edit was held before it. *)
Definition rights_within (b b' : Board) : Prop :=
  Z.land (castlingRights b') (castlingRights b) = castlingRights b'.

Definition moves_ok (ml : Moves) : Prop :=
  length (moves ml) = 256%nat /\ 0 <= count ml < 256.

(** The position of a board: everything but the four analyzer fields. *)
Definition same_position (b b' : Board) : Prop :=
  PiecesBB b' = PiecesBB b /\ board b' = board b /\ sideToMove b' = sideToMove b /\
  enpassantSquare b' = enpassantSquare b /\ castlingRights b' = castlingRights b /\
  storeInfo b' = storeInfo b /\ halfMoveClock b' = halfMoveClock b /\
  fullMoveCounter b' = fullMoveCounter b /\ hashKey b' = hashKey b.

(** The rights of a colour: its king side and its queen side. *)
Definition rights_of_color (c : Color) : Z :=
  match c with
  | White => Z.lor whiteKingSideCastling whiteQueenSideCastling
  | Black => Z.lor blackKingSideCastling blackQueenSideCastling
  end.

(** [pos_kings] after the king has stepped from h8 to g7. *)
Definition pos_kings_after : Board :=
  Eval vm_compute in default Board_blank (makemove pos_kings move_h8g7).

(** A text without a space. *)
Fixpoint no_space (s : string) : bool :=
  match s with
  | EmptyString => true
  | String ch rest => negb (Ascii.eqb ch " ") && no_space rest
  end.

(** [ch] occurs in [s]. *)
Fixpoint has_letter (c : ascii) (s : string) : bool :=
  match s with
  | EmptyString => false
  | String ch rest => Ascii.eqb ch c || has_letter c rest
  end.

(** The rights named by the letters of a castling field. *)
Definition letters_rights (s : string) : Z :=
  Z.lor (Z.lor (if has_letter "K" s then whiteKingSideCastling else 0)
               (if has_letter "Q" s then whiteQueenSideCastling else 0))
        (Z.lor (if has_letter "k" s then blackKingSideCastling else 0)
               (if has_letter "q" s then blackQueenSideCastling else 0)).

(** The walk of [clear_path] over an occupancy given as a bitboard. *)
Fixpoint ray_clear (occ : Bitboard) (n : nat) (f r df dr tf tr : Z) : bool :=
  match n with
  | O => false
  | S k =>
      let f' := f + df in
      let r' := r + dr in
      if (f' =? tf) && (r' =? tr) then true
      else if Z.testbit occ (8 * r' + f') then false
      else ray_clear occ k f' r' df dr tf tr
  end.

(** The two squares are on one line of the slider. *)
Definition aligned (diagonal : bool) (from to : Square) : bool :=
  let df := file_of to - file_of from in
  let dr := rank_of to - rank_of from in
  if diagonal then Z.abs df =? Z.abs dr else (df =? 0) || (dr =? 0).

(** A slider on [from] reaches [to] over the occupancy [occ]: the two
    squares are on one line of the slider and every square strictly between
    them is empty. *)
Definition slides_on (occ : Bitboard) (diagonal : bool) (from to : Square) : bool :=
  let df := file_of to - file_of from in
  let dr := rank_of to - rank_of from in
  negb (from =? to)
  && (if diagonal then Z.abs df =? Z.abs dr else (df =? 0) || (dr =? 0))
  && ray_clear occ 7 (file_of from) (rank_of from) (Z.sgn df) (Z.sgn dr)
       (file_of to) (rank_of to).

(** The squares that the walk passes before it reaches its target. *)
Fixpoint between (n : nat) (f r df dr tf tr : Z) : option (list Square) :=
  match n with
  | O => None
  | S k =>
      let f' := f + df in
      let r' := r + dr in
      if (f' =? tf) && (r' =? tr) then Some []
      else option_map (cons (8 * r' + f')) (between k f' r' df dr tf tr)
  end.

Definition between_squares (from to : Square) : option (list Square) :=
  between 7 (file_of from) (rank_of from)
    (Z.sgn (file_of to - file_of from)) (Z.sgn (rank_of to - rank_of from))
    (file_of to) (rank_of to).

(** No square of [o] lies strictly between the square numbers [lo] and [hi]. *)
Definition span_clear (o : Bitboard) (lo hi : Z) : bool :=
  forallb (fun s => if (lo <? s) && (s <? hi) then negb (Z.testbit o s) else true) squares.

(** The four lines through a square. *)
Inductive Line := File | Rank | Diagonal | AntiDiagonal.

Definition line_mask (l : Line) (sq : Square) : Bitboard :=
  match l with
  | File => rd MASK_FILE (file_of sq)
  | Rank => rd MASK_RANK (rank_of sq)
  | Diagonal => rd MASK_DIAGONAL (diagonal_of sq)
  | AntiDiagonal => rd MASK_ANTI_DIAGONAL (anti_diagonal_of sq)
  end.

Definition line_diagonal (l : Line) : bool :=
  match l with File | Rank => false | Diagonal | AntiDiagonal => true end.

(** What [hyp_quint] computes for the square [k] at the square [j]. *)
Definition line_bit (l : Line) (occ : Bitboard) (k j : Square) : bool :=
  Z.testbit (line_mask l k) j && negb (j =? k)
  && span_clear (Z.land (line_mask l k) occ) (Z.min j k) (Z.max j k).

(** For a square [t] of a line through [sq]: the walk from [sq] reaches
    [t], and it passes the squares of the line that lie between the two in
    the numbering of the squares. *)
Definition walk_on_line (l : Line) (sq t : Square) : bool :=
  if Z.testbit (line_mask l sq) t && negb (t =? sq) then
    aligned (line_diagonal l) sq t
    && match between_squares sq t with
       | Some L =>
           forallb (fun s => (0 <=? s) && (s <? 64)) L
           && forallb (fun s =>
                Bool.eqb (existsb (Z.eqb s) L)
                  ((Z.min t sq <? s) && (s <? Z.max t sq) && Z.testbit (line_mask l sq) s))
                squares
       | None => false
       end
  else true.

(** The occupancy that [isSquareAttacked] hands to the sliders. *)
Definition occupancy (b : Board) : Bitboard := Z.lor (allPieces b White) (allPieces b Black).

(** The move that [emit_piece] writes for a target. *)
Definition piece_move (b : Board) (t : PieceType) (source target : Square) : Move :=
  mkMove source target (makePiece t (sideToMove b)) NoPiece
    (if nz (Z.land (bit target) (Enemy b (sideToMove b))) then 1 else 0) 0 0 0.

(** The move that [emit_king] writes for a target. *)
Definition king_move (b : Board) (source target : Square) : Move :=
  let stm := sideToMove b in
  let capture := if nz (Z.land (bit target) (Enemy b stm)) then 1 else 0 in
  if (target =? SQ_G1) && (source =? SQ_E1) then
    mkMove source target (makePiece King stm) NoPiece 0 0 0 1
  else if (target =? SQ_C1) && (source =? SQ_E1) then
    mkMove source target (makePiece King stm) NoPiece 0 0 0 1
  else if (target =? SQ_G8) && (source =? SQ_E8) then
    mkMove source target (makePiece King stm) NoPiece 0 0 0 1
  else if (target =? SQ_C8) && (source =? SQ_E8) then
    mkMove source target (makePiece King stm) NoPiece 0 0 0 1
  else mkMove source target (makePiece King stm) NoPiece capture 0 0 0.

(** The white king on e1 checked by the rook on e8 and the knight on d3. *)
Definition fen_double : string := "4r3/8/8/8/8/3n4/8/4K2k w - - 0 1 ".

Definition pos_double : Board :=
  Eval vm_compute in default Board_blank (fen_board fen_double).

Definition gen_double : Moves * Board :=
  Eval vm_compute in default (Moves_init, Board_blank) (generateLegalMoves pos_double).

(** The move set of a knight, bishop, rook or queen. *)
Definition officer_moves (b : Board) (k : PieceType) (c : Color) (sq : Square) : Bitboard :=
  match k with
  | Knight => LegalKnightMoves b c sq
  | Bishop => LegalBishopMoves b c sq
  | Rook => LegalRookMoves b c sq
  | Queen => LegalQueenMoves b c sq
  | Pawn | King => 0
  end.

(** The board on which [LegalKingMoves] tests the destinations: the king
    of [c] taken off its bitboard. *)
Definition king_lifted (b : Board) (c : Color) (sq : Square) : Board :=
  setBB (pt_idx King + 6 * color_idx c)
        (Z.land (bbAt b (pt_idx King + 6 * color_idx c)) (not64 (bit sq))) b.




(** In check without an en-passant square the test of [LegalPawnMoves] on
    [1ULL << enpassantSquare] shifts by [NO_SQ], that is by 64, and the
    test of the check mask by 72.  In [k7/8/8/8/8/8/Rp6/7K b] the rook on
    a2 checks the king on a8 along the file, a2 is on the check mask and
    the pawn on b2 attacks a1: its move set is the empty square a1, which
    is neither held by an enemy piece nor the en-passant square. *)
Definition fen_shift : string := "k7/8/8/8/8/8/Rp6/7K b - - 0 1 ".

Definition pos_shift : Board := Eval vm_compute in default Board_blank (fen_board fen_shift).

(** What [initializeLookupTables] writes to [SQUARES_BETWEEN_BB[sq1][sq2]];
    [None] when the pair is on no common line and the entry is left as it
    was. *)
Definition squares_between_entry (sq1 sq2 : Square) : option Bitboard :=
  let sqs := Z.lor (rd SQUARE_BB sq1) (rd SQUARE_BB sq2) in
  if (file_of sq1 =? file_of sq2) || (rank_of sq1 =? rank_of sq2) then
    Some (Z.land (GetRookAttacks sq1 sqs) (GetRookAttacks sq2 sqs))
  else if (diagonal_of sq1 =? diagonal_of sq2)
          || (anti_diagonal_of sq1 =? anti_diagonal_of sq2) then
    Some (Z.land (GetBishopAttacks sq1 sqs) (GetBishopAttacks sq2 sqs))
  else None.

(** [t] is one of the squares that the walk from [sq1] to [sq2] passes. *)
Definition strictly_between (sq1 sq2 t : Square) : bool :=
  match between_squares sq1 sq2 with
  | Some L => existsb (Z.eqb t) L
  | None => false
  end.

(** The check of one pair of squares: on the squares [t] that are on a
    line of the slider with both, the two walks meet exactly between the
    two squares; no other square is between them. *)
Definition between_pair_ok (sq1 sq2 : Square) : bool :=
  if sq1 =? sq2 then true
  else
    let sqs := Z.lor (bit sq1) (bit sq2) in
    let L := between_squares sq1 sq2 in
    let mem := fun t => match L with Some L => existsb (Z.eqb t) L | None => false end in
    let chk := fun d =>
      forallb (fun t =>
        if aligned d sq1 t && aligned d sq2 t
        then Bool.eqb (slides_on sqs d sq1 t && slides_on sqs d sq2 t) (mem t)
        else negb (mem t)) squares in
    if (file_of sq1 =? file_of sq2) || (rank_of sq1 =? rank_of sq2) then chk false
    else if (diagonal_of sq1 =? diagonal_of sq2)
            || (anti_diagonal_of sq1 =? anti_diagonal_of sq2) then chk true
    else negb (aligned false sq1 sq2) && negb (aligned true sq1 sq2).

(** The mailbox after one write: its length, the square written, the
    other squares. *)
Definition board_written (b b' : Board) (sq : Square) (p : Piece) : Prop :=
  0 <= sq < 64 /\
  (length (board b) = 64%nat ->
   length (board b') = 64%nat /\ getPiece b' sq = p /\
   forall s, s <> sq -> getPiece b' s = getPiece b s).

(** The generator emits an en-passant capture with the capture flag set, so
    [makemove] calls [removePiece(getPiece(target), target)] on the empty
    target square: [PiecesBB[None] &= ~(1ULL << sq)] is a write to
    [PiecesBB[12]], one word past the twelve of the array, and
    [board[sq] = None] follows.  The class declares the mailbox [board]
    right after [PiecesBB], so the word written is in the mailbox.
    [oob l sq] stands for the mailbox [l] after that write, whatever it
    does there; [removePiece_oob], [mm_pieces_oob] and [makemove_oob] are
    [removePiece], the piece steps of [makemove] and [makemove] with it. *)
Definition removePiece_oob (oob : list Piece -> Square -> list Piece)
    (p : Piece) (sq : Square) (b : Board) : option Board :=
  if (p =? NoPiece) && (0 <=? sq) && (sq <? 64) then
    Some (set_board (<[Z.to_nat sq := NoPiece]> (oob (board b) sq)) b)
  else removePiece p sq b.

Definition mm_pieces_oob (oob : list Piece -> Square -> list Piece)
    (move : Move) (b : Board) : option Board :=
  b ← (if capture move
       then removePiece_oob oob (getPiece b (target move)) (target move) b
       else Some b);
  b ← removePiece_oob oob (piece move) (source move) b;
  b ← placePiece (piece move) (target move) b;
  if negb (promoted move =? NoPiece) then
    b ← removePiece_oob oob (piece move) (target move) b;
    placePiece (promoted move) (target move) b
  else Some b.

Definition makemove_oob (oob : list Piece -> Square -> list Piece)
    (b : Board) (move : Move) : option Board :=
  let stm := sideToMove b in
  let b := set_storeInfo (snapshot b :: storeInfo b) b in
  b ← mm_castle move stm b;
  let b := mm_king_rights move stm b in
  let b := mm_rook_move move b in
  let b := mm_rook_capture move stm b in
  b ← mm_enpassant move stm b;
  let b := mm_update_ep move stm b in
  b ← mm_pieces_oob oob move b;
  Some (set_sideToMove (opp stm) b).

(** The write on a little-endian machine with one byte for a [Piece]: bit
    [sq] of the word at [board] is bit [sq mod 8] of [board[sq / 8]]. *)
Definition oob_clear (l : list Piece) (sq : Square) : list Piece :=
  <[Z.to_nat (Z.shiftr sq 3) :=
      Z.land (default NoPiece (l !! Z.to_nat (Z.shiftr sq 3)))
             (Z.lnot (Z.shiftl 1 (Z.land sq 7)))]> l.

(** Every entry of the mailbox is one of the twelve pieces or [None]. *)
Definition mailbox_ok (b : Board) : Prop := Forall (fun p => 0 <= p <= 12) (board b).

Definition mailbox_okb (b : Board) : bool :=
  forallb (fun p => (0 <=? p) && (p <=? 12)) (board b).

(** e5xd6 en passant in [pos_ep_free], as the generator emits it: the
    capture flag and the en-passant flag are both set. *)
Definition move_e5d6 : Move := mkMove 36 43 WhitePawn NoPiece 1 0 1 0.

(** [makemove] along a line of moves, and [unmakemove] as many times. *)
Fixpoint play_oob (oob : list Piece -> Square -> list Piece) (b : Board) (ms : list Move)
    : option Board :=
  match ms with
  | [] => Some b
  | m :: rest => b1 ← makemove_oob oob b m; play_oob oob b1 rest
  end.

Fixpoint unplay (n : nat) (b : Board) : option Board :=
  match n with
  | O => Some b
  | S k => b1 ← unmakemove b; unplay k b1
  end.

(** e2e4 a7a6 e4e5 d7d5 e5xd6, the last an en-passant capture. *)
Definition line_enpassant : list Move :=
  [move_e2e4;
   mkMove 48 40 BlackPawn NoPiece 0 0 0 0;
   mkMove 28 36 WhitePawn NoPiece 0 0 0 0;
   mkMove 51 35 BlackPawn NoPiece 0 1 0 0;
   move_e5d6].

Definition pos_after_line : Board :=
  Eval vm_compute in default Board_blank (play_oob oob_clear pos_start line_enpassant).

(** Each move of the line is in the list the generator gives for the
    position it is made in. *)
Fixpoint line_generated (oob : list Piece -> Square -> list Piece) (b : Board)
    (ms : list Move) : bool :=
  match ms with
  | [] => true
  | m :: rest =>
      match generateLegalMoves b with
      | Some (ml, b0) =>
          existsb (Z.eqb m) (moveList ml)
          && match makemove_oob oob b0 m with
             | Some b1 => line_generated oob b1 rest
             | None => false
             end
      | None => false
      end
  end.

(** White promotes on e8 with capture; the new rook and the rook on a7 then
    both check the king on e7. *)
Definition fen_promotion : string := "4r3/R2Pk3/8/1n6/8/8/8/6K1 w - - 0 1 ".

Definition pos_promotion : Board :=
  Eval vm_compute in default Board_blank (fen_board fen_promotion).

(** d7xe8=R, and the replies Nb5xa7 and Nb5-c7. *)
Definition move_d7e8 : Move := mkMove 51 60 WhitePawn WhiteRook 1 0 0 0.

Definition move_b5a7 : Move := mkMove 33 48 BlackKnight NoPiece 1 0 0 0.

Definition move_b5c7 : Move := mkMove 33 50 BlackKnight NoPiece 0 0 0 0.

Definition pos_rook_checks : Board :=
  Eval vm_compute in default Board_blank (makemove pos_promotion move_d7e8).

(** The black king on a8, mated by the rook on h8 and the king on b6. *)
Definition fen_mate : string := "k6R/8/1K6/8/8/8/8/8 b - - 0 1 ".

Definition pos_mate : Board :=
  Eval vm_compute in default Board_blank (fen_board fen_mate).

(** The king of the side to move stepped to [t], if [makemove] does it. *)
Definition king_stepped (b : Board) (t : Square) : option Board :=
  let c := sideToMove b in
  makemove b (mkMove (KingSq b c) t (makePiece King c)
                     (getPiece b t) (if getPiece b t =? NoPiece then 0 else 1) 0 0 0).

(** * Properties *)

(** ** Fields that the piece edits never touch *)

Lemma same_saved_refl b : same_saved b b.
Proof. by unfold same_saved. Qed.

Lemma same_saved_trans b1 b2 b3 : same_saved b1 b2 -> same_saved b2 b3 -> same_saved b1 b3.
Proof. unfold same_saved; intros (-> & -> & -> & ->) (-> & -> & -> & ->). done. Qed.

(** Inversion of a chain of binds and conditionals that returned a board. *)
Ltac opt_steps :=
  repeat match goal with
  | H : mbind _ _ = Some _ |- _ => apply bind_Some in H as (? & ? & H)
  | H : (if ?c then _ else _) = Some _ |- _ => destruct c
  | H : Some _ = Some _ |- _ => injection H as <-
  | H : None = Some _ |- _ => discriminate H
  end.

Lemma removePiece_saved p sq b b' : removePiece p sq b = Some b' -> same_saved b b'.
Proof. unfold removePiece. case_match; intros [= <-]; done. Qed.

Lemma placePiece_saved p sq b b' : placePiece p sq b = Some b' -> same_saved b b'.
Proof. unfold placePiece. case_match; intros [= <-]; done. Qed.

Lemma clear_right_saved r b : same_saved b (clear_right r b).
Proof. done. Qed.

Lemma mm_castle_saved m stm b b' : mm_castle m stm b = Some b' -> same_saved b b'.
Proof.
  unfold mm_castle. intros H.
  opt_steps;
    repeat match goal with
    | H : removePiece _ _ _ = Some _ |- _ => apply removePiece_saved in H
    | H : placePiece _ _ _ = Some _ |- _ => apply placePiece_saved in H
    end;
    eauto using same_saved_refl, same_saved_trans, clear_right_saved.
Qed.

Lemma mm_enpassant_saved m stm b b' : mm_enpassant m stm b = Some b' -> same_saved b b'.
Proof.
  unfold mm_enpassant. case_match; [apply removePiece_saved|].
  intros [= <-]. apply same_saved_refl.
Qed.

Lemma mm_pieces_saved m b b' : mm_pieces m b = Some b' -> same_saved b b'.
Proof.
  unfold mm_pieces. intros H.
  opt_steps;
    repeat match goal with
    | H : removePiece _ _ _ = Some _ |- _ => apply removePiece_saved in H
    | H : placePiece _ _ _ = Some _ |- _ => apply placePiece_saved in H
    end;
    eauto 6 using same_saved_refl, same_saved_trans.
Qed.

Lemma mm_king_rights_saved m stm b : same_saved b (mm_king_rights m stm b).
Proof. unfold mm_king_rights. repeat case_match; done. Qed.

Lemma mm_rook_move_saved m b : same_saved b (mm_rook_move m b).
Proof. unfold mm_rook_move. repeat case_match; done. Qed.

Lemma mm_rook_capture_saved m stm b : same_saved b (mm_rook_capture m stm b).
Proof. unfold mm_rook_capture. repeat case_match; done. Qed.

Lemma mm_update_ep_saved m stm b : same_saved b (mm_update_ep m stm b).
Proof. unfold mm_update_ep. repeat case_match; done. Qed.

(** What [makemove] leaves in the saved fields: the snapshot of the position
    on top of the old stack, the counters and the key as they were. *)
Lemma makemove_saved b m b1 :
  makemove b m = Some b1 ->
  storeInfo b1 = snapshot b :: storeInfo b /\ hashKey b1 = hashKey b /\
  halfMoveClock b1 = halfMoveClock b /\ fullMoveCounter b1 = fullMoveCounter b.
Proof.
  unfold makemove. intros H. opt_steps.
  repeat match goal with
  | H : mm_castle _ _ _ = Some _ |- _ => apply mm_castle_saved in H
  | H : mm_enpassant _ _ _ = Some _ |- _ => apply mm_enpassant_saved in H
  | H : mm_pieces _ _ = Some _ |- _ => apply mm_pieces_saved in H
  end.
  match goal with
  | H1 : same_saved _ ?x, H2 : same_saved (mm_rook_capture m ?s (mm_rook_move m (mm_king_rights m ?s ?x))) ?y,
    H3 : same_saved (mm_update_ep m ?s ?y) ?z |- _ =>
      pose proof (mm_king_rights_saved m s x) as K1;
      pose proof (mm_rook_move_saved m (mm_king_rights m s x)) as K2;
      pose proof (mm_rook_capture_saved m s (mm_rook_move m (mm_king_rights m s x))) as K3;
      pose proof (mm_update_ep_saved m s y) as K4;
      pose proof (same_saved_trans _ _ _ H1
                   (same_saved_trans _ _ _ K1
                     (same_saved_trans _ _ _ K2
                       (same_saved_trans _ _ _ K3
                         (same_saved_trans _ _ _ H2
                           (same_saved_trans _ _ _ K4 H3)))))) as K
  end.
  destruct K as (K1' & K2' & K3' & K4'). simpl in *. done.
Qed.

(** ** Make followed by unmake *)

(** Whenever [makemove] has a result, [unmakemove] on it gives back the
    twelve bitboards, the mailbox, the side to move, the en-passant square,
    the castling rights, the halfmove clock and the hash key of the
    position before the move (and the stack of saved states). *)
Lemma makemove_unmakemove (b : Board) (m : Move) (b1 : Board) :
  makemove b m = Some b1 ->
  exists b2, unmakemove b1 = Some b2 /\
    PiecesBB b2 = PiecesBB b /\ board b2 = board b /\
    sideToMove b2 = sideToMove b /\ enpassantSquare b2 = enpassantSquare b /\
    castlingRights b2 = castlingRights b /\
    halfMoveClock b2 = halfMoveClock b /\ hashKey b2 = hashKey b /\
    storeInfo b2 = storeInfo b.
Proof.
  intros H. apply makemove_saved in H as (Hst & Hh & Hc & _).
  unfold unmakemove. rewrite Hst. eexists. split; [reflexivity|].
  simpl. auto 10.
Qed.

(** The worked boards are what the parser returns on their FEN. *)
Lemma fen_board_worked :
  fen_board defaultFEN = Some pos_start /\ fen_board fen_kings = Some pos_kings /\
  fen_board fen_rooks = Some pos_rooks /\ fen_board fen_two_rooks = Some pos_two_rooks /\
  fen_board fen_ep_check = Some pos_ep_check /\ fen_board fen_ep_pinned = Some pos_ep_pinned /\
  fen_board fen_ep_free = Some pos_ep_free.
Proof. vm_compute. repeat split. Qed.

(** ** Castling rights in [makemove] *)

Lemma rights_within_refl b : rights_within b b.
Proof. apply Z.land_diag. Qed.

Lemma rights_within_trans b1 b2 b3 :
  rights_within b1 b2 -> rights_within b2 b3 -> rights_within b1 b3.
Proof.
  unfold rights_within. intros H12 H23.
  rewrite <- H23 at 1. rewrite <- Z.land_assoc, H12. exact H23.
Qed.

Lemma clear_right_within r b : rights_within b (clear_right r b).
Proof.
  unfold rights_within, clear_right. simpl.
  rewrite <- Z.land_assoc, (Z.land_comm (Z.lnot r)), Z.land_assoc, Z.land_diag. reflexivity.
Qed.

Lemma removePiece_rights p sq b b' :
  removePiece p sq b = Some b' -> castlingRights b' = castlingRights b.
Proof. unfold removePiece. case_match; intros [= <-]; done. Qed.

Lemma placePiece_rights p sq b b' :
  placePiece p sq b = Some b' -> castlingRights b' = castlingRights b.
Proof. unfold placePiece. case_match; intros [= <-]; done. Qed.

Lemma rights_within_eq b b' : castlingRights b' = castlingRights b -> rights_within b b'.
Proof. unfold rights_within. intros ->. apply Z.land_diag. Qed.

Create HintDb rights.
Local Hint Resolve rights_within_refl clear_right_within : rights.

Ltac rights_steps :=
  repeat match goal with
  | H : removePiece _ _ _ = Some _ |- _ => apply removePiece_rights, rights_within_eq in H
  | H : placePiece _ _ _ = Some _ |- _ => apply placePiece_rights, rights_within_eq in H
  end.

Lemma mm_castle_rights m stm b b' : mm_castle m stm b = Some b' -> rights_within b b'.
Proof.
  unfold mm_castle. intros H.
  opt_steps; rights_steps;
    eauto 8 using rights_within_trans with rights.
Qed.

Lemma mm_king_rights_within m stm b : rights_within b (mm_king_rights m stm b).
Proof.
  unfold mm_king_rights. repeat case_match; eauto 8 using rights_within_trans with rights.
Qed.

Lemma mm_rook_move_rights m b : rights_within b (mm_rook_move m b).
Proof. unfold mm_rook_move. repeat case_match; auto with rights. Qed.

Lemma mm_rook_capture_rights m stm b : rights_within b (mm_rook_capture m stm b).
Proof. unfold mm_rook_capture. repeat case_match; auto with rights. Qed.

Lemma mm_enpassant_rights m stm b b' : mm_enpassant m stm b = Some b' -> rights_within b b'.
Proof.
  unfold mm_enpassant. intros H; opt_steps; rights_steps;
    auto with rights.
Qed.

Lemma mm_update_ep_rights m stm b : rights_within b (mm_update_ep m stm b).
Proof. unfold mm_update_ep. repeat case_match; apply rights_within_eq; done. Qed.

Lemma mm_pieces_rights m b b' : mm_pieces m b = Some b' -> rights_within b b'.
Proof.
  unfold mm_pieces. intros H.
  opt_steps; rights_steps;
    eauto 8 using rights_within_trans with rights.
Qed.

(** The first half of C4 holds: [makemove] only ever clears castling rights. *)
Lemma makemove_rights_within b m b1 : makemove b m = Some b1 -> rights_within b b1.
Proof.
  unfold makemove. intros H. opt_steps.
  repeat match goal with
  | H : mm_castle _ _ _ = Some _ |- _ => apply mm_castle_rights in H
  | H : mm_enpassant _ _ _ = Some _ |- _ => apply mm_enpassant_rights in H
  | H : mm_pieces _ _ = Some _ |- _ => apply mm_pieces_rights in H
  end.
  match goal with
  | Hc : rights_within _ ?x, Hp : rights_within (mm_update_ep _ _ _) ?y |- _ =>
      apply rights_within_trans with (b2 := y); [|apply rights_within_eq; done];
      eapply rights_within_trans; [|exact Hp];
      eapply rights_within_trans; [|apply mm_update_ep_rights];
      eapply rights_within_trans; [|eassumption];
      eapply rights_within_trans; [|apply mm_rook_capture_rights];
      eapply rights_within_trans; [|apply mm_rook_move_rights];
      eapply rights_within_trans; [|apply mm_king_rights_within];
      exact Hc
  end.
Qed.

(** Evaluation of a closed goal, the existential parts found by running
    the code. *)
Ltac run := vm_compute; reflexivity.

(** C4, at the failing input.  White's rook takes the rook on h8 while Black
    holds the kingside right: the move is in the generated list, it is a
    capture of the rook standing on h8, and after [makemove] the right
    [blackKingSideCastling] is still set. *)
Theorem rook_taken_on_h8_keeps_right :
  exists ml b0 b1,
    generateLegalMoves pos_rooks = Some (ml, b0) /\
    In move_h1h8 (moveList ml) /\
    capture move_h1h8 = true /\
    Z.testbit (Rooks pos_rooks Black) SQ_H8 = true /\
    Z.land (castlingRights pos_rooks) blackKingSideCastling = blackKingSideCastling /\
    makemove b0 move_h1h8 = Some b1 /\
    Z.land (castlingRights b1) blackKingSideCastling = blackKingSideCastling.
Proof.
  eexists _, _, _.
  split; [run|]. split; [vm_compute; tauto|].
  do 3 (split; [run|]). split; run.
Qed.

(** ** Loops over a bitboard *)

Lemma pop_loop_S {St : Type} k bb (body : Square -> St -> St) s :
  pop_loop (S k) bb body s
  = if nz bb then pop_loop k (poplsb_rest bb) body (body (bsf bb) s) else s.
Proof. reflexivity. Qed.

Lemma pop_loopM_S {St : Type} k bb (body : Square -> St -> option St) s :
  pop_loopM (S k) bb body s
  = if nz bb then
      match body (bsf bb) s with
      | Some s' => pop_loopM k (poplsb_rest bb) body s'
      | None => None
      end
    else Some s.
Proof. reflexivity. Qed.

Lemma pop_loop_inv {St : Type} (P : St -> Prop) fuel bb (body : Square -> St -> St) s :
  (forall sq s, P s -> P (body sq s)) -> P s -> P (pop_loop fuel bb body s).
Proof.
  intros Hbody. revert bb s.
  induction fuel as [|k IH]; intros bb s Hs; [done|].
  rewrite pop_loop_S. destruct (nz bb); [|done]. apply IH, Hbody, Hs.
Qed.

Lemma pop_loopM_inv {St : Type} (P : St -> Prop) fuel bb (body : Square -> St -> option St) s s' :
  (forall sq s s', P s -> body sq s = Some s' -> P s') ->
  P s -> pop_loopM fuel bb body s = Some s' -> P s'.
Proof.
  intros Hbody. revert bb s.
  induction fuel as [|k IH]; intros bb s Hs; [by intros [= <-]|].
  rewrite pop_loopM_S. destruct (nz bb); [|by intros [= <-]].
  destruct (body (bsf bb) s) as [s1|] eqn:E; [|done].
  apply IH. eapply Hbody; eauto.
Qed.

(** ** The move list *)

Lemma Moves_init_ok : moves_ok Moves_init.
Proof. split; [reflexivity|]. simpl. lia. Qed.

Lemma Add_ok ml m : moves_ok ml -> moves_ok (Add ml m).
Proof.
  intros [Hl Hc]. split; simpl.
  - by rewrite length_insert.
  - apply Z.mod_pos_bound. lia.
Qed.

Lemma emit_pawn_ok b src mv ml : moves_ok ml -> moves_ok (emit_pawn b src mv ml).
Proof.
  intros H. unfold emit_pawn. apply pop_loop_inv; [|done].
  intros sq s Hs. repeat case_match; auto using Add_ok.
Qed.

Lemma emit_piece_ok b t src mv ml : moves_ok ml -> moves_ok (emit_piece b t src mv ml).
Proof.
  intros H. unfold emit_piece. apply pop_loop_inv; [|done].
  intros sq s Hs. auto using Add_ok.
Qed.

Lemma emit_king_ok b src mv ml : moves_ok ml -> moves_ok (emit_king b src mv ml).
Proof.
  intros H. unfold emit_king. apply pop_loop_inv; [|done].
  intros sq s Hs. repeat case_match; auto using Add_ok.
Qed.

Lemma gen_pawns_ok mask b ml ml' b' :
  moves_ok ml -> gen_pawns mask b ml = Some (ml', b') -> moves_ok ml'.
Proof.
  intros Hml H. unfold gen_pawns in H.
  eapply (pop_loopM_inv (fun s => moves_ok s.1)) in H; [exact H| |exact Hml].
  intros sq [m0 c0] [m1 c1] Hs Hb. simpl in Hs. simpl.
  apply bind_Some in Hb as ([pm pb] & _ & Hb). injection Hb as <- <-.
  by apply emit_pawn_ok.
Qed.

Lemma gen_officers_ok n bi r q b ml : moves_ok ml -> moves_ok (gen_officers n bi r q b ml).
Proof.
  intros Hml. unfold gen_officers.
  repeat (apply pop_loop_inv; [intros; by apply emit_piece_ok|]). exact Hml.
Qed.

Lemma gen_king_ok k b ml : moves_ok ml -> moves_ok (gen_king k b ml).1.
Proof.
  intros Hml. unfold gen_king. destruct (LegalKingMoves _ _ _) as [mv b2]. simpl.
  by apply emit_king_ok.
Qed.

Lemma generateLegalMoves_ok b ml b' : generateLegalMoves b = Some (ml, b') -> moves_ok ml.
Proof.
  unfold generateLegalMoves. intros H.
  apply bind_Some in H as ([ml1 b1] & H1 & H).
  assert (Hml : moves_ok ml1).
  { destruct (doubleCheck _ <? 2); [|injection H1 as <- <-; apply Moves_init_ok].
    apply bind_Some in H1 as ([ml0 b0] & H0 & H1). injection H1 as <- <-.
    eapply gen_officers_ok, gen_pawns_ok, H0. apply Moves_init_ok. }
  apply (inj Some) in H. change ml with (ml, b').1. rewrite <- H. by apply gen_king_ok.
Qed.

(** The caller sees an empty list exactly when the count is 0. *)
Lemma moveList_nil ml : moves_ok ml -> moveList ml = [] <-> count ml = 0.
Proof.
  intros [Hl Hc]. unfold moveList. split.
  - intros H. apply (f_equal length) in H. rewrite length_take in H. simpl in H. lia.
  - intros ->. reflexivity.
Qed.

(** ** The parser *)

Section Parser.

Variable RANDOM_ARRAY : Z -> Z.
Variable hash_piece : Piece -> Z.
Variable castlingKey : Z -> Z.

Notation hash := (hash RANDOM_ARRAY hash_piece castlingKey).
Notation parseFEN := (parseFEN RANDOM_ARRAY hash_piece castlingKey).

Lemma load_pieces_saved pieces square b b' :
  load_pieces pieces square b = Some b' -> same_saved b b'.
Proof.
  revert square b. induction pieces as [|ch rest IH]; intros square b; simpl.
  - intros [= <-]. apply same_saved_refl.
  - destruct (charToPiece ch).
    + intros H. apply bind_Some in H as (b1 & H1 & H).
      eapply same_saved_trans; [eapply placePiece_saved, H1|eapply IH, H].
    + repeat case_match; apply IH.
Qed.

Lemma load_castling_saved castling b : same_saved b (load_castling castling b).
Proof.
  revert b. induction castling as [|ch rest IH]; intros b; simpl; [apply same_saved_refl|].
  eapply same_saved_trans; [|apply IH]. repeat case_match; done.
Qed.

(** [hash] reads every field but the key, and writes only the key. *)
Lemma hash_set_hashKey k b : hash (set_hashKey k b) = hash b.
Proof. reflexivity. Qed.

Lemma hash_idem b : hash (hash b) = hash b.
Proof. unfold hash at 2. apply hash_set_hashKey. Qed.

Lemma parseFEN_hashed b FEN b' : parseFEN b FEN = Some b' -> exists b0, b' = hash b0.
Proof.
  unfold parseFEN. intros H.
  destruct (match split_tokens FEN _ _ with [] => _ | _ => _ end) as [[[pieces color] castling] ep].
  apply bind_Some in H as (b1 & _ & H).
  apply bind_Some in H as (b2 & _ & H).
  injection H as <-. eauto.
Qed.

(** C9, as the code has it.  Whatever the FEN holds in its fifth and sixth
    fields, a parse that returns leaves the halfmove clock at 0 and the
    fullmove counter at 1. *)
Theorem parseFEN_counters (b : Board) (FEN : string) (b' : Board) :
  parseFEN b FEN = Some b' -> halfMoveClock b' = 0 /\ fullMoveCounter b' = 1.
Proof.
  unfold parseFEN. intros H.
  destruct (match split_tokens FEN _ _ with [] => _ | _ => _ end) as [[[pieces color] castling] ep].
  apply bind_Some in H as (b1 & H1 & H).
  apply bind_Some in H as (b2 & H2 & H).
  injection H as <-.
  apply load_pieces_saved in H1 as (_ & _ & Hh1 & Hf1). simpl in Hh1, Hf1.
  pose proof (load_castling_saved castling b2) as (_ & _ & Hh3 & Hf3).
  assert (halfMoveClock b2 = halfMoveClock b1 /\ fullMoveCounter b2 = fullMoveCounter b1)
    as [Hh2 Hf2].
  { destruct (negb _); [|by injection H2 as <-].
    destruct ep as [|f [|r rest]]; [done| |]; by injection H2 as <-. }
  simpl. rewrite Hh3, Hf3, Hh2, Hf2, Hh1, Hf1. done.
Qed.

(** C6, as the code has it.  The key stored by a parse is the hash
    recomputed from the parsed position; a move made on it leaves the
    stored key as it was, the key of the position before the move. *)
Theorem hash_after_parse_and_make (b0 : Board) (FEN : string) (b : Board) (m : Move)
    (b1 : Board) :
  parseFEN b0 FEN = Some b -> makemove b m = Some b1 ->
  hashKey b = hashKey (hash b) /\ hashKey b1 = hashKey b.
Proof.
  intros Hp Hm. split.
  - apply parseFEN_hashed in Hp as (bh & ->). by rewrite hash_idem.
  - by apply makemove_saved in Hm as (_ & ? & _).
Qed.

End Parser.

Lemma parseFEN_counters_witness :
  halfMoveClock pos_start = 0 /\ fullMoveCounter pos_start = 1.
Proof.
  apply (parseFEN_counters sample_RANDOM_ARRAY sample_hash_piece sample_castlingKey
           Board_blank defaultFEN).
  vm_compute. reflexivity.
Defined.

(** C9, the counterexample.  The fifth and sixth fields read 5 and 10; the
    parsed position holds 0 and 1. *)
Lemma parseFEN_drops_counters :
  split_tokens fen_counters EmptyString []
  = ["4k3/8/8/8/8/8/8/4K3"; "w"; "-"; "-"; "5"; "10"]%string /\
  exists b, fen_board fen_counters = Some b /\ halfMoveClock b = 0 /\ fullMoveCounter b = 1.
Proof. split; [run|]. eexists. split; [run|]. split; run. Qed.

Lemma hash_after_parse_and_make_witness :
  hashKey pos_start = hashKey (sample_hash pos_start) /\
  hashKey pos_after_e2e4 = hashKey pos_start.
Proof.
  apply (hash_after_parse_and_make sample_RANDOM_ARRAY sample_hash_piece sample_castlingKey
           Board_blank defaultFEN pos_start move_e2e4 pos_after_e2e4);
    vm_compute; reflexivity.
Defined.

(** C6, the counterexample.  After e2e4 from the start position the stored
    key is still the key of the start position, and the hash recomputed on
    the new position differs from it. *)
Lemma makemove_leaves_hash_stale :
  hashKey pos_start = hashKey (sample_hash pos_start) /\
  exists b1, makemove pos_start move_e2e4 = Some b1 /\
    hashKey b1 = hashKey pos_start /\
    hashKey b1 <> hashKey (sample_hash b1).
Proof. split; [run|]. eexists. split; [run|]. split; [run|]. vm_compute. discriminate. Qed.

(** ** Bits of the 64-bit operations *)

Lemma testbit_wrap64 x i : Z.testbit (wrap64 x) i = (i <? 64) && Z.testbit x i.
Proof. unfold wrap64, U64. apply Z.testbit_mod_pow2. lia. Qed.

Lemma u64_wrap64 x : u64 (wrap64 x).
Proof. unfold u64, wrap64, U64. apply Z.mod_pos_bound. lia. Qed.

Lemma u64_high x i : u64 x -> 64 <= i -> Z.testbit x i = false.
Proof.
  intros [H0 H1] Hi. unfold U64 in H1.
  rewrite <- (Z.mod_small x (2 ^ 64)) by lia.
  apply Z.mod_pow2_bits_high. lia.
Qed.

Lemma u64_testbit x i : u64 x -> Z.testbit x i = true -> 0 <= i < 64.
Proof.
  intros Hx Hi. destruct (Z.ltb_spec i 0) as [Hn|Hn].
  - rewrite Z.testbit_neg_r in Hi by lia. done.
  - destruct (Z.ltb_spec i 64) as [Hm|Hm]; [lia|].
    rewrite (u64_high x i Hx Hm) in Hi. done.
Qed.

Lemma u64_of_bits z : 0 <= z -> (forall i, 64 <= i -> Z.testbit z i = false) -> u64 z.
Proof.
  intros Hz H. replace z with (wrap64 z); [apply u64_wrap64|].
  apply Z.bits_inj'. intros i Hi. rewrite testbit_wrap64.
  destruct (Z.ltb_spec i 64); [done|]. by rewrite H.
Qed.

Lemma u64_land x y : u64 x -> u64 (Z.land x y).
Proof.
  intros Hx. apply u64_of_bits.
  - apply Z.land_nonneg. left. apply Hx.
  - intros i Hi. by rewrite Z.land_spec, (u64_high x i).
Qed.

Lemma u64_lor x y : u64 x -> u64 y -> u64 (Z.lor x y).
Proof.
  intros Hx Hy. apply u64_of_bits.
  - apply Z.lor_nonneg. split; [apply Hx|apply Hy].
  - intros i Hi. by rewrite Z.lor_spec, (u64_high x i), (u64_high y i).
Qed.

Lemma u64_eq x y : u64 x -> u64 y ->
  (forall i, 0 <= i < 64 -> Z.testbit x i = Z.testbit y i) -> x = y.
Proof.
  intros Hx Hy H. apply Z.bits_inj'. intros i Hi.
  destruct (Z.ltb_spec i 64); [apply H; lia|].
  rewrite !u64_high; done.
Qed.

Lemma u64_zero x : u64 x -> (forall i, 0 <= i < 64 -> Z.testbit x i = false) -> x = 0.
Proof.
  intros Hx H. apply u64_eq; [done|unfold u64, U64; lia|].
  intros i Hi. rewrite Z.bits_0. by apply H.
Qed.

Lemma shl64_in_range a n : 0 <= n < 64 -> shl64 a n = wrap64 (Z.shiftl a n).
Proof. intros H. unfold shl64. by rewrite Z.mod_small. Qed.

Lemma bit_pow2 sq : 0 <= sq < 64 -> bit sq = 2 ^ sq.
Proof.
  intros H. unfold bit. rewrite shl64_in_range by done. unfold wrap64, U64.
  rewrite Z.shiftl_1_l.
  apply Z.mod_small. split; [apply Z.pow_nonneg; lia|apply Z.pow_lt_mono_r; lia].
Qed.

Lemma testbit_bit sq i : 0 <= sq < 64 -> Z.testbit (bit sq) i = (i =? sq) && (i <? 64).
Proof.
  intros H. unfold bit. rewrite shl64_in_range by done.
  rewrite testbit_wrap64, Z.shiftl_1_l, Z.pow2_bits_eqb by lia.
  rewrite Z.eqb_sym. apply andb_comm.
Qed.

(** The count of the shift is taken modulo 64. *)
Lemma bit_mod sq : bit sq = bit (sq mod 64).
Proof. unfold bit, shl64. by rewrite Z.mod_mod. Qed.

Lemma u64_bit sq : u64 (bit sq).
Proof. apply u64_wrap64. Qed.

Lemma testbit_not64 x i : 0 <= i -> Z.testbit (not64 x) i = (i <? 64) && negb (Z.testbit x i).
Proof. intros H. unfold not64. by rewrite testbit_wrap64, Z.lnot_spec. Qed.

(** [x &= ~bit; x |= bit] gives [x] back when the bit was set. *)
Lemma clear_set x s :
  u64 x -> Z.testbit x s = true -> Z.lor (Z.land x (not64 (bit s))) (bit s) = x.
Proof.
  intros Hx Hs. pose proof (u64_testbit x s Hx Hs) as Hr.
  apply Z.bits_inj'. intros i Hi.
  rewrite Z.lor_spec, Z.land_spec, testbit_not64, testbit_bit by lia.
  destruct (Z.eqb_spec i s) as [->|].
  - rewrite Hs. destruct (s <? 64) eqn:E; [done|lia].
  - destruct (Z.ltb_spec i 64); simpl.
    + by rewrite andb_true_r, orb_false_r.
    + rewrite (u64_high x i) by done. done.
Qed.

(** [x |= bit; x &= ~bit] gives [x] back when the bit was clear. *)
Lemma set_clear x e :
  u64 x -> 0 <= e < 64 -> Z.testbit x e = false ->
  Z.land (Z.lor x (bit e)) (not64 (bit e)) = x.
Proof.
  intros Hx He Hb. apply Z.bits_inj'. intros i Hi.
  rewrite Z.land_spec, Z.lor_spec, testbit_not64, testbit_bit by lia.
  destruct (Z.eqb_spec i e) as [->|].
  - rewrite Hb. destruct (e <? 64); done.
  - destruct (Z.ltb_spec i 64); simpl.
    + by rewrite orb_false_r, andb_true_r.
    + rewrite (u64_high x i) by done. done.
Qed.

(** ** Facts checked on every square *)

Lemma squares_In sq : 0 <= sq < 64 -> In sq squares.
Proof.
  intros H. unfold squares. apply in_map_iff. exists (Z.to_nat sq).
  split; [lia|]. apply in_seq. lia.
Qed.

Lemma squares_forall (P : Square -> bool) :
  forallb P squares = true -> forall sq, 0 <= sq < 64 -> P sq = true.
Proof. intros H sq Hsq. eapply forallb_forall in H; [exact H|]. by apply squares_In. Qed.

Lemma squares_forall2 (P : Square -> Square -> bool) :
  forallb (fun a => forallb (P a) squares) squares = true ->
  forall a c, 0 <= a < 64 -> 0 <= c < 64 -> P a c = true.
Proof.
  intros H a c Ha Hc.
  apply (squares_forall (P a)); [|done].
  by apply (squares_forall (fun a => forallb (P a) squares)).
Qed.

Lemma SQUARE_BB_bit sq : 0 <= sq < 64 -> rd SQUARE_BB sq = bit sq.
Proof.
  intros H. apply Z.eqb_eq.
  apply (squares_forall (fun sq => rd SQUARE_BB sq =? bit sq)); [run|done].
Qed.

Lemma SQUARE_BB_out sq : ~ 0 <= sq < 64 -> rd SQUARE_BB sq = 0.
Proof.
  intros H. unfold rd. destruct (Z.ltb_spec sq 0); [done|].
  rewrite lookup_ge_None_2; [done|]. change (length SQUARE_BB) with 64%nat. lia.
Qed.

Lemma u64_PAWN_ATTACKS c sq : u64 (GetPawnAttacks sq c).
Proof.
  unfold GetPawnAttacks, rd. destruct (Z.ltb_spec sq 0); [unfold u64, U64; simpl; lia|].
  destruct (PAWN_ATTACKS_TABLE c !! Z.to_nat sq) as [x|] eqn:E; [|unfold u64, U64; simpl; lia].
  simpl. apply list_elem_of_lookup_2 in E.
  assert (Forall u64 (PAWN_ATTACKS_TABLE c)) as HF.
  { destruct c; simpl; repeat constructor; unfold U64; lia. }
  rewrite Forall_forall in HF. by apply HF.
Qed.

(** ** The arrays of a board *)

Lemma list_12 {A} (l : list A) :
  length l = 12%nat ->
  exists x0 x1 x2 x3 x4 x5 x6 x7 x8 x9 x10 x11,
    l = [x0; x1; x2; x3; x4; x5; x6; x7; x8; x9; x10; x11].
Proof.
  intros H. do 12 (destruct l as [|? l]; [done|]). destruct l; [|done].
  by eexists _, _, _, _, _, _, _, _, _, _, _, _.
Qed.

Lemma getPiece_lookup b sq :
  length (board b) = 64%nat -> 0 <= sq < 64 ->
  board b !! Z.to_nat sq = Some (getPiece b sq).
Proof.
  intros Hl Hsq. unfold getPiece. destruct (Z.ltb_spec sq 0); [lia|].
  destruct (board b !! Z.to_nat sq) eqn:E; [done|].
  apply lookup_ge_None_1 in E. lia.
Qed.

(** Writing a piece on an empty square of the mailbox and clearing the
    square again leaves the mailbox as it was. *)
Lemma board_place_remove b sq p :
  length (board b) = 64%nat -> 0 <= sq < 64 -> getPiece b sq = NoPiece ->
  <[Z.to_nat sq := NoPiece]> (<[Z.to_nat sq := p]> (board b)) = board b.
Proof.
  intros Hl Hsq Hp. rewrite list_insert_insert_eq. apply list_insert_id.
  rewrite <- Hp. by apply getPiece_lookup.
Qed.

Lemma Board_eta b :
  mkBoard (PiecesBB b) (board b) (sideToMove b) (enpassantSquare b) (castlingRights b)
    (storeInfo b) (checkMask b) (pinMaskHV b) (pinMaskD b) (doubleCheck b)
    (halfMoveClock b) (fullMoveCounter b) (hashKey b) = b.
Proof. by destruct b. Qed.

Lemma Board_ext b b' :
  PiecesBB b' = PiecesBB b -> board b' = board b -> sideToMove b' = sideToMove b ->
  enpassantSquare b' = enpassantSquare b -> castlingRights b' = castlingRights b ->
  storeInfo b' = storeInfo b -> checkMask b' = checkMask b ->
  pinMaskHV b' = pinMaskHV b -> pinMaskD b' = pinMaskD b ->
  doubleCheck b' = doubleCheck b -> halfMoveClock b' = halfMoveClock b ->
  fullMoveCounter b' = fullMoveCounter b -> hashKey b' = hashKey b -> b' = b.
Proof. destruct b, b'. simpl. intros. by subst. Qed.

Lemma wf_arrays_u64 b i : wf_arrays b -> u64 (bbAt b i).
Proof.
  intros (_ & _ & HF). unfold bbAt, rd.
  destruct (i <? 0); [unfold u64, U64; simpl; lia|].
  destruct (_ !! Z.to_nat i) as [x|] eqn:E; [|unfold u64, U64; simpl; lia].
  simpl. rewrite Forall_forall in HF. apply HF. eapply list_elem_of_lookup_2, E.
Qed.

Lemma u64_allPieces b c : wf_arrays b -> u64 (allPieces b c).
Proof.
  intros H. unfold allPieces, Pawns, Knights, Bishops, Rooks, Queens, Kings.
  repeat apply u64_lor; by apply wf_arrays_u64.
Qed.

(** A square of a piece bitboard is a square of the pieces of its colour. *)
Lemma Pawns_allPieces b c i : Z.testbit (Pawns b c) i = true -> Z.testbit (allPieces b c) i = true.
Proof. intros H. unfold allPieces. rewrite !Z.lor_spec, H. done. Qed.

Lemma occupied_false b c i : occupied b i = false -> Z.testbit (allPieces b c) i = false.
Proof.
  unfold occupied. rewrite Z.lor_spec. intros H. apply orb_false_elim in H as [H1 H2].
  by destruct c.
Qed.

Local Opaque bit not64.

(** ** The en-passant test puts the board back *)

(** The edits of the test, from the first [&=] to the last [|=]: the board
    the attack query sees is [ep_test_board], and the board left at the end
    is the board at the start. *)
Lemma ep_test_edits b c sq :
  let ep := enpassantSquare b in
  let own := pt_idx Pawn + 6 * color_idx c in
  let their := pt_idx Pawn + 6 * color_idx (opp c) in
  wf_arrays b -> 0 <= ep < 64 ->
  getPiece b ep = NoPiece -> Z.testbit (Pawns b c) ep = false ->
  Z.testbit (Pawns b c) sq = true ->
  Z.testbit (Pawns b (opp c)) (ep + ep_offset c) = true ->
  let b2 := setBB their (Z.land (bbAt (setBB own (Z.land (bbAt b own) (not64 (bit sq))) b) their)
                                (not64 (bit (ep + ep_offset c))))
              (setBB own (Z.land (bbAt b own) (not64 (bit sq))) b) in
  placePiece (makePiece Pawn c) ep b2 = Some (ep_test_board b c sq) /\
  exists b4, removePiece (makePiece Pawn c) ep (ep_test_board b c sq) = Some b4 /\
    setBB their (Z.lor (bbAt (setBB own (Z.lor (bbAt b4 own) (bit sq)) b4) their)
                       (bit (ep + ep_offset c)))
      (setBB own (Z.lor (bbAt b4 own) (bit sq)) b4) = b.
Proof.
  intros ep own their Hwf Hep Hempty Hfree Hsq Hcap.
  pose proof (wf_arrays_u64 b 0 Hwf) as Hx0.
  pose proof (wf_arrays_u64 b 6 Hwf) as Hx6.
  destruct Hwf as (H12 & H64 & HF).
  pose proof (board_place_remove b ep (makePiece Pawn c) H64 Hep Hempty) as Hbrd.
  destruct (list_12 _ H12) as (x0 & x1 & x2 & x3 & x4 & x5 & x6 & x7 & x8 & x9 & x10 & x11 & HP).
  assert (bbAt b 0 = x0 /\ bbAt b 6 = x6) as [E0 E6] by (unfold bbAt; by rewrite HP).
  rewrite E0 in Hx0. rewrite E6 in Hx6.
  unfold Pawns in *.
  assert ((0 <=? ep) && (ep <? 64) = true) as Hr by lia.
  unfold placePiece, removePiece, ep_test_board, setBB, makePiece. fold ep.
  rewrite !(SQUARE_BB_bit ep Hep).
  destruct c; simpl in Hfree, Hsq, Hcap;
    change (0 * 6) with 0 in Hfree, Hsq, Hcap; change (1 * 6) with 6 in Hfree, Hsq, Hcap;
    unfold bbAt, rd; simpl; rewrite HP; simpl;
    rewrite Hr; simpl;
    (split; [reflexivity|]); eexists; (split; [reflexivity|]);
    apply Board_ext; simpl; try reflexivity; try exact Hbrd;
    rewrite HP.
  - rewrite E0 in Hfree, Hsq. rewrite E6 in Hcap.
    rewrite (set_clear (Z.land x0 _)); [|by apply u64_land|lia|by rewrite Z.land_spec, Hfree].
    by rewrite !clear_set.
  - rewrite E6 in Hfree, Hsq. rewrite E0 in Hcap.
    rewrite (set_clear (Z.land x6 _)); [|by apply u64_land|lia|by rewrite Z.land_spec, Hfree].
    by rewrite !clear_set.
Qed.

Lemma bind_some {A B} (x : A) (f : A -> option B) : Some x ≫= f = f x.
Proof. reflexivity. Qed.

(** The test as a whole: the capture joins the moves exactly when the king
    is not attacked in [ep_test_board], and the board comes back. *)
Lemma ep_test_spec b c sq moves :
  let ep := enpassantSquare b in
  wf_arrays b -> 0 <= ep < 64 ->
  getPiece b ep = NoPiece -> Z.testbit (Pawns b c) ep = false ->
  Z.testbit (Pawns b c) sq = true ->
  Z.testbit (Pawns b (opp c)) (ep + ep_offset c) = true ->
  ep_test b c sq moves
  = Some (if negb (ep_exposes_king b c sq) then Z.lor moves (bit ep) else moves, b).
Proof.
  intros ep Hwf Hep Hempty Hfree Hsq Hcap.
  destruct (ep_test_edits b c sq Hwf Hep Hempty Hfree Hsq Hcap) as (Hp & b4 & Hr & Hfin).
  unfold ep_test, ep_exposes_king. subst ep. cbv zeta in Hp, Hfin |- *.
  rewrite Hp, bind_some. cbv beta zeta. rewrite Hr, bind_some. cbv beta zeta.
  rewrite Hfin. reflexivity.
Qed.

(** ** Pawn geometry, checked on the tables *)

(** A square a pawn attacks is next to the pawn and is none of its push
    squares. *)
Lemma pawn_attack_geometry c sq e :
  0 <= sq < 64 -> Z.testbit (GetPawnAttacks sq c) e = true ->
  0 <= e < 64 /\ squareDistance sq e = 1 /\
  e <> sq + 8 /\ e <> sq + 16 /\ e <> sq - 8 /\ e <> sq - 16.
Proof.
  intros Hsq He.
  pose proof (u64_testbit _ _ (u64_PAWN_ATTACKS c sq) He) as Hr.
  split; [done|].
  assert (forallb (fun a => forallb (fun x =>
            implb (Z.testbit (GetPawnAttacks a c) x)
              ((squareDistance a x =? 1) && negb (x =? a + 8) && negb (x =? a + 16)
               && negb (x =? a - 8) && negb (x =? a - 16))) squares) squares = true) as H
    by (destruct c; run).
  pose proof (squares_forall2 _ H sq e Hsq Hr) as H1. simpl in H1. rewrite He in H1.
  simpl in H1. lia.
Qed.

Lemma testbit_SQUARE_BB k i : Z.testbit (rd SQUARE_BB k) i = true -> i = k.
Proof.
  destruct (Z.le_gt_cases 0 k) as [H0|H0]; [destruct (Z.lt_ge_cases k 64) as [H1|H1]|].
  - rewrite SQUARE_BB_bit, testbit_bit by lia. lia.
  - rewrite SQUARE_BB_out by lia. by rewrite Z.bits_0.
  - rewrite SQUARE_BB_out by lia. by rewrite Z.bits_0.
Qed.

Lemma testbit_shl64 x n i :
  0 <= n < 64 -> 0 <= i -> Z.testbit (shl64 x n) i = (i <? 64) && Z.testbit x (i - n).
Proof.
  intros Hn H. rewrite shl64_in_range by done. by rewrite testbit_wrap64, Z.shiftl_spec.
Qed.

Lemma testbit_shr64 x n i : 0 <= i -> Z.testbit (shr64 x n) i = Z.testbit x (i + n).
Proof. intros H. unfold shr64. by rewrite Z.shiftr_spec. Qed.

(** The pushes of a pawn on [sq] stay on its file: one or two ranks on. *)
Lemma pawn_pushes_squares b c sq i :
  0 <= i ->
  Z.testbit (Z.lor (pawn_pushes b c sq).1 (pawn_pushes b c sq).2) i = true ->
  i = sq + 8 \/ i = sq + 16 \/ i = sq - 8 \/ i = sq - 16.
Proof.
  intros Hi. unfold pawn_pushes, GetPawnPush.
  destruct c; destruct (rank_of sq =? _); simpl;
    rewrite ?Z.lor_spec, ?Z.land_spec, ?testbit_shl64, ?testbit_shr64, ?Z.land_spec by done;
    intros H;
    repeat match goal with
    | H : _ || _ = true |- _ => apply orb_true_iff in H as [H|H]
    | H : _ && _ = true |- _ => apply andb_true_iff in H as [H ?]
    | H : Z.testbit (rd SQUARE_BB _) _ = true |- _ => apply testbit_SQUARE_BB in H
    | H : Z.testbit 0 _ = true |- _ => by rewrite Z.bits_0 in H
    end; try lia; try done.
Qed.

Lemma nz_true x : nz x = true <-> x <> 0.
Proof. unfold nz. destruct (Z.eqb_spec x 0); simpl; split; try done. Qed.

Lemma nz_false x : nz x = false <-> x = 0.
Proof. unfold nz. destruct (Z.eqb_spec x 0); simpl; split; try done. Qed.

Lemma nz_land_bit x sq : 0 <= sq < 64 -> nz (Z.land x (bit sq)) = Z.testbit x sq.
Proof.
  intros H. destruct (Z.testbit x sq) eqn:E.
  - apply nz_true. intros H0. apply (f_equal (fun z => Z.testbit z sq)) in H0.
    rewrite Z.land_spec, E, testbit_bit, Z.bits_0 in H0 by lia.
    destruct (Z.eqb_spec sq sq), (Z.ltb_spec sq 64); try done; lia.
  - apply nz_false. apply Z.bits_inj'. intros i Hi.
    rewrite Z.land_spec, testbit_bit, Z.bits_0 by lia.
    destruct (Z.eqb_spec i sq) as [->|]; [by rewrite E|]. apply andb_false_r.
Qed.

(** A pawn does not attack the square that an en-passant square outside
    the board stands for in a shift: with [squareDistance] 1 the
    en-passant square that a pawn attacks is one of the 64. *)
Lemma ep_attacked_in_range c sq ep :
  0 <= sq < 64 -> squareDistance sq ep = 1 ->
  nz (Z.land (bit ep) (GetPawnAttacks sq c)) = true -> 0 <= ep < 64.
Proof.
  intros Hsq Hd Hnz.
  destruct (Z.le_gt_cases 0 ep) as [H0|H0];
    [destruct (Z.lt_ge_cases ep 64) as [H1|H1]; [done|]|]; exfalso.
  - assert (ep < 72) as H2.
    { unfold squareDistance, rank_of in Hd. rewrite !Z.shiftr_div_pow2 in Hd by lia.
      change (2 ^ 3) with 8 in Hd.
      assert (sq / 8 < 8) by (apply Z.div_lt_upper_bound; lia).
      destruct (Z.lt_ge_cases ep 72) as [|H72]; [done|].
      assert (9 <= ep / 8) by (apply Z.div_le_lower_bound; lia). lia. }
    assert (forallb (fun e => forallb (fun s =>
              if squareDistance s e =? 1
              then negb (nz (Z.land (bit e) (GetPawnAttacks s c))) else true) squares)
              [64; 65; 66; 67; 68; 69; 70; 71] = true) as Hall
      by (destruct c; vm_compute; reflexivity).
    rewrite forallb_forall in Hall.
    assert (In ep [64; 65; 66; 67; 68; 69; 70; 71]) as Hin by (simpl; lia).
    pose proof (squares_forall _ (Hall ep Hin) sq Hsq) as E. cbv beta in E.
    by rewrite Hd, Z.eqb_refl, Hnz in E.
  - assert (-8 <= ep) as H2.
    { unfold squareDistance, rank_of in Hd. rewrite !Z.shiftr_div_pow2 in Hd by lia.
      change (2 ^ 3) with 8 in Hd.
      assert (0 <= sq / 8) by (apply Z.div_pos; lia).
      destruct (Z.le_gt_cases (-8) ep) as [|H8]; [done|].
      assert (ep / 8 < -1) by (apply Z.div_lt_upper_bound; lia). lia. }
    assert (forallb (fun e => forallb (fun s =>
              if squareDistance s e =? 1
              then negb (nz (Z.land (bit e) (GetPawnAttacks s c))) else true) squares)
              [-8; -7; -6; -5; -4; -3; -2; -1] = true) as Hall
      by (destruct c; vm_compute; reflexivity).
    rewrite forallb_forall in Hall.
    assert (In ep [-8; -7; -6; -5; -4; -3; -2; -1]) as Hin by (simpl; lia).
    pose proof (squares_forall _ (Hall ep Hin) sq Hsq) as E. cbv beta in E.
    by rewrite Hd, Z.eqb_refl, Hnz in E.
Qed.

(** ** The generator returns the board it was given *)

(** The en-passant square of a consistent position is free of the pawns of
    the side to move and of every enemy piece. *)
Lemma ep_consistent_free b :
  ep_consistent b -> 0 <= enpassantSquare b < 64 ->
  getPiece b (enpassantSquare b) = NoPiece /\
  Z.testbit (Pawns b (sideToMove b)) (enpassantSquare b) = false /\
  Z.testbit (Enemy b (sideToMove b)) (enpassantSquare b) = false /\
  Z.testbit (Pawns b (opp (sideToMove b))) (enpassantSquare b + ep_offset (sideToMove b)) = true.
Proof.
  intros H Hr. destruct (H Hr) as (H1 & H2 & H3). split; [done|]. split; [|split; [|done]].
  - destruct (Z.testbit (Pawns b (sideToMove b)) (enpassantSquare b)) eqn:E; [|done].
    apply Pawns_allPieces in E. by rewrite (occupied_false b (sideToMove b) _ H2) in E.
  - unfold Enemy. destruct (sideToMove b); by apply occupied_false.
Qed.

Lemma LegalPawnMoves_frame b sq :
  wf_arrays b -> ep_consistent b ->
  Z.testbit (Pawns b (sideToMove b)) sq = true ->
  exists mv, LegalPawnMoves b (sideToMove b) sq = Some (mv, b).
Proof.
  intros Hwf Hep Hsq. unfold LegalPawnMoves.
  destruct (doubleCheck b =? 2); [by eexists|].
  destruct (nz (Z.land (pinMaskD b) _)); [by eexists|].
  destruct (pawn_pushes b _ sq) as [push push2].
  destruct (nz (Z.land (pinMaskHV b) _)); [by eexists|].
  cbv zeta.
  destruct (negb (checkMask b =? ALL) && _ && _); [by eexists|].
  destruct (negb (checkMask b =? ALL)); [by eexists|].
  destruct (negb (enpassantSquare b =? NO_SQ) && _ && _) eqn:E; [|by eexists].
  apply andb_true_iff in E as [E0 E]. apply andb_true_iff in E0 as [_ Ed].
  apply Z.eqb_eq in Ed.
  apply (ep_attacked_in_range _ sq) in E;
    [|exact (u64_testbit _ _ (wf_arrays_u64 b _ Hwf) Hsq)|exact Ed].
  destruct (ep_consistent_free b Hep E) as (H1 & H2 & _ & H4).
  rewrite ep_test_spec by done. by eexists.
Qed.

(** X26.  For a pawn of the side to move that attacks
    the en-passant square, with the side not in check and the pawn on
    neither pin mask, in a position whose en-passant square is empty with
    the enemy pawn behind it: [LegalPawnMoves] returns the board unchanged,
    and the capture is in the move set exactly when the king is not
    attacked in the test position. *)
Theorem enpassant_test_when_free (b : Board) (sq : Square) :
  wf_arrays b -> ep_consistent b ->
  0 <= sq < 64 -> Z.testbit (Pawns b (sideToMove b)) sq = true ->
  doubleCheck b <> 2 ->
  Z.testbit (pinMaskD b) sq = false -> Z.testbit (pinMaskHV b) sq = false ->
  checkMask b = ALL ->
  Z.testbit (GetPawnAttacks sq (sideToMove b)) (enpassantSquare b) = true ->
  exists mv, LegalPawnMoves b (sideToMove b) sq = Some (mv, b) /\
    Z.testbit mv (enpassantSquare b)
    = negb (ep_exposes_king b (sideToMove b) sq).
Proof.
  intros Hwf Hep Hsq Hpawn Hdc HpD HpHV Hcm Hatt.
  destruct (pawn_attack_geometry _ _ _ Hsq Hatt) as (Her & Hdist & Hn1 & Hn2 & Hn3 & Hn4).
  destruct (ep_consistent_free b Hep Her) as (H1 & H2 & H3 & H4).
  assert (Z.testbit (Z.lor (pawn_pushes b (sideToMove b) sq).1
                           (pawn_pushes b (sideToMove b) sq).2) (enpassantSquare b) = false)
    as Hpush.
  { match goal with |- ?t = false => destruct t eqn:E; [|done] end.
    apply pawn_pushes_squares in E; lia. }
  unfold LegalPawnMoves.
  destruct (Z.eqb_spec (doubleCheck b) 2); [done|].
  rewrite !nz_land_bit, HpD, HpHV by done.
  destruct (pawn_pushes b _ sq) as [push push2]. simpl in Hpush. cbv zeta.
  rewrite Hcm, Z.eqb_refl. simpl.
  destruct (Z.eqb_spec (enpassantSquare b) NO_SQ) as [E|_]; [unfold NO_SQ in E; lia|].
  rewrite Hdist, Z.eqb_refl, Z.land_comm, nz_land_bit, Hatt by done. simpl.
  rewrite ep_test_spec by done. eexists. split; [reflexivity|].
  assert (Z.testbit (Z.land (Z.lor (Z.lor (Z.land (GetPawnAttacks sq (sideToMove b))
            (Enemy b (sideToMove b))) push) push2) ALL) (enpassantSquare b) = false) as Hm.
  { rewrite Z.land_spec, <- Z.lor_assoc, Z.lor_spec, Hpush, Z.land_spec, H3.
    by rewrite andb_false_r. }
  destruct (negb (ep_exposes_king _ _ _)); [|exact Hm].
  rewrite Z.lor_spec, testbit_bit by lia.
  destruct (Z.eqb_spec (enpassantSquare b) (enpassantSquare b)); [|done].
  destruct (Z.ltb_spec (enpassantSquare b) 64); [|lia]. apply orb_true_r.
Qed.

(** ** The king loop puts the king back *)

Lemma setBB_setBB i v w b : setBB i v (setBB i w b) = setBB i v b.
Proof. unfold setBB. simpl. by rewrite list_insert_insert_eq. Qed.

Lemma bbAt_setBB i v b :
  length (PiecesBB b) = 12%nat -> 0 <= i < 12 -> bbAt (setBB i v b) i = v.
Proof.
  intros Hl Hi. unfold bbAt, setBB, rd. simpl. destruct (Z.ltb_spec i 0); [lia|].
  unfold Bitboard in *. rewrite list_lookup_insert_eq by lia. done.
Qed.

Lemma setBB_same i b :
  length (PiecesBB b) = 12%nat -> 0 <= i < 12 -> setBB i (bbAt b i) b = b.
Proof.
  intros Hl Hi. unfold bbAt, setBB, rd. destruct (Z.ltb_spec i 0); [lia|].
  unfold Bitboard in *. destruct (_ !! Z.to_nat i) as [x|] eqn:E.
  - simpl. rewrite list_insert_id by done. by destruct b.
  - apply lookup_ge_None_1 in E. lia.
Qed.

Lemma LegalKingMoves_frame b c sq :
  wf_arrays b -> Z.testbit (Kings b c) sq = true -> (LegalKingMoves b c sq).2 = b.
Proof.
  intros Hwf Hk. pose proof (wf_arrays_u64 b (pt_idx King + 6 * color_idx c) Hwf) as Hu.
  destruct Hwf as (H12 & _ & _).
  assert (0 <= pt_idx King + 6 * color_idx c < 12) as Hi by (destruct c; simpl; lia).
  unfold LegalKingMoves. cbv zeta. simpl.
  rewrite bbAt_setBB, setBB_setBB by done.
  rewrite clear_set; [by apply setBB_same|done|].
  unfold Kings in Hk. by rewrite Z.add_comm, Z.mul_comm.
Qed.

(** ** The analyzer writes its own fields only *)

Lemma doCheckmask_board b c sq : exists dc, (doCheckmask b c sq).2 = set_doubleCheck dc b.
Proof.
  unfold doCheckmask. cbv zeta.
  repeat match goal with |- context [if nz ?x then _ else _] => destruct (nz x) end;
    by eexists.
Qed.

Lemma init_board b c sq :
  exists cm hv d dc, init b c sq = set_pinMasks hv d (set_checkMask cm (set_doubleCheck dc b)).
Proof.
  unfold init. destruct (doCheckmask_board b c sq) as (dc & E).
  destruct (doCheckmask b c sq) as [mask b1]. simpl in E. subst b1.
  unfold create_pins. cbv zeta. by eexists _, _, _, _.
Qed.

Lemma init_same_position b c sq : same_position b (init b c sq).
Proof. destruct (init_board b c sq) as (cm & hv & d & dc & ->). by repeat split. Qed.

Lemma wf_arraysb_spec b : wf_arraysb b = true -> wf_arrays b.
Proof.
  unfold wf_arraysb, wf_arrays. intros H.
  apply andb_true_iff in H as [H H3]. apply andb_true_iff in H as [H1 H2].
  apply Nat.eqb_eq in H1, H2. split; [done|]. split; [done|].
  apply Forall_forall. intros x Hx. rewrite forallb_forall in H3.
  apply list_elem_of_In in Hx. specialize (H3 x Hx). unfold u64. lia.
Qed.

Lemma ep_consistentb_spec b : ep_consistentb b = true -> ep_consistent b.
Proof.
  unfold ep_consistentb, ep_consistent. cbv zeta. intros H Hr.
  destruct (Z.leb_spec 0 (enpassantSquare b)) as [_|?]; [|lia].
  destruct (Z.ltb_spec (enpassantSquare b) 64) as [_|?]; [|lia]. simpl in H.
  apply andb_true_iff in H as [H K3]. apply andb_true_iff in H as [K1 K2].
  apply Z.eqb_eq in K1. apply negb_true_iff in K2. done.
Qed.

(** ** [bsf] and [poplsb] *)

Lemma bsf_from_spec fuel i bb :
  (i <= bsf_from fuel i bb < i + Z.of_nat fuel /\
   Z.testbit bb (bsf_from fuel i bb) = true /\
   forall j, i <= j < bsf_from fuel i bb -> Z.testbit bb j = false)
  \/ (forall j, i <= j < i + Z.of_nat fuel -> Z.testbit bb j = false).
Proof.
  revert i. induction fuel as [|k IH]; intros i.
  - right. intros j Hj. lia.
  - simpl bsf_from. destruct (Z.testbit bb i) eqn:E.
    + left. split; [lia|]. split; [done|]. intros j Hj. lia.
    + destruct (IH (i + 1)) as [(H1 & H2 & H3)|H].
      * left. split; [lia|]. split; [done|]. intros j Hj.
        destruct (Z.eq_dec j i) as [->|]; [done|]. apply H3. lia.
      * right. intros j Hj. destruct (Z.eq_dec j i) as [->|]; [done|]. apply H. lia.
Qed.

(** On a board that is not empty, [bsf] is a square of the board, the
    lowest one. *)
Lemma bsf_spec bb :
  u64 bb -> bb <> 0 ->
  0 <= bsf bb < 64 /\ Z.testbit bb (bsf bb) = true /\
  forall j, 0 <= j < bsf bb -> Z.testbit bb j = false.
Proof.
  intros Hu Hnz. unfold bsf. destruct (bsf_from_spec 64 0 bb) as [(H1 & H2 & H3)|H].
  - split; [lia|]. done.
  - destruct Hnz. apply u64_zero; [done|]. intros i Hi. apply H. lia.
Qed.

Lemma poplsb_rest_sub bb i :
  Z.testbit (poplsb_rest bb) i = true -> Z.testbit bb i = true.
Proof. unfold poplsb_rest. rewrite Z.land_spec. by intros [? _]%andb_true_iff. Qed.

Lemma u64_poplsb_rest bb : u64 bb -> u64 (poplsb_rest bb).
Proof. intros H. by apply u64_land. Qed.

(** ** The pawn loop *)

Lemma gen_pawns_frame b :
  wf_arrays b -> ep_consistent b ->
  forall fuel mask ml,
    u64 mask ->
    (forall i, Z.testbit mask i = true -> Z.testbit (Pawns b (sideToMove b)) i = true) ->
    exists ml',
      pop_loopM fuel mask (fun source '(moveList, b) =>
        '(moves, b) ← LegalPawnMoves b (sideToMove b) source;
        Some (emit_pawn b source moves moveList, b)) (ml, b) = Some (ml', b).
Proof.
  intros Hwf Hep. induction fuel as [|k IH]; intros mask ml Hu Hsub; [by eexists|].
  rewrite pop_loopM_S. destruct (nz mask) eqn:E; [|by eexists].
  apply nz_true in E. destruct (bsf_spec mask Hu E) as (_ & Hb & _).
  destruct (LegalPawnMoves_frame b (bsf mask) Hwf Hep (Hsub _ Hb)) as (mv & Hmv).
  rewrite Hmv. rewrite bind_some. cbv beta iota.
  apply IH; [by apply u64_poplsb_rest|].
  intros i Hi. by apply Hsub, poplsb_rest_sub.
Qed.

(** C10.  In a position with the arrays of the class, a king of the side to
    move and a consistent en-passant square, the generator returns a list
    and the board [analyzed b]: the analyzer fields are rewritten, and the
    twelve bitboards, the mailbox, the side to move, the en-passant square
    and the castling rights are those of the board before the call. *)
Theorem generateLegalMoves_frame (b : Board) :
  wf_arrays b -> ep_consistent b -> has_king b ->
  exists ml b',
    generateLegalMoves b = Some (ml, b') /\ b' = analyzed b /\
    PiecesBB b' = PiecesBB b /\ board b' = board b /\
    sideToMove b' = sideToMove b /\ enpassantSquare b' = enpassantSquare b /\
    castlingRights b' = castlingRights b.
Proof.
  intros Hwf Hep Hk.
  assert (exists ml, generateLegalMoves b = Some (ml, analyzed b)) as [ml Hml].
  { unfold generateLegalMoves, analyzed. cbv zeta.
    destruct (init_board b (sideToMove b) (KingSq b (sideToMove b))) as (cm & hv & d & dc & ->).
    set (b0 := set_pinMasks hv d (set_checkMask cm (set_doubleCheck dc b))).
    assert (wf_arrays b0) as Hwf0 by exact Hwf.
    assert (ep_consistent b0) as Hep0 by exact Hep.
    assert (exists ml1, (if doubleCheck b0 <? 2
              then '(moveList, b1) ← gen_pawns (Pawns b0 (sideToMove b0)) b0 Moves_init;
                   Some (gen_officers (Knights b0 (sideToMove b0)) (Bishops b0 (sideToMove b0))
                           (Rooks b0 (sideToMove b0)) (Queens b0 (sideToMove b0)) b1 moveList,
                         b1)
              else Some (Moves_init, b0)) = Some (ml1, b0)) as [ml1 ->].
    { destruct (doubleCheck b0 <? 2); [|by eexists].
      destruct (gen_pawns_frame b0 Hwf0 Hep0 64 (Pawns b0 (sideToMove b0)) Moves_init)
        as (ml' & Hg); [by apply wf_arrays_u64|done|].
      unfold gen_pawns. rewrite Hg, bind_some. by eexists. }
    rewrite bind_some. cbv beta iota. unfold gen_king.
    assert (Z.testbit (Kings b0 (sideToMove b0)) (bsf (Kings b0 (sideToMove b0))) = true) as Hb.
    { apply bsf_spec; [by apply wf_arrays_u64|exact Hk]. }
    pose proof (LegalKingMoves_frame b0 _ _ Hwf0 Hb) as Hf.
    destruct (LegalKingMoves b0 _ _) as [mv b2]. simpl in Hf. subst b2. by eexists. }
  exists ml, (analyzed b). split; [done|]. split; [done|].
  destruct (init_same_position b (sideToMove b) (KingSq b (sideToMove b)))
    as (H1 & H2 & H3 & H4 & H5 & _). done.
Qed.

Lemma generateLegalMoves_frame_witness :
  exists ml b',
    generateLegalMoves pos_ep_free = Some (ml, b') /\ b' = analyzed pos_ep_free /\
    PiecesBB b' = PiecesBB pos_ep_free /\ board b' = board pos_ep_free /\
    sideToMove b' = sideToMove pos_ep_free /\
    enpassantSquare b' = enpassantSquare pos_ep_free /\
    castlingRights b' = castlingRights pos_ep_free.
Proof.
  apply (generateLegalMoves_frame pos_ep_free).
  - apply wf_arraysb_spec. vm_compute. reflexivity.
  - apply ep_consistentb_spec. vm_compute. reflexivity.
  - vm_compute. discriminate.
Defined.

Lemma enpassant_test_when_free_witness :
  exists mv, LegalPawnMoves (analyzed pos_ep_free) White 36 = Some (mv, analyzed pos_ep_free) /\
    Z.testbit mv 43 = negb (ep_exposes_king (analyzed pos_ep_free) White 36).
Proof.
  apply (enpassant_test_when_free (analyzed pos_ep_free) 36).
  - apply wf_arraysb_spec. vm_compute. reflexivity.
  - apply ep_consistentb_spec. vm_compute. reflexivity.
  - lia.
  - vm_compute. reflexivity.
  - vm_compute. discriminate.
  - vm_compute. reflexivity.
  - vm_compute. reflexivity.
  - vm_compute. reflexivity.
  - vm_compute. reflexivity.
Defined.

(** ** Counting the squares of a bitboard *)

Lemma count_in_nonneg l x : 0 <= count_in l x.
Proof. induction l as [|i l IH]; simpl; [lia|]. destruct (Z.testbit x i); lia. Qed.

Lemma count_in_lor l x y :
  Z.land x y = 0 -> count_in l (Z.lor x y) = count_in l x + count_in l y.
Proof.
  intros H. induction l as [|i l IH]; simpl; [done|].
  assert (Z.testbit x i && Z.testbit y i = false) as Hi
    by (by rewrite <- Z.land_spec, H, Z.bits_0).
  rewrite Z.lor_spec. destruct (Z.testbit x i), (Z.testbit y i); simpl in *; try done; lia.
Qed.

Lemma count_in_member l x i : In i l -> Z.testbit x i = true -> 1 <= count_in l x.
Proof.
  induction l as [|j l IH]; simpl; [done|]. intros [->|Hin] Hi.
  - rewrite Hi. pose proof (count_in_nonneg l x). lia.
  - specialize (IH Hin Hi). destruct (Z.testbit x j); lia.
Qed.

Lemma count_in_zero l : count_in l 0 = 0.
Proof. induction l as [|j l IH]; simpl; [done|]. by rewrite Z.bits_0. Qed.

Lemma card_pos x : u64 x -> x <> 0 -> 1 <= card x.
Proof.
  intros Hu Hnz. destruct (bsf_spec x Hu Hnz) as (Hr & Hb & _).
  eapply count_in_member; [|exact Hb]. by apply squares_In.
Qed.

Lemma kind_count_le_card x : u64 x -> kind_count x <= card x.
Proof.
  intros Hu. unfold kind_count. destruct (nz x) eqn:E.
  - apply card_pos; [done|]. by apply nz_true.
  - apply count_in_nonneg.
Qed.

Lemma kind_count_zero x : kind_count x = 0 <-> x = 0.
Proof.
  unfold kind_count. destruct (nz x) eqn:E.
  - apply nz_true in E. split; [lia|done].
  - apply nz_false in E. done.
Qed.

Lemma kind_count_range x : 0 <= kind_count x <= 1.
Proof. unfold kind_count. destruct (nz x); lia. Qed.

(** ** Slider attacks stay on their lines *)

Lemma hyp_quint_mask sq occ mask i :
  Z.testbit (hyp_quint sq occ mask) i = true -> Z.testbit mask i = true.
Proof. unfold hyp_quint. rewrite Z.land_spec. by intros [_ ?]%andb_true_iff. Qed.

(** The two diagonals and the file and rank of a square meet in that
    square only. *)
Lemma lines_meet sq :
  0 <= sq < 64 ->
  Z.land (Z.lor (rd MASK_DIAGONAL (diagonal_of sq)) (rd MASK_ANTI_DIAGONAL (anti_diagonal_of sq)))
         (Z.lor (rd MASK_FILE (file_of sq)) (rd MASK_RANK (rank_of sq)))
  = rd SQUARE_BB sq.
Proof.
  intros H. apply Z.eqb_eq.
  apply (squares_forall (fun sq =>
    Z.land (Z.lor (rd MASK_DIAGONAL (diagonal_of sq)) (rd MASK_ANTI_DIAGONAL (anti_diagonal_of sq)))
           (Z.lor (rd MASK_FILE (file_of sq)) (rd MASK_RANK (rank_of sq)))
    =? rd SQUARE_BB sq)); [run|done].
Qed.

Lemma bishop_rook_meet sq occ occ' i :
  0 <= sq < 64 ->
  Z.testbit (GetBishopAttacks sq occ) i = true ->
  Z.testbit (GetRookAttacks sq occ') i = true -> i = sq.
Proof.
  intros Hsq Hb Hr. unfold GetBishopAttacks, GetRookAttacks in *.
  rewrite Z.lor_spec in Hb, Hr.
  apply testbit_SQUARE_BB. rewrite <- lines_meet by done.
  rewrite Z.land_spec, !Z.lor_spec.
  apply orb_true_iff in Hb as [Hb|Hb]; apply hyp_quint_mask in Hb;
    apply orb_true_iff in Hr as [Hr|Hr]; apply hyp_quint_mask in Hr;
    rewrite Hb, Hr; simpl; by rewrite ?orb_true_r.
Qed.

(** ** Disjoint piece sets *)

Lemma Pawns_PieceBB b c : Pawns b c = PieceBB b Pawn c.
Proof. by destruct c. Qed.
Lemma Knights_PieceBB b c : Knights b c = PieceBB b Knight c.
Proof. done. Qed.
Lemma Bishops_PieceBB b c : Bishops b c = PieceBB b Bishop c.
Proof. done. Qed.
Lemma Rooks_PieceBB b c : Rooks b c = PieceBB b Rook c.
Proof. done. Qed.
Lemma Queens_PieceBB b c : Queens b c = PieceBB b Queen c.
Proof. done. Qed.
Lemma Kings_PieceBB b c : Kings b c = PieceBB b King c.
Proof. done. Qed.

Lemma opp_neq c : c <> opp c.
Proof. by destruct c. Qed.

Lemma disjoint_bb b t1 c1 t2 c2 :
  pieces_disjoint b -> c1 <> c2 \/ t1 <> t2 ->
  Z.land (PieceBB b t1 c1) (PieceBB b t2 c2) = 0.
Proof.
  intros H Hne. unfold PieceBB. apply H.
  - destruct t1, c1; simpl; lia.
  - destruct t2, c2; simpl; lia.
  - destruct Hne as [Hne|Hne]; destruct t1, t2, c1, c2; simpl; try lia; by destruct Hne.
Qed.

Lemma dis_lor_r a x y : Z.land a x = 0 -> Z.land a y = 0 -> Z.land a (Z.lor x y) = 0.
Proof. intros H1 H2. by rewrite Z.land_lor_distr_r, H1, H2. Qed.

Lemma dis_lor_l a x y : Z.land x a = 0 -> Z.land y a = 0 -> Z.land (Z.lor x y) a = 0.
Proof. intros H1 H2. by rewrite Z.land_lor_distr_l, H1, H2. Qed.

(** Two sets met with disjoint piece sets are disjoint. *)
Lemma dis_land a s a' s' : Z.land s s' = 0 -> Z.land (Z.land a s) (Z.land a' s') = 0.
Proof.
  intros H. apply Z.bits_inj'. intros k Hk.
  apply (f_equal (fun z => Z.testbit z k)) in H.
  rewrite Z.bits_0, !Z.land_spec in *.
  destruct (Z.testbit s k), (Z.testbit s' k); try done; by rewrite ?andb_false_r.
Qed.

Ltac to_PieceBB :=
  unfold allPieces;
  rewrite ?Pawns_PieceBB, ?Knights_PieceBB, ?Bishops_PieceBB, ?Rooks_PieceBB,
    ?Queens_PieceBB, ?Kings_PieceBB.

Ltac dis :=
  to_PieceBB;
  repeat first [apply dis_lor_r | apply dis_lor_l];
  (apply disjoint_bb;
    [ assumption
    | first [left; first [apply opp_neq | apply not_eq_sym, opp_neq] | right; discriminate] ]).

(** Dropping [& ~allPieces(c)] from an attack set changes nothing once it
    is met with enemy pieces. *)
Lemma land_not_own a p e : u64 e -> Z.land e p = 0 -> Z.land (Z.land a (not64 p)) e = Z.land a e.
Proof.
  intros Hu H. apply Z.bits_inj'. intros k Hk.
  apply (f_equal (fun z => Z.testbit z k)) in H.
  rewrite Z.bits_0, Z.land_spec in H. rewrite !Z.land_spec, testbit_not64 by done.
  destruct (Z.testbit e k) eqn:E; [|by rewrite !andb_false_r].
  destruct (u64_testbit e k Hu E) as [_ Hlt].
  destruct (Z.ltb_spec k 64); [|lia]. simpl in H. rewrite H. simpl. by rewrite !andb_true_r.
Qed.

(** ** The counter of checks *)

Lemma doCheckmask_count b c sq :
  doubleCheck (doCheckmask b c sq).2
  = kind_count (pawn_checkers b c sq) + kind_count (knight_checkers b c sq)
    + kind_count (Z.land (Z.land (GetBishopAttacks sq (Z.lor (allPieces b c) (allPieces b (opp c))))
                                 (not64 (allPieces b c)))
                         (Z.lor (Bishops b (opp c)) (Queens b (opp c))))
    + kind_count (Z.land (Z.land (GetRookAttacks sq (Z.lor (allPieces b c) (allPieces b (opp c))))
                                 (not64 (allPieces b c)))
                         (Z.lor (Rooks b (opp c)) (Queens b (opp c)))).
Proof.
  unfold doCheckmask, pawn_checkers, knight_checkers, kind_count. cbv zeta.
  repeat match goal with |- context [if nz ?x then _ else _] => destruct (nz x) end;
    reflexivity.
Qed.

Lemma init_doubleCheck b c sq : doubleCheck (init b c sq) = doubleCheck (doCheckmask b c sq).2.
Proof. unfold init. by destruct (doCheckmask b c sq). Qed.

(** X25.  With disjoint piece sets and the king of [c]
    on [sq], the counter left by the analyzer is the number of kinds of
    attack (pawn, knight, diagonal, straight) that have a checker.  It is 0
    exactly when there is no checker, 1 when there is exactly one, never
    more than the number of checkers nor than 4; checkers of one kind count
    once. *)
Theorem doubleCheck_counts_kinds (b : Board) (c : Color) (sq : Square) :
  wf_arrays b -> pieces_disjoint b -> 0 <= sq < 64 -> Z.testbit (Kings b c) sq = true ->
  doubleCheck (init b c sq) = check_kinds b c sq /\
  (doubleCheck (init b c sq) = 0 <-> checkers b c sq = 0) /\
  (card (checkers b c sq) = 1 -> doubleCheck (init b c sq) = 1) /\
  doubleCheck (init b c sq) <= card (checkers b c sq) /\
  doubleCheck (init b c sq) <= 4.
Proof.
  intros Hwf Hdis Hsq Hking.
  assert (u64 (Bishops b (opp c)) /\ u64 (Rooks b (opp c)) /\ u64 (Queens b (opp c))
          /\ u64 (Pawns b (opp c)) /\ u64 (Knights b (opp c))) as (HuB & HuR & HuQ & HuP & HuN)
    by (repeat split; by apply wf_arrays_u64).
  assert (doubleCheck (init b c sq) = check_kinds b c sq) as Hn.
  { rewrite init_doubleCheck, doCheckmask_count. unfold check_kinds.
    rewrite !land_not_own by (first [by apply u64_lor | dis]). done. }
  set (P := pawn_checkers b c sq) in *. set (N := knight_checkers b c sq) in *.
  set (D := diagonal_checkers b c sq) in *. set (S := straight_checkers b c sq) in *.
  assert (u64 P /\ u64 N /\ u64 D /\ u64 S) as (HP & HN & HD & HS).
  { subst P N D S. unfold pawn_checkers, knight_checkers, diagonal_checkers, straight_checkers.
    repeat split; rewrite Z.land_comm; apply u64_land; try done; by apply u64_lor. }
  assert (Z.land P N = 0 /\ Z.land (Z.lor P N) D = 0 /\ Z.land (Z.lor (Z.lor P N) D) S = 0)
    as (H1 & H2 & H3).
  { subst P N D S. unfold pawn_checkers, knight_checkers, diagonal_checkers, straight_checkers.
    split; [apply dis_land; dis|]. split; [apply dis_lor_l; apply dis_land; dis|].
    repeat apply dis_lor_l; try (apply dis_land; dis).
    apply Z.bits_inj'. intros k Hk. rewrite Z.bits_0, !Z.land_spec.
    destruct (Z.testbit (GetBishopAttacks sq _) k) eqn:EB; [|done].
    destruct (Z.testbit (GetRookAttacks sq _) k) eqn:ER; [|by rewrite andb_false_r].
    rewrite (bishop_rook_meet sq _ _ k Hsq EB ER). simpl.
    assert (Z.testbit (Z.lor (Bishops b (opp c)) (Queens b (opp c))) sq = false) as ->; [|done].
    assert (Z.land (Kings b c) (Z.lor (Bishops b (opp c)) (Queens b (opp c))) = 0) as Hz by dis.
    apply (f_equal (fun z => Z.testbit z sq)) in Hz.
    by rewrite Z.bits_0, Z.land_spec, Hking in Hz. }
  assert (card (checkers b c sq) = card P + card N + card D + card S) as Hcard.
  { unfold checkers, card. fold P N D S. by rewrite !count_in_lor. }
  assert (doubleCheck (init b c sq) = 0 <-> checkers b c sq = 0) as Hz.
  { rewrite Hn. unfold check_kinds, checkers. fold P N D S.
    pose proof (kind_count_range P). pose proof (kind_count_range N).
    pose proof (kind_count_range D). pose proof (kind_count_range S).
    rewrite !Z.lor_eq_0_iff.
    rewrite <- (kind_count_zero P), <- (kind_count_zero N), <- (kind_count_zero D),
      <- (kind_count_zero S). lia. }
  assert (doubleCheck (init b c sq) <= card (checkers b c sq)) as Hle.
  { rewrite Hn, Hcard. unfold check_kinds. fold P N D S.
    pose proof (kind_count_le_card P HP). pose proof (kind_count_le_card N HN).
    pose proof (kind_count_le_card D HD). pose proof (kind_count_le_card S HS). lia. }
  split; [done|]. split; [done|]. split; [|split; [done|]].
  - intros H1c. assert (doubleCheck (init b c sq) <> 0) as Hne.
    { intros H0. apply Hz in H0. rewrite H0 in H1c. unfold card in H1c.
      by rewrite count_in_zero in H1c. }
    assert (0 <= doubleCheck (init b c sq)); [|lia].
    rewrite Hn. unfold check_kinds. fold P N D S.
    pose proof (kind_count_range P). pose proof (kind_count_range N).
    pose proof (kind_count_range D). pose proof (kind_count_range S). lia.
  - rewrite Hn. unfold check_kinds. fold P N D S.
    pose proof (kind_count_range P). pose proof (kind_count_range N).
    pose proof (kind_count_range D). pose proof (kind_count_range S). lia.
Qed.

Lemma pieces_disjointb_spec b : pieces_disjointb b = true -> pieces_disjoint b.
Proof.
  unfold pieces_disjointb, pieces_disjoint. intros H i j Hi Hj Hne.
  assert (forall k, 0 <= k < 12 -> In k pieces) as Hin.
  { intros k Hk. unfold pieces. apply in_map_iff. exists (Z.to_nat k).
    split; [lia|]. apply in_seq. lia. }
  rewrite forallb_forall in H. specialize (H i (Hin i Hi)).
  rewrite forallb_forall in H. specialize (H j (Hin j Hj)).
  apply orb_true_iff in H as [H|H]; lia.
Qed.

Lemma doubleCheck_counts_kinds_witness :
  doubleCheck (init pos_two_rooks White 4) = check_kinds pos_two_rooks White 4 /\
  (doubleCheck (init pos_two_rooks White 4) = 0 <-> checkers pos_two_rooks White 4 = 0) /\
  (card (checkers pos_two_rooks White 4) = 1 -> doubleCheck (init pos_two_rooks White 4) = 1) /\
  doubleCheck (init pos_two_rooks White 4) <= card (checkers pos_two_rooks White 4) /\
  doubleCheck (init pos_two_rooks White 4) <= 4.
Proof.
  apply (doubleCheck_counts_kinds pos_two_rooks White 4).
  - apply wf_arraysb_spec. vm_compute. reflexivity.
  - apply pieces_disjointb_spec. vm_compute. reflexivity.
  - lia.
  - vm_compute. reflexivity.
Defined.

(** ** The attack query and the king *)

(** The query never reports the enemy king: with no other piece of the
    asking colour on the board, no square is attacked. *)
Lemma isSquareAttacked_lone_king b sq c :
  Pawns b c = 0 -> Knights b c = 0 -> Bishops b c = 0 -> Rooks b c = 0 -> Queens b c = 0 ->
  isSquareAttacked b sq c = false.
Proof.
  intros Hp Hn Hb Hr Hq. unfold isSquareAttacked.
  rewrite Hp, Hn, Hb, Hr, Hq, !Z.land_0_r. simpl. by destruct (negb _).
Qed.

(** C2, at the failing input.  With the white king on g6, the square g7 is
    attacked by White by the rules, and the query answers no. *)
Theorem isSquareAttacked_misses_king :
  Z.testbit (Kings pos_kings White) 46 = true /\
  attacks_by_rules pos_kings King White 46 54 = true /\
  attacked_by_rules pos_kings 54 White = true /\
  isSquareAttacked pos_kings 54 White = false.
Proof. repeat split; run. Qed.

(** C1, at the failing input.  In the same position the generator lists
    h8g7; made, it leaves the black king on g7, next to the white king on
    g6: attacked by the rules, and unseen by the query. *)
Theorem king_steps_next_to_king :
  exists ml b0 b1,
    generateLegalMoves pos_kings = Some (ml, b0) /\
    In move_h8g7 (moveList ml) /\
    makemove b0 move_h8g7 = Some b1 /\
    KingSq b1 Black = 54 /\
    attacked_by_rules b1 (KingSq b1 Black) White = true /\
    isSquareAttacked b1 (KingSq b1 Black) White = false.
Proof.
  eexists _, _, _.
  split; [run|]. split; [vm_compute; tauto|].
  do 3 (split; [run|]). run.
Qed.

(** C7, at the failing input.  White's pawn on e5 is pinned by the bishop on
    g7 along the diagonal to the king on d4, and Black has just played
    f7-f5.  Taking on f6 stays on that diagonal: in the test position the
    king is not attacked, by the query or by the rules.  [LegalPawnMoves]
    returns for a pawn on the diagonal pin mask before it reaches the test,
    with the enemy pieces on the mask only, and the generator lists no
    move from e5 to f6. *)
Theorem enpassant_pinned_pawn_skipped :
  enpassantSquare pos_ep_pinned = 45 /\
  Z.testbit (GetPawnAttacks 36 White) 45 = true /\
  Z.testbit (pinMaskD (analyzed pos_ep_pinned)) 36 = true /\
  KingSq pos_ep_pinned White = 27 /\
  ep_exposes_king (analyzed pos_ep_pinned) White 36 = false /\
  attacked_by_rules (ep_test_board pos_ep_pinned White 36) 27 Black = false /\
  LegalPawnMoves (analyzed pos_ep_pinned) White 36 = Some (0, analyzed pos_ep_pinned) /\
  exists ml b0,
    generateLegalMoves pos_ep_pinned = Some (ml, b0) /\
    forallb (fun m => negb ((source m =? 36) && (target m =? 45))) (moveList ml) = true.
Proof.
  do 7 (split; [run|]). eexists _, _. split; run.
Qed.

(** ** The packed move *)

Lemma testbit_small n x i : 0 <= n -> 0 <= x < 2 ^ n -> n <= i -> Z.testbit x i = false.
Proof.
  intros Hn Hx Hi. rewrite <- (Z.mod_small x (2 ^ n)) by lia.
  apply Z.mod_pow2_bits_high. lia.
Qed.

Lemma testbit_mkMove s t p pr c d e k i :
  0 <= i ->
  Z.testbit (mkMove s t p pr c d e k) i
  = (i <? 32)
    && (Z.testbit s i || Z.testbit t (i - 6) || Z.testbit p (i - 12)
        || Z.testbit pr (i - 16) || Z.testbit c (i - 20) || Z.testbit d (i - 21)
        || Z.testbit e (i - 22) || Z.testbit k (i - 23)).
Proof.
  intros Hi. unfold mkMove.
  rewrite Z.testbit_mod_pow2, !Z.lor_spec, !Z.shiftl_spec by lia. reflexivity.
Qed.

(** The bits of a field mask: [width] ones from bit [lo]. *)
Lemma testbit_field_mask lo width i :
  0 <= lo -> 0 <= width -> 0 <= i ->
  Z.testbit (Z.shiftl (Z.ones width) lo) i = (lo <=? i) && (i <? lo + width).
Proof.
  intros Hlo Hw Hi. rewrite Z.shiftl_spec by lia.
  destruct (Z.leb_spec lo i).
  - rewrite Z.testbit_ones_nonneg by lia. simpl. destruct (Z.ltb_spec (i - lo) width),
      (Z.ltb_spec i (lo + width)); try done; lia.
  - by rewrite Z.testbit_neg_r by lia.
Qed.

(** Reading a field of [width] bits at [lo]: [(move & mask) >> lo]. *)
Lemma field_read m lo width v :
  0 <= lo -> 0 <= width -> 0 <= v < 2 ^ width ->
  (forall j, 0 <= j < width -> Z.testbit m (j + lo) = Z.testbit v j) ->
  Z.shiftr (Z.land m (Z.shiftl (Z.ones width) lo)) lo = v.
Proof.
  intros Hlo Hw Hv H. apply Z.bits_inj'. intros j Hj.
  rewrite Z.shiftr_spec, Z.land_spec, testbit_field_mask by lia.
  destruct (Z.ltb_spec j width).
  - destruct (Z.leb_spec lo (j + lo)), (Z.ltb_spec (j + lo) (lo + width)); try lia.
    rewrite H by lia. by rewrite andb_true_r.
  - rewrite (testbit_small width v j) by lia.
    destruct (Z.ltb_spec (j + lo) (lo + width)); [lia|]. by rewrite !andb_false_r.
Qed.

Ltac field_bits :=
  intros j Hj; rewrite testbit_mkMove by lia;
  match goal with |- context [?a <? 32] => destruct (Z.ltb_spec a 32) as [_|?]; [|lia] end;
  simpl;
  repeat match goal with
  | |- context [Z.testbit ?x ?i] =>
      first [ rewrite (Z.testbit_neg_r x i) by lia
            | match goal with
              | H : 0 <= x < 2 ^ ?n |- _ => rewrite (testbit_small n x i) by lia
              end ]
  end;
  rewrite ?orb_false_r; simpl; try (f_equal; lia).

(** X1.  A move built from squares below 64, pieces below 16 and flags 0 or
    1 gives every field back through its accessor. *)
Theorem Move_round_trip (s t p pr c d e k : Z) :
  0 <= s < 64 -> 0 <= t < 64 -> 0 <= p < 16 -> 0 <= pr < 16 ->
  0 <= c < 2 -> 0 <= d < 2 -> 0 <= e < 2 -> 0 <= k < 2 ->
  source (mkMove s t p pr c d e k) = s /\
  target (mkMove s t p pr c d e k) = t /\
  piece (mkMove s t p pr c d e k) = p /\
  promoted (mkMove s t p pr c d e k) = pr /\
  capture (mkMove s t p pr c d e k) = (c =? 1) /\
  doublePush (mkMove s t p pr c d e k) = (d =? 1) /\
  enpassant (mkMove s t p pr c d e k) = (e =? 1) /\
  castling (mkMove s t p pr c d e k) = (k =? 1).
Proof.
  intros Hs Ht Hp Hpr Hc Hd He Hk.
  change 64 with (2 ^ 6) in Hs, Ht. change 16 with (2 ^ 4) in Hp, Hpr.
  change 2 with (2 ^ 1) in Hc, Hd, He, Hk.
  assert (2 ^ 6 = 64 /\ 2 ^ 4 = 16 /\ 2 ^ 1 = 2) as (P6 & P4 & P1) by done.
  set (m := mkMove s t p pr c d e k).
  assert (source m = s) as ->.
  { unfold source. rewrite <- (Z.shiftr_0_r (Z.land m 63)).
    apply (field_read m 0 6 s); try lia. subst m. field_bits. }
  assert (target m = t) as ->.
  { unfold target. apply (field_read m 6 6 t); try lia. subst m. field_bits. }
  assert (piece m = p) as ->.
  { unfold piece. apply (field_read m 12 4 p); try lia. subst m. field_bits. }
  assert (promoted m = pr) as ->.
  { unfold promoted. apply (field_read m 16 4 pr); try lia. subst m. field_bits. }
  assert (Z.shiftr (Z.land m 1048576) 20 = c) as Ec.
  { apply (field_read m 20 1 c); try lia. subst m. field_bits. }
  assert (Z.shiftr (Z.land m 2097152) 21 = d) as Ed.
  { apply (field_read m 21 1 d); try lia. subst m. field_bits. }
  assert (Z.shiftr (Z.land m 4194304) 22 = e) as Ee.
  { apply (field_read m 22 1 e); try lia. subst m. field_bits. }
  assert (Z.shiftr (Z.land m 8388608) 23 = k) as Ek.
  { apply (field_read m 23 1 k); try lia. subst m. field_bits. }
  unfold capture, doublePush, enpassant, castling, nz.
  change (Z.land m 1048576) with (Z.land m 1048576).
  rewrite Ec, Ed, Ee, Ek.
  repeat split; try reflexivity;
    match goal with |- negb (?x =? 0) = (?x =? 1) =>
      destruct (Z.eqb_spec x 0), (Z.eqb_spec x 1); simpl; try reflexivity; lia end.
Qed.

Lemma Move_round_trip_witness :
  source move_h1h8 = 7 /\ target move_h1h8 = 63 /\ piece move_h1h8 = WhiteRook /\
  promoted move_h1h8 = NoPiece /\ capture move_h1h8 = (1 =? 1) /\
  doublePush move_h1h8 = (0 =? 1) /\ enpassant move_h1h8 = (0 =? 1) /\
  castling move_h1h8 = (0 =? 1).
Proof.
  apply (Move_round_trip 7 63 WhiteRook NoPiece 1 0 0 0); vm_compute; split; congruence.
Defined.

(** ** [reverse] *)

Lemma swap_stage_bit M s x i :
  0 <= s < 64 -> 0 <= i < 64 ->
  Z.testbit M i = negb (Z.testbit M (i - s)) ->
  Z.testbit (swap_stage M s x) i = Z.testbit x (swap_from M s i).
Proof.
  intros Hs Hi HM. unfold swap_stage, swap_from.
  rewrite Z.lor_spec, Z.land_spec, testbit_shl64, testbit_shr64, Z.land_spec by lia.
  destruct (Z.ltb_spec i 64); [|lia]. simpl. rewrite HM.
  destruct (Z.testbit M (i - s)); simpl; by rewrite ?andb_true_r, ?andb_false_r, ?orb_false_r.
Qed.

Lemma u64_swap_stage M s x : u64 M -> u64 (swap_stage M s x).
Proof.
  intros HM. unfold swap_stage. apply u64_lor; [apply u64_wrap64|].
  rewrite Z.land_comm. by apply u64_land.
Qed.

Lemma u64_shr64 x n : u64 x -> 0 <= n -> u64 (shr64 x n).
Proof.
  intros Hx Hn. apply u64_of_bits.
  - apply Z.shiftr_nonneg. apply Hx.
  - intros i Hi. rewrite testbit_shr64 by lia. apply u64_high; [done|lia].
Qed.

Lemma reverse_stages x :
  reverse x =
  let b := swap_stage 0x00ff00ff00ff00ff 8
             (swap_stage 0x0f0f0f0f0f0f0f0f 4
               (swap_stage 0x3333333333333333 2
                 (swap_stage 0x5555555555555555 1 x))) in
  Z.lor (Z.lor (Z.lor (shl64 b 48) (shl64 (Z.land b 0xffff0000) 16))
               (Z.land (shr64 b 16) 0xffff0000)) (shr64 b 48).
Proof. reflexivity. Qed.

Lemma word_swap_bit b i :
  u64 b -> 0 <= i < 64 ->
  Z.testbit (Z.lor (Z.lor (Z.lor (shl64 b 48) (shl64 (Z.land b 0xffff0000) 16))
                          (Z.land (shr64 b 16) 0xffff0000)) (shr64 b 48)) i
  = Z.testbit b (word_from i).
Proof.
  intros Hb Hi.
  rewrite !Z.lor_spec, !Z.land_spec, !testbit_shl64, !testbit_shr64, Z.land_spec by lia.
  change 0xffff0000 with (Z.shiftl (Z.ones 16) 16).
  rewrite (testbit_field_mask 16 16 i) by lia.
  destruct (Z.ltb_spec i 64); [|lia]. simpl. unfold word_from.
  destruct (Z.ltb_spec i 16); [|destruct (Z.ltb_spec i 32); [|destruct (Z.ltb_spec i 48)]].
  - rewrite (Z.testbit_neg_r b (i - 48)), (Z.testbit_neg_r _ (i - 16)) by lia.
    destruct (Z.leb_spec 16 i); [lia|]. simpl. by rewrite andb_false_r.
  - rewrite (Z.testbit_neg_r b (i - 48)), (u64_high b (i + 48)) by (done || lia).
    rewrite Z.shiftl_spec, (Z.testbit_neg_r _ (i - 16 - 16)) by lia.
    destruct (Z.leb_spec 16 i), (Z.ltb_spec i (16 + 16)); try lia. simpl.
    by rewrite andb_false_r, andb_true_r, orb_false_r.
  - rewrite (Z.testbit_neg_r b (i - 48)), (u64_high b (i + 48)) by (done || lia).
    rewrite testbit_field_mask by lia.
    destruct (Z.leb_spec 16 (i - 16)), (Z.ltb_spec (i - 16) (16 + 16)),
      (Z.ltb_spec i (16 + 16)); try lia.
    simpl. by rewrite andb_true_r, !andb_false_r, !orb_false_r.
  - rewrite (u64_high b (i + 48)), (u64_high b (i + 16)) by (done || lia).
    rewrite testbit_field_mask by lia.
    destruct (Z.ltb_spec (i - 16) (16 + 16)); [lia|].
    by rewrite !andb_false_r, !orb_false_r.
Qed.

(** The masks alternate as their stage needs, the sources stay on the
    board, and the five sources composed are [63 - i]. *)
Lemma reverse_index_facts i :
  0 <= i < 64 ->
  let i4 := word_from i in
  let i3 := swap_from 0x00ff00ff00ff00ff 8 i4 in
  let i2 := swap_from 0x0f0f0f0f0f0f0f0f 4 i3 in
  let i1 := swap_from 0x3333333333333333 2 i2 in
  let i0 := swap_from 0x5555555555555555 1 i1 in
  (0 <= i4 < 64 /\ 0 <= i3 < 64 /\ 0 <= i2 < 64 /\ 0 <= i1 < 64) /\
  (Z.testbit 0x00ff00ff00ff00ff i4 = negb (Z.testbit 0x00ff00ff00ff00ff (i4 - 8)) /\
   Z.testbit 0x0f0f0f0f0f0f0f0f i3 = negb (Z.testbit 0x0f0f0f0f0f0f0f0f (i3 - 4)) /\
   Z.testbit 0x3333333333333333 i2 = negb (Z.testbit 0x3333333333333333 (i2 - 2)) /\
   Z.testbit 0x5555555555555555 i1 = negb (Z.testbit 0x5555555555555555 (i1 - 1))) /\
  i0 = 63 - i.
Proof.
  intros Hi.
  pose proof (squares_forall (fun i =>
    let i4 := word_from i in
    let i3 := swap_from 0x00ff00ff00ff00ff 8 i4 in
    let i2 := swap_from 0x0f0f0f0f0f0f0f0f 4 i3 in
    let i1 := swap_from 0x3333333333333333 2 i2 in
    let i0 := swap_from 0x5555555555555555 1 i1 in
    (0 <=? i4) && (i4 <? 64) && (0 <=? i3) && (i3 <? 64) && (0 <=? i2) && (i2 <? 64)
    && (0 <=? i1) && (i1 <? 64)
    && eqb (Z.testbit 0x00ff00ff00ff00ff i4) (negb (Z.testbit 0x00ff00ff00ff00ff (i4 - 8)))
    && eqb (Z.testbit 0x0f0f0f0f0f0f0f0f i3) (negb (Z.testbit 0x0f0f0f0f0f0f0f0f (i3 - 4)))
    && eqb (Z.testbit 0x3333333333333333 i2) (negb (Z.testbit 0x3333333333333333 (i2 - 2)))
    && eqb (Z.testbit 0x5555555555555555 i1) (negb (Z.testbit 0x5555555555555555 (i1 - 1)))
    && (i0 =? 63 - i)) ltac:(vm_compute; reflexivity) i Hi) as H.
  cbv beta zeta in H |- *.
  repeat match type of H with _ && _ = true => apply andb_true_iff in H as [H ?] end.
  repeat match goal with H : eqb _ _ = true |- _ => apply eqb_prop in H end.
  repeat split; try lia; assumption.
Qed.

(** The bits of [reverse]. *)
Lemma reverse_bits y :
  u64 y ->
  u64 (reverse y) /\ forall i, 0 <= i < 64 -> Z.testbit (reverse y) i = Z.testbit y (63 - i).
Proof.
  intros Hy. rewrite reverse_stages. cbv zeta. split.
  - repeat apply u64_lor; try apply u64_wrap64.
    + rewrite Z.land_comm. apply u64_land. unfold u64, U64. simpl. lia.
    + apply u64_shr64; [|lia]. apply u64_swap_stage. unfold u64, U64. simpl. lia.
  - intros i Hi.
    destruct (reverse_index_facts i Hi) as ((R4 & R3 & R2 & R1) & (M4 & M3 & M2 & M1) & E).
    cbv zeta in *.
    rewrite word_swap_bit by (done || apply u64_swap_stage; unfold u64, U64; simpl; lia).
    rewrite !swap_stage_bit by (done || lia). by rewrite E.
Qed.

(** X2.  [reverse] mirrors a 64-bit board: bit [i] of the result is bit
    [63 - i] of the argument, so reversing twice gives the board back. *)
Theorem reverse_mirrors (x : Bitboard) :
  u64 x ->
  u64 (reverse x) /\
  (forall i, 0 <= i < 64 -> Z.testbit (reverse x) i = Z.testbit x (63 - i)) /\
  reverse (reverse x) = x.
Proof.
  intros Hx.
  destruct (reverse_bits x Hx) as [Hu Hb]. split; [done|]. split; [done|].
  destruct (reverse_bits (reverse x) Hu) as [Hu2 Hb2].
  apply u64_eq; [done..|]. intros i Hi.
  rewrite Hb2, Hb by lia. f_equal. lia.
Qed.

Lemma reverse_mirrors_witness :
  u64 (reverse 1) /\
  (forall i, 0 <= i < 64 -> Z.testbit (reverse 1) i = Z.testbit 1 (63 - i)) /\
  reverse (reverse 1) = 1.
Proof. apply (reverse_mirrors 1). unfold u64, U64. simpl. lia. Defined.

(** ** [poplsb] and the loops over a bitboard *)

(** [x & (x - 1)] keeps a bit of [x] exactly when [x] has a lower bit. *)
Lemma land_pred_bit i :
  0 <= i -> forall x, 0 < x ->
  Z.testbit (Z.land x (x - 1)) i = Z.testbit x i && negb (x mod 2 ^ i =? 0).
Proof.
  intros Hi. pattern i. apply natlike_ind; [| |exact Hi]; clear i Hi.
  - intros x Hx. rewrite Z.land_spec, !Z.bit0_odd, Z.mod_1_r. simpl.
    replace (x - 1) with (Z.pred x) by lia. rewrite Z.odd_pred.
    rewrite <- Z.negb_odd. by destruct (Z.odd x).
  - intros i Hi IH x Hx.
    rewrite <- !Z.div2_bits by done.
    rewrite <- (Z.div2_div (Z.land _ _)), Z.div2_spec, Z.shiftr_land, <- !Z.div2_spec, !Z.div2_div.
    rewrite Z.pow_succ_r by done.
    destruct (Z.odd x) eqn:Eo.
    + assert (x = 2 * (x / 2) + 1) as Ex.
      { pose proof (Zmod_odd x) as H. rewrite Eo in H. cbv iota in H.
        pose proof (Z.div_mod x 2 ltac:(lia)). lia. }
      replace ((x - 1) / 2) with (x / 2)
        by (apply (Z.div_unique (x - 1) 2 (x / 2) 0); lia).
      rewrite Z.land_diag.
      destruct (Z.eqb_spec (x mod (2 * 2 ^ i)) 0) as [E|_]; [|by rewrite andb_true_r].
      pose proof (Z.div_mod x (2 * 2 ^ i)) as Hd. rewrite E in Hd.
      assert (0 < 2 ^ i) by (apply Z.pow_pos_nonneg; lia).
      specialize (Hd ltac:(lia)).
      rewrite <- Z.mul_assoc in Hd.
      set (z := 2 ^ i * (x / (2 * 2 ^ i))) in *. exfalso. lia.
    + assert (x = 2 * (x / 2)) as Ex.
      { pose proof (Zmod_odd x) as H. rewrite Eo in H. cbv iota in H.
        pose proof (Z.div_mod x 2 ltac:(lia)). lia. }
      replace ((x - 1) / 2) with (x / 2 - 1)
        by (apply (Z.div_unique (x - 1) 2 (x / 2 - 1) 1); lia).
      rewrite IH by lia.
      assert (x mod (2 * 2 ^ i) = 2 * ((x / 2) mod 2 ^ i)) as Em.
      { rewrite Ex at 1. apply Z.mul_mod_distr_l; [|lia]. apply Z.pow_nonzero; lia. }
      rewrite Em.
      destruct (Z.eqb_spec ((x / 2) mod 2 ^ i) 0), (Z.eqb_spec (2 * ((x / 2) mod 2 ^ i)) 0);
        try done; lia.
Qed.

Lemma mod_pow2_zero x i :
  0 <= i -> (x mod 2 ^ i = 0 <-> forall j, 0 <= j < i -> Z.testbit x j = false).
Proof.
  intros Hi. split.
  - intros H j Hj. rewrite <- (Z.mod_pow2_bits_low x i j) by lia. by rewrite H, Z.bits_0.
  - intros H. apply Z.bits_inj'. intros j Hj. rewrite Z.bits_0, Z.testbit_mod_pow2 by done.
    destruct (Z.ltb_spec j i); [|done]. rewrite H by lia. done.
Qed.

Lemma poplsb_rest_pred bb : u64 bb -> bb <> 0 -> poplsb_rest bb = Z.land bb (bb - 1).
Proof.
  intros [H0 H1] Hnz. unfold poplsb_rest, sub64, wrap64. by rewrite Z.mod_small by lia.
Qed.

Lemma poplsb_rest_bit bb i :
  u64 bb -> bb <> 0 -> 0 <= i ->
  Z.testbit (poplsb_rest bb) i = Z.testbit bb i && negb (i =? bsf bb).
Proof.
  intros Hu Hnz Hi. destruct (bsf_spec bb Hu Hnz) as (Hr & Hb & Hlow).
  rewrite poplsb_rest_pred, land_pred_bit by (done || (destruct Hu; lia)).
  destruct (Z.testbit bb i) eqn:E; [|done]. simpl. f_equal.
  destruct (Z.eqb_spec i (bsf bb)) as [->|Hne].
  - apply Z.eqb_eq. apply mod_pow2_zero; [lia|]. exact Hlow.
  - apply Z.eqb_neq. intros H0. rewrite mod_pow2_zero in H0 by done.
    assert (bsf bb < i).
    { destruct (Z.lt_ge_cases i (bsf bb)) as [Hlt|Hge]; [|lia].
      rewrite Hlow in E by lia. done. }
    rewrite H0 in Hb by lia. done.
Qed.

(** X3.  On a board that is not empty, [poplsb] returns its lowest square,
    a square below 64, and leaves the board without that one square. *)
Theorem poplsb_lowest (bb : Bitboard) :
  u64 bb -> bb <> 0 ->
  0 <= (poplsb bb).1 < 64 /\
  Z.testbit bb (poplsb bb).1 = true /\
  (forall j, 0 <= j < (poplsb bb).1 -> Z.testbit bb j = false) /\
  u64 (poplsb bb).2 /\
  (forall i, 0 <= i ->
     Z.testbit (poplsb bb).2 i = Z.testbit bb i && negb (i =? (poplsb bb).1)).
Proof.
  intros Hu Hnz. destruct (bsf_spec bb Hu Hnz) as (Hr & Hb & Hlow). simpl.
  split; [done|]. split; [done|]. split; [done|]. split; [by apply u64_poplsb_rest|].
  intros i Hi. by apply poplsb_rest_bit.
Qed.

Lemma poplsb_lowest_witness :
  0 <= (poplsb 40).1 < 64 /\
  Z.testbit 40 (poplsb 40).1 = true /\
  (forall j, 0 <= j < (poplsb 40).1 -> Z.testbit 40 j = false) /\
  u64 (poplsb 40).2 /\
  (forall i, 0 <= i ->
     Z.testbit (poplsb 40).2 i = Z.testbit 40 i && negb (i =? (poplsb 40).1)).
Proof. apply (poplsb_lowest 40); [unfold u64, U64; simpl; lia|discriminate]. Defined.

Lemma squares_from_filter (f g : Square -> bool) j n a :
  Z.of_nat a <= j < Z.of_nat (a + n) ->
  (forall k, Z.of_nat a <= k < j -> f k = false) -> f j = true ->
  (forall k, g k = f k && negb (k =? j)) ->
  List.filter f (map Z.of_nat (seq a n)) = j :: List.filter g (map Z.of_nat (seq a n)).
Proof.
  revert a. induction n as [|n IH]; intros a Hj Hlow Hfj Hg; [lia|].
  simpl. destruct (Z.eq_dec (Z.of_nat a) j) as [E|E].
  - rewrite E, Hfj, Hg, Hfj, Z.eqb_refl. simpl. f_equal.
    apply List.filter_ext_in. intros k Hk. apply in_map_iff in Hk as (m & <- & Hm).
    apply in_seq in Hm. rewrite Hg. destruct (Z.eqb_spec (Z.of_nat m) j); [lia|].
    by rewrite andb_true_r.
  - rewrite Hg, (Hlow (Z.of_nat a)) by lia. simpl.
    apply IH; [lia| |done..]. intros k Hk. apply Hlow. lia.
Qed.

Lemma set_squares_cons bb :
  u64 bb -> bb <> 0 -> set_squares bb = bsf bb :: set_squares (poplsb_rest bb).
Proof.
  intros Hu Hnz. destruct (bsf_spec bb Hu Hnz) as (Hr & Hb & Hlow).
  unfold set_squares, set_squares_of, squares.
  apply squares_from_filter; [simpl; lia| |done|].
  - intros k Hk. apply Hlow. lia.
  - intros k. destruct (Z.le_gt_cases 0 k).
    + by apply poplsb_rest_bit.
    + by rewrite !Z.testbit_neg_r by lia.
Qed.

Lemma set_squares_zero : set_squares 0 = [].
Proof. reflexivity. Qed.

Lemma set_squares_length bb : (length (set_squares bb) <= 64)%nat.
Proof.
  unfold set_squares, set_squares_of. etransitivity; [apply List.filter_length_le|].
  apply Nat.eq_le_incl. reflexivity.
Qed.

Lemma fold_left_step {St : Type} (body : Square -> St -> St) (a : Square) l s :
  fold_left (fun s sq => body sq s) (a :: l) s
  = fold_left (fun s sq => body sq s) l (body a s).
Proof. reflexivity. Qed.

Lemma pop_loop_fold {St : Type} (body : Square -> St -> St) fuel :
  forall bb s, u64 bb -> (length (set_squares bb) <= fuel)%nat ->
  pop_loop fuel bb body s = fold_left (fun s sq => body sq s) (set_squares bb) s.
Proof.
  induction fuel as [|k IH]; intros bb s Hu Hlen.
  - destruct (set_squares bb) as [|a l] eqn:E.
    + reflexivity.
    + rewrite length_cons in Hlen. lia.
  - rewrite pop_loop_S. destruct (nz bb) eqn:E.
    + apply nz_true in E. pose proof (set_squares_cons bb Hu E) as Hc.
      rewrite Hc in Hlen. rewrite length_cons in Hlen.
      rewrite Hc, fold_left_step.
      apply IH; [by apply u64_poplsb_rest|lia].
    + apply nz_false in E. rewrite E, set_squares_zero. reflexivity.
Qed.

(** X4.  The loop [while (bb) { sq = poplsb(bb); body }] runs its body
    once for every square of the board, lowest square first, and is over
    within 64 rounds. *)
Theorem pop_loop_squares {St : Type} (body : Square -> St -> St) (bb : Bitboard) (s : St) :
  u64 bb ->
  pop_loop 64 bb body s = fold_left (fun s sq => body sq s) (set_squares bb) s.
Proof. intros Hu. apply pop_loop_fold; [done|apply set_squares_length]. Qed.

Lemma pop_loop_squares_witness :
  pop_loop 64 40 (fun sq l => sq :: l) [] = fold_left (fun l sq => sq :: l) (set_squares 40) [].
Proof. apply (pop_loop_squares (fun sq l => sq :: l) 40 []). unfold u64, U64. simpl. lia. Defined.

(** ** [placePiece] and [removePiece] *)

Lemma bbAt_lookup b p :
  length (PiecesBB b) = 12%nat -> 0 <= p < 12 ->
  PiecesBB b !! Z.to_nat p = Some (bbAt b p).
Proof.
  intros Hl Hp. unfold bbAt, rd. destruct (Z.ltb_spec p 0); [lia|].
  unfold Bitboard in *. destruct (_ !! Z.to_nat p) as [x|] eqn:E; [done|].
  apply lookup_ge_None_1 in E. lia.
Qed.

Lemma in_bounds p sq :
  0 <= p < 12 -> 0 <= sq < 64 -> (0 <=? p) && (p <? 12) && (0 <=? sq) && (sq <? 64) = true.
Proof.
  intros Hp Hsq. repeat (apply andb_true_intro; split);
    first [apply Z.leb_le; lia|apply Z.ltb_lt; lia].
Qed.

(** X5.  [placePiece] on a board with arrays of the right size, for one of
    the twelve pieces and one of the 64 squares: the square then holds the
    piece, the piece's bitboard has gained the square, and every other
    square and every other bitboard is as before. *)
Theorem placePiece_lookup (b : Board) (p : Piece) (sq : Square) :
  wf_arrays b -> 0 <= p < 12 -> 0 <= sq < 64 ->
  exists b', placePiece p sq b = Some b' /\
    getPiece b' sq = p /\
    (forall sq', sq' <> sq -> getPiece b' sq' = getPiece b sq') /\
    bbAt b' p = Z.lor (bbAt b p) (bit sq) /\
    (forall q, q <> p -> bbAt b' q = bbAt b q) /\
    wf_arrays b'.
Proof.
  intros Hwf Hp Hsq. pose proof Hwf as (Hl1 & Hl2 & HF).
  unfold placePiece. rewrite in_bounds, SQUARE_BB_bit by done.
  eexists. split; [reflexivity|]. unfold Bitboard in *.
  split; [|split; [|split; [|split]]].
  - unfold getPiece. simpl. destruct (Z.ltb_spec sq 0); [lia|].
    rewrite list_lookup_insert_eq by lia. done.
  - intros sq' Hne. unfold getPiece. simpl. destruct (Z.ltb_spec sq' 0); [done|].
    rewrite list_lookup_insert_ne by lia. done.
  - unfold bbAt at 1. unfold rd. simpl. destruct (Z.ltb_spec p 0); [lia|].
    rewrite list_lookup_insert_eq by lia. done.
  - intros q Hne. unfold bbAt, rd. simpl. destruct (Z.ltb_spec q 0); [done|].
    rewrite list_lookup_insert_ne by lia. done.
  - split; [|split]; simpl.
    + by rewrite length_insert.
    + by rewrite length_insert.
    + apply Forall_insert; [done|]. apply u64_lor; [by apply wf_arrays_u64|apply u64_bit].
Qed.

Lemma placePiece_lookup_witness :
  exists b', placePiece WhiteQueen 28 pos_kings = Some b' /\
    getPiece b' 28 = WhiteQueen /\
    (forall sq', sq' <> 28 -> getPiece b' sq' = getPiece pos_kings sq') /\
    bbAt b' WhiteQueen = Z.lor (bbAt pos_kings WhiteQueen) (bit 28) /\
    (forall q, q <> WhiteQueen -> bbAt b' q = bbAt pos_kings q) /\
    wf_arrays b'.
Proof.
  apply (placePiece_lookup pos_kings WhiteQueen 28).
  - apply wf_arraysb_spec. vm_compute. reflexivity.
  - vm_compute. split; discriminate || reflexivity.
  - vm_compute. split; discriminate || reflexivity.
Defined.

(** X6.  Placing a piece on an empty square and removing it again gives
    the board back. *)
Theorem place_remove_round_trip (b : Board) (p : Piece) (sq : Square) :
  wf_arrays b -> 0 <= p < 12 -> 0 <= sq < 64 ->
  getPiece b sq = NoPiece -> Z.testbit (bbAt b p) sq = false ->
  (b1 ← placePiece p sq b; removePiece p sq b1) = Some b.
Proof.
  intros Hwf Hp Hsq He Hb. pose proof Hwf as (Hl1 & Hl2 & HF).
  unfold placePiece. rewrite in_bounds by done. simpl.
  unfold removePiece. rewrite in_bounds, SQUARE_BB_bit by done. f_equal.
  unfold Bitboard in *. apply Board_ext; simpl; try reflexivity.
  - rewrite list_insert_insert_eq.
    unfold bbAt at 1. unfold rd. simpl. destruct (Z.ltb_spec p 0); [lia|].
    unfold Bitboard in *. rewrite list_lookup_insert_eq by lia. simpl.
    rewrite set_clear by (try done; try lia; by apply wf_arrays_u64).
    apply list_insert_id. by apply bbAt_lookup.
  - by apply board_place_remove.
Qed.

Lemma place_remove_round_trip_witness :
  (b1 ← placePiece WhiteQueen 28 pos_kings; removePiece WhiteQueen 28 b1) = Some pos_kings.
Proof.
  apply (place_remove_round_trip pos_kings WhiteQueen 28).
  - apply wf_arraysb_spec. vm_compute. reflexivity.
  - vm_compute. split; discriminate || reflexivity.
  - vm_compute. split; discriminate || reflexivity.
  - vm_compute. reflexivity.
  - vm_compute. reflexivity.
Defined.

(** ** The side, the en-passant square and the rights after [makemove] *)

Lemma removePiece_ep p sq b b' :
  removePiece p sq b = Some b' -> enpassantSquare b' = enpassantSquare b.
Proof. unfold removePiece. case_match; intros [= <-]; done. Qed.

Lemma placePiece_ep p sq b b' :
  placePiece p sq b = Some b' -> enpassantSquare b' = enpassantSquare b.
Proof. unfold placePiece. case_match; intros [= <-]; done. Qed.

Lemma mm_pieces_ep m b b' : mm_pieces m b = Some b' -> enpassantSquare b' = enpassantSquare b.
Proof.
  unfold mm_pieces. intros H.
  opt_steps;
    repeat match goal with
    | H : removePiece _ _ _ = Some _ |- _ => apply removePiece_ep in H
    | H : placePiece _ _ _ = Some _ |- _ => apply placePiece_ep in H
    end; congruence.
Qed.

(** X7.  After [makemove] the other side is to move, and the en-passant
    square is either none or the square that a pawn of the mover has just
    crossed in a step of two ranks: the square of the position before is
    never kept. *)
Theorem makemove_turn_and_enpassant (b : Board) (m : Move) (b' : Board) :
  makemove b m = Some b' ->
  sideToMove b' = opp (sideToMove b) /\
  (enpassantSquare b' = NO_SQ \/
   (piece m = makePiece Pawn (sideToMove b) /\ Z.abs (source m - target m) = 16 /\
    enpassantSquare b' = (target m + ep_offset (sideToMove b)) mod 256)).
Proof.
  unfold makemove. intros H. opt_steps. split; [reflexivity|].
  match goal with
  | Hp : mm_pieces _ _ = Some _ |- _ => apply mm_pieces_ep in Hp; simpl; rewrite Hp
  end.
  unfold mm_update_ep.
  destruct (_ && _) eqn:E; [|by left].
  apply andb_true_iff in E as [E1 E2]. apply Z.eqb_eq in E1, E2.
  destruct (nz _); [|by left]. right. done.
Qed.

Lemma makemove_turn_and_enpassant_witness :
  sideToMove pos_after_e2e4 = opp (sideToMove pos_start) /\
  (enpassantSquare pos_after_e2e4 = NO_SQ \/
   (piece move_e2e4 = makePiece Pawn (sideToMove pos_start) /\
    Z.abs (source move_e2e4 - target move_e2e4) = 16 /\
    enpassantSquare pos_after_e2e4
    = (target move_e2e4 + ep_offset (sideToMove pos_start)) mod 256)).
Proof. apply (makemove_turn_and_enpassant pos_start move_e2e4). vm_compute. reflexivity. Defined.

Lemma land_clear_two x a c :
  Z.land (Z.land (Z.land x (Z.lnot a)) (Z.lnot c)) (Z.lor a c) = 0.
Proof.
  apply Z.bits_inj'. intros n Hn.
  rewrite !Z.land_spec, Z.lor_spec, !Z.lnot_spec, Z.bits_0 by lia.
  by destruct (Z.testbit x n), (Z.testbit a n), (Z.testbit c n).
Qed.

Lemma mm_king_rights_clears m stm b :
  piece m = makePiece King stm ->
  Z.land (castlingRights (mm_king_rights m stm b)) (rights_of_color stm) = 0.
Proof.
  intros Hp. unfold mm_king_rights. rewrite Hp, Z.eqb_refl.
  destruct stm; simpl; apply land_clear_two.
Qed.

(** X8.  [makemove] never adds a castling right, and a move of the king
    takes both rights of the mover away. *)
Theorem makemove_castlingRights (b : Board) (m : Move) (b' : Board) :
  makemove b m = Some b' ->
  Z.land (castlingRights b') (castlingRights b) = castlingRights b' /\
  (piece m = makePiece King (sideToMove b) ->
   Z.land (castlingRights b') (rights_of_color (sideToMove b)) = 0).
Proof.
  intros H. split; [exact (makemove_rights_within b m b' H)|].
  intros Hk. revert H. unfold makemove. intros H. opt_steps.
  repeat match goal with
  | H : mm_enpassant _ _ _ = Some _ |- _ => apply mm_enpassant_rights in H
  | H : mm_pieces _ _ = Some _ |- _ => apply mm_pieces_rights in H
  end.
  match goal with
  | He : rights_within (mm_rook_capture m ?s (mm_rook_move m (mm_king_rights m ?s ?x))) ?y,
    Hp : rights_within (mm_update_ep _ _ ?y) ?z |- _ =>
      assert (rights_within (mm_king_rights m s x) z) as K
        by (eapply rights_within_trans; [apply mm_rook_move_rights|];
            eapply rights_within_trans; [apply mm_rook_capture_rights|];
            eapply rights_within_trans; [exact He|];
            eapply rights_within_trans; [apply mm_update_ep_rights|exact Hp]);
      pose proof (mm_king_rights_clears m s x Hk) as E;
      unfold rights_within in K; cbn [castlingRights set_sideToMove];
      change (castlingRights (set_sideToMove (opp s) z)) with (castlingRights z);
      rewrite <- K, <- Z.land_assoc; simpl in E; cbv zeta in E
  end.
  match goal with
  | E : Z.land ?a ?r = 0 |- Z.land _ (Z.land ?a' ?r') = 0 =>
      change (Z.land a' r') with (Z.land a r); rewrite E; apply Z.land_0_r
  end.
Qed.

Lemma makemove_castlingRights_witness :
  Z.land (castlingRights pos_kings_after) (castlingRights pos_kings)
  = castlingRights pos_kings_after /\
  (piece move_h8g7 = makePiece King (sideToMove pos_kings) ->
   Z.land (castlingRights pos_kings_after) (rights_of_color (sideToMove pos_kings)) = 0).
Proof. apply (makemove_castlingRights pos_kings move_h8g7). vm_compute. reflexivity. Defined.

(** ** The FEN parser at the edges of its input *)

Lemma split_tokens_no_space tail : forall token tokens,
  no_space tail = true -> split_tokens tail token tokens = tokens.
Proof.
  induction tail as [|ch rest IH]; intros token tokens H; [done|].
  simpl in *. apply andb_true_iff in H as [Hc Hr].
  destruct (Ascii.eqb ch " "); [done|]. by apply IH.
Qed.

Lemma split_tokens_tail FEN tail : forall token tokens,
  no_space tail = true ->
  split_tokens (FEN ++ String " " tail) token tokens
  = split_tokens (FEN ++ String " " EmptyString) token tokens.
Proof.
  induction FEN as [|ch rest IH]; intros token tokens H; simpl.
  - destruct (negb _); by rewrite split_tokens_no_space.
  - destruct (Ascii.eqb ch " "); [destruct (negb _)|]; by apply IH.
Qed.

Lemma load_castling_rights s : forall b,
  castlingRights (load_castling s b) = Z.lor (castlingRights b) (letters_rights s).
Proof.
  induction s as [|ch rest IH]; intros b.
  - simpl. unfold letters_rights. simpl. by rewrite Z.lor_0_r.
  - cbn [load_castling]. rewrite IH. clear IH.
    assert (forall c, Ascii.eqb ch c = false -> has_letter c (String ch rest) = has_letter c rest)
      as Hskip by (intros c Hc; simpl; by rewrite Hc).
    destruct (Ascii.eqb ch "K") eqn:EK;
      [apply Ascii.eqb_eq in EK; subst ch|
       destruct (Ascii.eqb ch "Q") eqn:EQ;
       [apply Ascii.eqb_eq in EQ; subst ch|
        destruct (Ascii.eqb ch "k") eqn:Ek;
        [apply Ascii.eqb_eq in Ek; subst ch|
         destruct (Ascii.eqb ch "q") eqn:Eq';
         [apply Ascii.eqb_eq in Eq'; subst ch|]]]].
    5: { unfold letters_rights. by rewrite !Hskip. }
    all: cbn [castlingRights set_castlingRights]; rewrite <- Z.lor_assoc; f_equal;
      unfold letters_rights; cbn [has_letter]; clear Hskip;
      destruct (has_letter "K" rest), (has_letter "Q" rest),
               (has_letter "k" rest), (has_letter "q" rest); reflexivity.
Qed.

Lemma load_pieces_rights pieces : forall square b b',
  load_pieces pieces square b = Some b' -> castlingRights b' = castlingRights b.
Proof.
  induction pieces as [|ch rest IH]; intros square b b' H; simpl in H.
  - by apply (inj Some) in H; subst b'.
  - destruct (charToPiece ch).
    + apply bind_Some in H as (b1 & H1 & H). apply IH in H.
      apply placePiece_rights in H1. congruence.
    + destruct (Ascii.eqb ch "/"); [by apply IH in H|].
      destruct (isdigit ch); by apply IH in H.
Qed.

Section ParserEdges.

Variable RANDOM_ARRAY : Z -> Z.
Variable hash_piece : Piece -> Z.
Variable castlingKey : Z -> Z.

Notation parseFEN := (parseFEN RANDOM_ARRAY hash_piece castlingKey).

(** X9.  The parser pushes a field when a space ends it, so whatever
    follows the last space of the text is never read: a FEN and the same
    FEN cut after its last space parse alike. *)
Theorem parseFEN_ignores_tail (b : Board) (FEN tail : string) :
  no_space tail = true ->
  parseFEN b (FEN ++ String " " tail) = parseFEN b (FEN ++ String " " EmptyString).
Proof. intros H. unfold parseFEN. by rewrite split_tokens_tail. Qed.

(** X10.  With fewer than four fields ended by a space the parser is left
    with empty strings and reads the second character of the empty
    en-passant field: the call has no defined result. *)
Theorem parseFEN_too_few_fields (b : Board) (FEN : string) :
  (length (split_tokens FEN EmptyString []) < 4)%nat -> parseFEN b FEN = None.
Proof.
  intros H. unfold parseFEN.
  destruct (split_tokens FEN EmptyString []) as [|t0 [|t1 [|t2 [|t3 ts]]]];
    [reflexivity..|simpl in H; lia].
Qed.

(** X11.  The rights that [parseFEN] sets are those whose letter occurs
    in the castling field, whatever the order, the repetitions and the
    other characters of the field. *)
Theorem parseFEN_castlingRights (b : Board) (FEN : string) (b' : Board)
    (t0 t1 t2 t3 : string) (ts : list string) :
  split_tokens FEN EmptyString [] = t0 :: t1 :: t2 :: t3 :: ts ->
  parseFEN b FEN = Some b' ->
  castlingRights b' = letters_rights t2.
Proof.
  intros Ht H. unfold parseFEN in H. rewrite Ht in H. cbv zeta in H.
  apply bind_Some in H as (b1 & H1 & H).
  apply bind_Some in H as (b2 & H2 & H).
  apply (inj Some) in H. subst b'.
  unfold hash. cbv zeta. cbn [castlingRights set_hashKey].
  rewrite load_castling_rights.
  assert (castlingRights b2 = 0) as ->; [|apply Z.lor_0_l].
  assert (castlingRights b1 = 0) as E1.
  { by apply load_pieces_rights in H1. }
  destruct (negb _); [|by apply (inj Some) in H2; subst b2].
  destruct t3 as [|f [|r rest]]; [done|..]; by apply (inj Some) in H2; subst b2.
Qed.

End ParserEdges.

Lemma parseFEN_ignores_tail_witness :
  no_space "10" = true /\
  fen_board ("4k3/8/8/8/8/8/8/4K3 w - - 5" ++ String " " "10")
  = fen_board ("4k3/8/8/8/8/8/8/4K3 w - - 5" ++ String " " EmptyString).
Proof.
  split; [reflexivity|].
  apply (parseFEN_ignores_tail sample_RANDOM_ARRAY sample_hash_piece sample_castlingKey
           Board_blank "4k3/8/8/8/8/8/8/4K3 w - - 5" "10").
  reflexivity.
Defined.

Lemma parseFEN_too_few_fields_witness : fen_board "4k3/8/8/8/8/8/8/4K3 w - -" = None.
Proof.
  apply (parseFEN_too_few_fields sample_RANDOM_ARRAY sample_hash_piece sample_castlingKey
           Board_blank "4k3/8/8/8/8/8/8/4K3 w - -").
  vm_compute. lia.
Defined.

Lemma parseFEN_castlingRights_witness : castlingRights pos_rooks = letters_rights "Kk".
Proof.
  apply (parseFEN_castlingRights sample_RANDOM_ARRAY sample_hash_piece sample_castlingKey
           Board_blank fen_rooks pos_rooks "4k2r/8/8/8/8/8/8/4K2R" "w" "Kk" "-" ["0"%string]).
  - vm_compute. reflexivity.
  - vm_compute. reflexivity.
Defined.

(** ** Slider attacks against the walk along the ray *)

(** *** Subtraction, bit by bit *)

Lemma pred_bit i :
  0 <= i -> forall y, Z.testbit (y - 1) i = xorb (Z.testbit y i) (y mod 2 ^ i =? 0).
Proof.
  intros Hi. pattern i. apply natlike_ind; [| |exact Hi]; clear i Hi.
  - intros y. rewrite !Z.bit0_odd, Z.mod_1_r. simpl.
    replace (y - 1) with (Z.pred y) by lia. rewrite Z.odd_pred, <- Z.negb_odd.
    by destruct (Z.odd y).
  - intros i Hi IH y.
    rewrite <- !Z.div2_bits by done. rewrite Z.pow_succ_r by done.
    pose proof (Zmod_odd y) as Hm. pose proof (Z.div_mod y 2 ltac:(lia)) as Hd.
    destruct (Z.odd y) eqn:Eo.
    + replace ((y - 1) / 2) with (y / 2)
        by (apply (Z.div_unique (y - 1) 2 (y / 2) 0); lia).
      destruct (Z.eqb_spec (y mod (2 * 2 ^ i)) 0) as [E|_]; [|by rewrite xorb_false_r].
      exfalso. pose proof (Z.div_mod y (2 * 2 ^ i)) as Hd2. rewrite E in Hd2.
      assert (0 < 2 ^ i) by (apply Z.pow_pos_nonneg; lia).
      specialize (Hd2 ltac:(lia)). rewrite <- Z.mul_assoc in Hd2.
      set (z := 2 ^ i * (y / (2 * 2 ^ i))) in *. lia.
    + replace ((y - 1) / 2) with (y / 2 - 1)
        by (apply (Z.div_unique (y - 1) 2 (y / 2 - 1) 1); lia).
      rewrite IH.
      assert (y mod (2 * 2 ^ i) = 2 * ((y / 2) mod 2 ^ i)) as Em.
      { replace y with (2 * (y / 2)) at 1 by lia.
        apply Z.mul_mod_distr_l; [|lia]. apply Z.pow_nonzero; lia. }
      rewrite Em.
      destruct (Z.eqb_spec ((y / 2) mod 2 ^ i) 0), (Z.eqb_spec (2 * ((y / 2) mod 2 ^ i)) 0);
        try done; lia.
Qed.

Lemma sub_pow2_bit o a j :
  0 <= a -> 0 <= j ->
  Z.testbit (o - 2 ^ a) j
  = if j <? a then Z.testbit o j
    else xorb (Z.testbit o j) (Z.shiftr o a mod 2 ^ (j - a) =? 0).
Proof.
  intros Ha Hj. assert (2 ^ a <> 0) as Hp by (apply Z.pow_nonzero; lia).
  destruct (Z.ltb_spec j a) as [Hlt|Hge].
  - rewrite <- (Z.mod_pow2_bits_low (o - 2 ^ a) a j) by lia.
    replace (o - 2 ^ a) with (o + (-1) * 2 ^ a) by lia.
    rewrite Z.mod_add by done. apply Z.mod_pow2_bits_low. lia.
  - replace j with ((j - a) + a) at 1 2 by lia.
    rewrite <- !Z.shiftr_spec by lia.
    rewrite (Z.shiftr_div_pow2 (o - 2 ^ a)) by done.
    replace (o - 2 ^ a) with (o + (-1) * 2 ^ a) by lia.
    rewrite Z.div_add by done. rewrite <- Z.shiftr_div_pow2 by done.
    replace (Z.shiftr o a + -1) with (Z.shiftr o a - 1) by lia.
    apply pred_bit. lia.
Qed.

Lemma squares_range s : In s squares -> 0 <= s < 64.
Proof.
  unfold squares. intros H. apply in_map_iff in H as (n & <- & Hn).
  apply in_seq in Hn. lia.
Qed.

Lemma span_clear_spec o lo hi :
  span_clear o lo hi = true
  <-> forall s, 0 <= s < 64 -> lo < s < hi -> Z.testbit o s = false.
Proof.
  unfold span_clear. rewrite forallb_forall. split.
  - intros H s Hs Hb. specialize (H s (squares_In s Hs)).
    destruct (Z.ltb_spec lo s), (Z.ltb_spec s hi); try lia. simpl in H.
    by destruct (Z.testbit o s).
  - intros H s Hs. apply squares_range in Hs.
    destruct (Z.ltb_spec lo s), (Z.ltb_spec s hi); try done. simpl.
    rewrite H by lia. done.
Qed.

Lemma shiftr_span o a j :
  0 <= a -> a <= j -> j <= 64 ->
  (Z.shiftr o a mod 2 ^ (j - a) =? 0) = span_clear o (a - 1) j.
Proof.
  intros Ha Haj Hj. apply eq_iff_eq_true.
  rewrite Z.eqb_eq, mod_pow2_zero, span_clear_spec by lia. split.
  - intros H s Hs Hb. specialize (H (s - a) ltac:(lia)).
    rewrite Z.shiftr_spec in H by lia. by replace (s - a + a) with s in H by lia.
  - intros H i Hi. rewrite Z.shiftr_spec by lia. apply H; lia.
Qed.

(** The upward half of [hyp_quint]: [o - 2r]. *)
Lemma sub_up_bit o k j :
  u64 o -> 0 <= k < 64 -> 0 <= j < 64 ->
  Z.testbit (sub64 o (mul64 (bit k) 2)) j
  = if j <=? k then Z.testbit o j else xorb (Z.testbit o j) (span_clear o k j).
Proof.
  intros Ho Hk Hj. unfold sub64, mul64. rewrite bit_pow2 by done.
  rewrite testbit_wrap64. destruct (Z.ltb_spec j 64); [|lia]. simpl.
  replace (2 ^ k * 2) with (2 ^ (k + 1)) by (rewrite Z.pow_add_r by lia; lia).
  destruct (Z.eq_dec k 63) as [->|Hne].
  - change (wrap64 (2 ^ (63 + 1))) with 0. rewrite Z.sub_0_r.
    destruct (Z.leb_spec j 63); [done|lia].
  - assert (wrap64 (2 ^ (k + 1)) = 2 ^ (k + 1)) as ->.
    { unfold wrap64, U64. apply Z.mod_small. split; [apply Z.pow_nonneg; lia|].
      apply Z.pow_lt_mono_r; lia. }
    rewrite sub_pow2_bit by lia.
    destruct (Z.ltb_spec j (k + 1)), (Z.leb_spec j k); try lia; [done|].
    rewrite shiftr_span by lia. by replace (k + 1 - 1) with k by lia.
Qed.

Lemma reverse_bit_sq k : 0 <= k < 64 -> reverse (bit k) = bit (63 - k).
Proof.
  intros Hk. destruct (reverse_bits (bit k) (u64_bit k)) as [Hu Hb].
  apply u64_eq; [done|apply u64_bit|]. intros i Hi.
  rewrite Hb, !testbit_bit by lia.
  destruct (Z.eqb_spec (63 - i) k), (Z.eqb_spec i (63 - k)), (Z.ltb_spec (63 - i) 64),
    (Z.ltb_spec i 64); try done; lia.
Qed.

(** The downward half of [hyp_quint]: [reverse (reverse o - 2 * reverse r)]. *)
Lemma sub_down_bit o k j :
  u64 o -> 0 <= k < 64 -> 0 <= j < 64 ->
  Z.testbit (reverse (sub64 (reverse o) (mul64 (reverse (bit k)) 2))) j
  = if k <=? j then Z.testbit o j else xorb (Z.testbit o j) (span_clear o j k).
Proof.
  intros Ho Hk Hj. destruct (reverse_bits o Ho) as [Hu Hb].
  destruct (reverse_bits (sub64 (reverse o) (mul64 (reverse (bit k)) 2)) (u64_wrap64 _))
    as [_ Hb2].
  rewrite Hb2, reverse_bit_sq, sub_up_bit by (done || lia).
  rewrite Hb by lia. replace (63 - (63 - j)) with j by lia.
  destruct (Z.leb_spec (63 - j) (63 - k)), (Z.leb_spec k j); try lia; [done|].
  f_equal. apply eq_iff_eq_true. rewrite !span_clear_spec. split.
  - intros HH s Hs Hr. specialize (HH (63 - s) ltac:(lia) ltac:(lia)).
    rewrite Hb in HH by lia. by replace (63 - (63 - s)) with s in HH by lia.
  - intros HH s Hs Hr. rewrite Hb by lia. apply HH; lia.
Qed.

(** [hyp_quint] bit by bit: the squares of the line, other than the
    square itself, with no piece of the line strictly between. *)
Lemma hyp_quint_bit l occ k j :
  u64 (line_mask l k) -> 0 <= k < 64 -> 0 <= j < 64 ->
  Z.testbit (hyp_quint k occ (line_mask l k)) j = line_bit l occ k j.
Proof.
  intros Hm Hk Hj. unfold hyp_quint, line_bit. rewrite SQUARE_BB_bit by done.
  generalize dependent (line_mask l k). intros m Hm.
  assert (u64 (Z.land m occ)) as Ho by (by apply u64_land).
  rewrite Z.land_spec, Z.lxor_spec, sub_up_bit, sub_down_bit by done.
  rewrite (andb_comm _ (Z.testbit m j)), <- andb_assoc. f_equal.
  destruct (Z.leb_spec j k), (Z.leb_spec k j), (Z.eqb_spec j k); try lia; simpl.
  - apply xorb_nilpotent.
  - rewrite Z.min_l, Z.max_r by lia.
    by destruct (Z.testbit (Z.land m occ) j), (span_clear _ _ _).
  - rewrite Z.min_r, Z.max_l by lia.
    by destruct (Z.testbit (Z.land m occ) j), (span_clear _ _ _).
Qed.

(** *** The lines of the board *)

Lemma u64_line_mask l sq : 0 <= sq < 64 -> u64 (line_mask l sq).
Proof.
  intros H. unfold u64, U64.
  pose proof (squares_forall (fun sq => (0 <=? line_mask l sq) && (line_mask l sq <? 2 ^ 64))
                ltac:(destruct l; vm_compute; reflexivity) sq H) as E.
  cbv beta in E. apply andb_true_iff in E as [E1 E2].
  apply Z.leb_le in E1. apply Z.ltb_lt in E2. lia.
Qed.

(** Two squares of one line have the same line. *)
Lemma line_mask_shared l a c :
  0 <= a < 64 -> 0 <= c < 64 ->
  Z.testbit (line_mask l a) c = Z.testbit (line_mask l c) a /\
  (Z.testbit (line_mask l a) c = true -> line_mask l a = line_mask l c).
Proof.
  intros Ha Hc.
  pose proof (squares_forall2
    (fun a c => Bool.eqb (Z.testbit (line_mask l a) c) (Z.testbit (line_mask l c) a)
                && (if Z.testbit (line_mask l a) c then line_mask l a =? line_mask l c else true))
    ltac:(destruct l; vm_compute; reflexivity) a c Ha Hc) as E.
  cbv beta in E. apply andb_true_iff in E as [E1 E2]. apply eqb_prop in E1.
  split; [done|]. intros Ht. rewrite Ht in E2. by apply Z.eqb_eq.
Qed.

(** The squares on one line of a slider are those of the two masks. *)
Lemma aligned_masks a c :
  0 <= a < 64 -> 0 <= c < 64 ->
  aligned false a c = Z.testbit (line_mask File a) c || Z.testbit (line_mask Rank a) c /\
  aligned true a c
  = Z.testbit (line_mask Diagonal a) c || Z.testbit (line_mask AntiDiagonal a) c.
Proof.
  intros Ha Hc.
  pose proof (squares_forall2
    (fun a c =>
       Bool.eqb (aligned false a c)
                (Z.testbit (line_mask File a) c || Z.testbit (line_mask Rank a) c)
       && Bool.eqb (aligned true a c)
            (Z.testbit (line_mask Diagonal a) c || Z.testbit (line_mask AntiDiagonal a) c))
    ltac:(vm_compute; reflexivity) a c Ha Hc) as E.
  cbv beta in E. apply andb_true_iff in E as [E1 E2]. by apply eqb_prop in E1, E2.
Qed.

(** *** The walk and the squares between *)

Lemma ray_clear_between occ n : forall f r df dr tf tr,
  ray_clear occ n f r df dr tf tr
  = match between n f r df dr tf tr with
    | Some L => forallb (fun s => negb (Z.testbit occ s)) L
    | None => false
    end.
Proof.
  induction n as [|n IH]; intros f r df dr tf tr; [done|].
  cbn [ray_clear between]. cbv zeta.
  destruct ((f + df =? tf) && (r + dr =? tr)); [done|].
  rewrite IH. destruct (between n _ _ _ _ _ _) as [L|]; simpl.
  - by destruct (Z.testbit occ _).
  - by destruct (Z.testbit occ _).
Qed.

Lemma walk_on_line_all l sq t : 0 <= sq < 64 -> 0 <= t < 64 -> walk_on_line l sq t = true.
Proof.
  intros Hsq Ht.
  exact (squares_forall2 (walk_on_line l) ltac:(destruct l; vm_compute; reflexivity) sq t Hsq Ht).
Qed.

Lemma slides_on_unfold occ d a c :
  slides_on occ d a c
  = negb (a =? c) && aligned d a c
    && match between_squares a c with
       | Some L => forallb (fun s => negb (Z.testbit occ s)) L
       | None => false
       end.
Proof. unfold slides_on, aligned, between_squares. by rewrite ray_clear_between. Qed.

Lemma slides_on_line l occ sq t :
  0 <= sq < 64 -> 0 <= t < 64 -> Z.testbit (line_mask l sq) t = true ->
  slides_on occ (line_diagonal l) sq t = line_bit l occ sq t.
Proof.
  intros Hsq Ht Hm. unfold line_bit. rewrite Hm, slides_on_unfold, (Z.eqb_sym sq t).
  destruct (Z.eqb_spec t sq) as [->|Hne]; [done|]. cbn [andb negb].
  pose proof (walk_on_line_all l sq t Hsq Ht) as W. unfold walk_on_line in W.
  assert ((t =? sq) = false) as En by (by apply Z.eqb_neq).
  rewrite Hm, En in W. cbn [andb negb] in W.
  apply andb_true_iff in W as [Wa W]. rewrite Wa. cbn [andb].
  destruct (between_squares sq t) as [L|]; [|done].
  apply andb_true_iff in W as [Wr Wm].
  rewrite forallb_forall in Wr. pose proof (squares_forall _ Wm) as Wm'. cbv beta in Wm'.
  apply eq_iff_eq_true. rewrite span_clear_spec, forallb_forall. split.
  - intros H s Hs Hb. rewrite Z.land_spec.
    destruct (Z.testbit (line_mask l sq) s) eqn:Em; [|done]. cbn [andb].
    specialize (Wm' s Hs). apply eqb_prop in Wm'. rewrite Em in Wm'.
    destruct (Z.ltb_spec (Z.min t sq) s), (Z.ltb_spec s (Z.max t sq)); try lia.
    cbn [andb] in Wm'. apply existsb_exists in Wm' as (x & Hx & Ex). apply Z.eqb_eq in Ex. subst x.
    specialize (H s Hx). by destruct (Z.testbit occ s).
  - intros H s Hs. specialize (Wr s Hs).
    apply andb_true_iff in Wr as [W0 W1]. apply Z.leb_le in W0. apply Z.ltb_lt in W1.
    specialize (Wm' s ltac:(lia)). apply eqb_prop in Wm'.
    assert (existsb (Z.eqb s) L = true) as Ex
      by (apply existsb_exists; exists s; split; [done|apply Z.eqb_refl]).
    rewrite Ex in Wm'. symmetry in Wm'.
    apply andb_true_iff in Wm' as [Wb Wk]. apply andb_true_iff in Wb as [Wlo Whi].
    apply Z.ltb_lt in Wlo, Whi.
    specialize (H s ltac:(lia) ltac:(lia)). rewrite Z.land_spec, Wk in H. cbn [andb] in H.
    by rewrite H.
Qed.

Lemma line_bit_mask l occ sq t : line_bit l occ sq t = true -> Z.testbit (line_mask l sq) t = true.
Proof. unfold line_bit. by intros [[? _]%andb_true_iff _]%andb_true_iff. Qed.

Lemma slides_on_not_aligned occ d a c : aligned d a c = false -> slides_on occ d a c = false.
Proof. intros H. rewrite slides_on_unfold, H. by rewrite andb_false_r. Qed.

(** Two lines of one kind through a square: the attack is the walk. *)
Lemma two_lines_walk l1 l2 occ sq t :
  line_diagonal l2 = line_diagonal l1 ->
  0 <= sq < 64 -> 0 <= t < 64 ->
  aligned (line_diagonal l1) sq t
  = Z.testbit (line_mask l1 sq) t || Z.testbit (line_mask l2 sq) t ->
  line_bit l1 occ sq t || line_bit l2 occ sq t = slides_on occ (line_diagonal l1) sq t.
Proof.
  intros D2 Hsq Ht Ha.
  assert (forall l, Z.testbit (line_mask l sq) t = false -> line_bit l occ sq t = false) as Hout.
  { intros l E. destruct (line_bit l occ sq t) eqn:B; [|done].
    apply line_bit_mask in B. congruence. }
  destruct (Z.testbit (line_mask l1 sq) t) eqn:E1, (Z.testbit (line_mask l2 sq) t) eqn:E2.
  - rewrite <- (slides_on_line l1), <- (slides_on_line l2), D2 by done. apply orb_diag.
  - rewrite (Hout l2 E2), orb_false_r. symmetry. by apply slides_on_line.
  - rewrite (Hout l1 E1). cbn [orb]. rewrite <- D2. symmetry. by apply slides_on_line.
  - rewrite (Hout l1 E1), (Hout l2 E2). symmetry. by apply slides_on_not_aligned.
Qed.

Lemma GetRookAttacks_bit occ sq t :
  0 <= sq < 64 -> 0 <= t < 64 ->
  Z.testbit (GetRookAttacks sq occ) t = slides_on occ false sq t.
Proof.
  intros Hsq Ht. unfold GetRookAttacks. rewrite Z.lor_spec.
  rewrite (hyp_quint_bit File), (hyp_quint_bit Rank) by (done || by apply u64_line_mask).
  apply (two_lines_walk File Rank); try done. by apply aligned_masks.
Qed.

Lemma GetBishopAttacks_bit occ sq t :
  0 <= sq < 64 -> 0 <= t < 64 ->
  Z.testbit (GetBishopAttacks sq occ) t = slides_on occ true sq t.
Proof.
  intros Hsq Ht. unfold GetBishopAttacks. rewrite Z.lor_spec.
  rewrite (hyp_quint_bit Diagonal), (hyp_quint_bit AntiDiagonal)
    by (done || by apply u64_line_mask).
  apply (two_lines_walk Diagonal AntiDiagonal); try done. by apply aligned_masks.
Qed.

(** X12.  The slider attacks of Hyperbola Quintessence are the walks along
    the rays: over any occupancy, [GetRookAttacks] holds the squares that a
    walk along the file or the rank reaches with only empty squares on the
    way, [GetBishopAttacks] the same along the two diagonals, and
    [GetQueenAttacks] both. *)
Theorem slider_attacks_walk (occ : Bitboard) (sq t : Square) :
  0 <= sq < 64 -> 0 <= t < 64 ->
  Z.testbit (GetRookAttacks sq occ) t = slides_on occ false sq t /\
  Z.testbit (GetBishopAttacks sq occ) t = slides_on occ true sq t /\
  Z.testbit (GetQueenAttacks sq occ) t = slides_on occ true sq t || slides_on occ false sq t.
Proof.
  intros Hsq Ht. unfold GetQueenAttacks. rewrite Z.lor_spec.
  rewrite GetRookAttacks_bit, GetBishopAttacks_bit by done. done.
Qed.

Lemma slider_attacks_walk_witness :
  Z.testbit (GetRookAttacks 0 257) 16 = slides_on 257 false 0 16 /\
  Z.testbit (GetBishopAttacks 0 257) 16 = slides_on 257 true 0 16 /\
  Z.testbit (GetQueenAttacks 0 257) 16 = slides_on 257 true 0 16 || slides_on 257 false 0 16.
Proof. apply (slider_attacks_walk 257 0 16); lia. Defined.

(** ** The attack query against the rules *)

Lemma clear_path_ray b n : forall f r df dr tf tr,
  clear_path b n f r df dr tf tr = ray_clear (occupancy b) n f r df dr tf tr.
Proof.
  induction n as [|n IH]; intros f r df dr tf tr; [done|].
  cbn [clear_path ray_clear]. cbv zeta. rewrite IH. done.
Qed.

Lemma slides_slides_on b d a c : slides b d a c = slides_on (occupancy b) d a c.
Proof. unfold slides, slides_on. by rewrite clear_path_ray. Qed.

Lemma line_bit_sym l occ a c :
  0 <= a < 64 -> 0 <= c < 64 -> line_bit l occ a c = line_bit l occ c a.
Proof.
  intros Ha Hc. unfold line_bit.
  destruct (line_mask_shared l a c Ha Hc) as [E1 E2].
  rewrite <- E1, (Z.eqb_sym a c), (Z.min_comm a c), (Z.max_comm a c).
  destruct (Z.testbit (line_mask l a) c) eqn:E; [|done].
  by rewrite (E2 eq_refl).
Qed.

(** A slider reaches [c] from [a] exactly when it reaches [a] from [c]. *)
Lemma slides_on_sym occ d a c :
  0 <= a < 64 -> 0 <= c < 64 -> slides_on occ d a c = slides_on occ d c a.
Proof.
  intros Ha Hc. destruct d.
  - rewrite <- !GetBishopAttacks_bit by done. unfold GetBishopAttacks.
    rewrite !Z.lor_spec.
    rewrite !(hyp_quint_bit Diagonal), !(hyp_quint_bit AntiDiagonal)
      by (done || by apply u64_line_mask).
    by rewrite (line_bit_sym Diagonal), (line_bit_sym AntiDiagonal).
  - rewrite <- !GetRookAttacks_bit by done. unfold GetRookAttacks.
    rewrite !Z.lor_spec.
    rewrite !(hyp_quint_bit File), !(hyp_quint_bit Rank)
      by (done || by apply u64_line_mask).
    by rewrite (line_bit_sym File), (line_bit_sym Rank).
Qed.

(** The tables of the pawn, the knight and the king against the geometry
    of the moves, from the piece to the target and from the target back. *)
Lemma leaper_tables c a x :
  0 <= a < 64 -> 0 <= x < 64 ->
  Z.testbit (GetPawnAttacks a c) x = attacks_by_rules Board_blank Pawn c a x /\
  Z.testbit (GetKnightAttacks a) x = attacks_by_rules Board_blank Knight c a x /\
  Z.testbit (GetKingAttacks a) x = attacks_by_rules Board_blank King c a x /\
  Z.testbit (GetPawnAttacks a (opp c)) x = attacks_by_rules Board_blank Pawn c x a /\
  Z.testbit (GetKnightAttacks a) x = attacks_by_rules Board_blank Knight c x a.
Proof.
  intros Ha Hx.
  pose proof (squares_forall2
    (fun a x =>
       Bool.eqb (Z.testbit (GetPawnAttacks a c) x) (attacks_by_rules Board_blank Pawn c a x)
       && Bool.eqb (Z.testbit (GetKnightAttacks a) x) (attacks_by_rules Board_blank Knight c a x)
       && Bool.eqb (Z.testbit (GetKingAttacks a) x) (attacks_by_rules Board_blank King c a x)
       && Bool.eqb (Z.testbit (GetPawnAttacks a (opp c)) x)
            (attacks_by_rules Board_blank Pawn c x a)
       && Bool.eqb (Z.testbit (GetKnightAttacks a) x)
            (attacks_by_rules Board_blank Knight c x a))
    ltac:(destruct c; vm_compute; reflexivity) a x Ha Hx) as E.
  cbv beta in E.
  repeat match type of E with _ && _ = true => apply andb_true_iff in E as [E ?] end.
  repeat match goal with H : Bool.eqb _ _ = true |- _ => apply eqb_prop in H end.
  done.
Qed.

(** X13.  The attack tables hold the geometry of the moves: a pawn of
    colour [c] attacks the two squares diagonally ahead of it, a knight the
    squares one file and two ranks or two files and one rank away, a king
    the squares next to it. *)
Theorem leaper_attacks_geometry (b : Board) (c : Color) (sq t : Square) :
  0 <= sq < 64 -> 0 <= t < 64 ->
  Z.testbit (GetPawnAttacks sq c) t = attacks_by_rules b Pawn c sq t /\
  Z.testbit (GetKnightAttacks sq) t = attacks_by_rules b Knight c sq t /\
  Z.testbit (GetKingAttacks sq) t = attacks_by_rules b King c sq t.
Proof.
  intros Hsq Ht. destruct (leaper_tables c sq t Hsq Ht) as (E1 & E2 & E3 & _). done.
Qed.

Lemma leaper_attacks_geometry_witness :
  Z.testbit (GetPawnAttacks 12 White) 21 = attacks_by_rules pos_start Pawn White 12 21 /\
  Z.testbit (GetKnightAttacks 12) 21 = attacks_by_rules pos_start Knight White 12 21 /\
  Z.testbit (GetKingAttacks 12) 21 = attacks_by_rules pos_start King White 12 21.
Proof. apply (leaper_attacks_geometry pos_start White 12 21); lia. Defined.

Lemma nz_existsb x : u64 x -> nz x = existsb (Z.testbit x) squares.
Proof.
  intros Hx. apply eq_iff_eq_true. rewrite nz_true, existsb_exists. split.
  - intros Hne. destruct (existsb (Z.testbit x) squares) eqn:E.
    + by apply existsb_exists in E.
    + exfalso. apply Hne. apply u64_zero; [done|]. intros i Hi.
      destruct (Z.testbit x i) eqn:Ei; [|done].
      assert (existsb (Z.testbit x) squares = true) as E'
        by (apply existsb_exists; exists i; split; [by apply squares_In|done]).
      congruence.
  - intros (i & _ & Hi) ->. by rewrite Z.bits_0 in Hi.
Qed.

Lemma existsb_squares_ext (f g : Square -> bool) :
  (forall s, 0 <= s < 64 -> f s = g s) -> existsb f squares = existsb g squares.
Proof.
  intros H. apply eq_iff_eq_true. rewrite !existsb_exists.
  split; intros (s & Hs & E); exists s; (split; [done|]); pose proof (squares_range s Hs);
    [rewrite <- H by done|rewrite H by done]; done.
Qed.

(** An attack set met with the pieces of one kind. *)
Lemma nz_attackers (A P : Bitboard) (rule : Square -> bool) :
  u64 P -> (forall from, 0 <= from < 64 -> Z.testbit A from = rule from) ->
  nz (Z.land A P) = existsb (fun from => Z.testbit P from && rule from) squares.
Proof.
  intros HP HA. rewrite nz_existsb by (rewrite Z.land_comm; by apply u64_land).
  apply existsb_squares_ext. intros s Hs. rewrite Z.land_spec, HA by done. apply andb_comm.
Qed.

(** X14.  [isSquareAttacked] answers whether a pawn, a knight, a bishop, a
    rook or a queen of the colour attacks the square by the rules of chess,
    sliders over the empty squares of the board; it does not look at the
    king. *)
Theorem isSquareAttacked_by_rules (b : Board) (sq : Square) (c : Color) :
  wf_arrays b -> 0 <= sq < 64 ->
  isSquareAttacked b sq c
  = existsb (fun k =>
      existsb (fun from => Z.testbit (PieceBB b k c) from && attacks_by_rules b k c from sq)
        squares)
    [Pawn; Knight; Bishop; Rook; Queen].
Proof.
  intros Hwf Hsq. unfold isSquareAttacked.
  destruct (Z.eqb_spec sq NO_SQ) as [E|_]; [unfold NO_SQ in E; lia|]. cbn [negb existsb].
  fold (occupancy b).
  rewrite Pawns_PieceBB, Knights_PieceBB, Bishops_PieceBB, Rooks_PieceBB, Queens_PieceBB.
  rewrite (nz_attackers _ (PieceBB b Pawn c) (fun from => attacks_by_rules b Pawn c from sq)).
  2: by apply wf_arrays_u64.
  2: { intros from Hf. by destruct (leaper_tables c sq from Hsq Hf) as (_ & _ & _ & E & _). }
  rewrite (nz_attackers _ (PieceBB b Knight c) (fun from => attacks_by_rules b Knight c from sq)).
  2: by apply wf_arrays_u64.
  2: { intros from Hf. by destruct (leaper_tables c sq from Hsq Hf) as (_ & _ & _ & _ & E). }
  rewrite (nz_attackers _ (PieceBB b Bishop c) (fun from => attacks_by_rules b Bishop c from sq)).
  2: by apply wf_arrays_u64.
  2: { intros from Hf. cbn [attacks_by_rules]. cbv zeta.
       rewrite GetBishopAttacks_bit, slides_slides_on by done. by apply slides_on_sym. }
  rewrite (nz_attackers _ (PieceBB b Rook c) (fun from => attacks_by_rules b Rook c from sq)).
  2: by apply wf_arrays_u64.
  2: { intros from Hf. cbn [attacks_by_rules]. cbv zeta.
       rewrite GetRookAttacks_bit, slides_slides_on by done. by apply slides_on_sym. }
  rewrite (nz_attackers _ (PieceBB b Queen c) (fun from => attacks_by_rules b Queen c from sq)).
  2: by apply wf_arrays_u64.
  2: { intros from Hf. cbn [attacks_by_rules]. cbv zeta. unfold GetQueenAttacks.
       rewrite Z.lor_spec, GetBishopAttacks_bit, GetRookAttacks_bit, !slides_slides_on by done.
       by rewrite (slides_on_sym _ true sq from), (slides_on_sym _ false sq from). }
  repeat match goal with |- context [existsb ?f squares] =>
    generalize (existsb f squares); intros ? end.
  repeat match goal with x : bool |- _ => destruct x end; reflexivity.
Qed.

Lemma isSquareAttacked_by_rules_witness :
  isSquareAttacked pos_two_rooks 4 Black
  = existsb (fun k =>
      existsb (fun from => Z.testbit (PieceBB pos_two_rooks k Black) from
                           && attacks_by_rules pos_two_rooks k Black from 4)
        squares)
    [Pawn; Knight; Bishop; Rook; Queen].
Proof.
  apply (isSquareAttacked_by_rules pos_two_rooks 4 Black).
  - apply wf_arraysb_spec. vm_compute. reflexivity.
  - lia.
Defined.

(** ** The move list that a caller reads *)

Lemma Add_take ml m :
  moves_ok ml ->
  moveList (Add ml m) = if count ml <? 255 then moveList ml ++ [m] else [].
Proof.
  intros [Hl Hc]. unfold moveList, Add. cbn [moves count].
  destruct (Z.ltb_spec (count ml) 255).
  - rewrite Z.mod_small by lia.
    replace (Z.to_nat (count ml + 1)) with (S (Z.to_nat (count ml))) by lia.
    rewrite (take_S_r _ _ m) by (apply list_lookup_insert_eq; lia).
    by rewrite take_insert_ge by lia.
  - replace (count ml) with 255 by lia. reflexivity.
Qed.

(** X15.  [Add] appends the move to the list that a caller reads, up to
    255 moves; the [uint8_t] count wraps on the 256th, after which the list
    reads as empty. *)
Theorem Add_moveList (ml : Moves) (m : Move) :
  moves_ok ml ->
  moveList (Add ml m) = if count ml <? 255 then moveList ml ++ [m] else [].
Proof. apply Add_take. Qed.

Lemma Add_moveList_witness :
  moveList (Add Moves_init move_e2e4)
  = if count Moves_init <? 255 then moveList Moves_init ++ [move_e2e4] else [].
Proof. apply (Add_moveList Moves_init move_e2e4). apply Moves_init_ok. Defined.

Lemma fold_Add {A : Type} (f : A -> Move) (l : list A) : forall ml,
  moves_ok ml -> count ml + Z.of_nat (length l) < 256 ->
  let ml' := fold_left (fun ml t => Add ml (f t)) l ml in
  moves_ok ml' /\ count ml' = count ml + Z.of_nat (length l) /\
  moveList ml' = moveList ml ++ map f l.
Proof.
  induction l as [|a l IH]; intros ml Hok Hc; cbn [fold_left map length] in *.
  - split; [done|]. split; [lia|]. by rewrite app_nil_r.
  - assert (count (Add ml (f a)) = count ml + 1) as Ec
      by (destruct Hok; cbn [Add count]; rewrite Z.mod_small; lia).
    destruct (IH (Add ml (f a)) (Add_ok _ _ Hok) ltac:(lia)) as (H1 & H2 & H3).
    split; [done|]. split; [lia|].
    rewrite H3, Add_take by done.
    destruct (Z.ltb_spec (count ml) 255); [|lia]. by rewrite <- app_assoc.
Qed.

(** X16.  The emission loop of a knight, bishop, rook or queen appends one
    move for each square of the move set, lowest square first, as long as
    the list stays below 256 moves. *)
Theorem emit_piece_moves (b : Board) (t : PieceType) (source : Square) (targets : Bitboard)
    (ml : Moves) :
  moves_ok ml -> u64 targets ->
  count ml + Z.of_nat (length (set_squares targets)) < 256 ->
  moveList (emit_piece b t source targets ml)
  = moveList ml ++ map (piece_move b t source) (set_squares targets).
Proof.
  intros Hok Hu Hc. unfold emit_piece. cbv zeta.
  rewrite pop_loop_fold by (done || apply set_squares_length).
  by destruct (fold_Add (piece_move b t source) (set_squares targets) ml Hok Hc) as (_ & _ & E).
Qed.

Lemma emit_piece_moves_witness :
  moveList (emit_piece pos_start Knight 1 327680 Moves_init)
  = moveList Moves_init ++ map (piece_move pos_start Knight 1) (set_squares 327680).
Proof.
  apply (emit_piece_moves pos_start Knight 1 327680 Moves_init).
  - apply Moves_init_ok.
  - unfold u64, U64. simpl. lia.
  - vm_compute. reflexivity.
Defined.

(** *** Double check *)

Lemma piece_mkMove s t p pr c d e k :
  0 <= s < 2 ^ 12 -> 0 <= t < 2 ^ 6 -> 0 <= p < 2 ^ 4 ->
  piece (mkMove s t p pr c d e k) = p.
Proof.
  intros Hs Ht Hp. unfold piece. change 0xf000 with (Z.shiftl (Z.ones 4) 12).
  apply field_read; try lia. field_bits.
Qed.

Lemma bsf_from_range fuel : forall i bb,
  0 <= i -> i + Z.of_nat fuel <= 64 -> 0 <= bsf_from fuel i bb <= 64.
Proof.
  induction fuel as [|k IH]; intros i bb Hi Hf; cbn [bsf_from].
  - unfold NO_SQ. lia.
  - destruct (Z.testbit bb i); [lia|]. apply IH; lia.
Qed.

Lemma set_squares_range bb s : In s (set_squares bb) -> 0 <= s < 64.
Proof.
  unfold set_squares, set_squares_of. intros H. apply filter_In in H as [H _].
  by apply squares_range.
Qed.

Lemma fold_left_same {A B : Type} (f g : A -> B -> A) (l : list B) :
  (forall a x, f a x = g a x) -> forall a, fold_left f l a = fold_left g l a.
Proof.
  intros H. induction l as [|x l IH]; intros a; [done|]. cbn [fold_left]. by rewrite H, IH.
Qed.

Lemma emit_king_fold b source targets ml :
  u64 targets ->
  emit_king b source targets ml
  = fold_left (fun ml t => Add ml (king_move b source t)) (set_squares targets) ml.
Proof.
  intros Hu. unfold emit_king. cbv zeta.
  rewrite pop_loop_fold by (done || apply set_squares_length).
  apply fold_left_same. intros ml' t. unfold king_move. cbv zeta.
  by repeat destruct (_ && _).
Qed.

Lemma u64_LegalKingMoves b c sq : u64 (LegalKingMoves b c sq).1.
Proof.
  unfold LegalKingMoves. cbv zeta. cbn [fst].
  apply u64_lor.
  - apply pop_loop_inv; [|unfold u64, U64; simpl; lia].
    intros i acc Hacc. destruct (isSquareAttacked _ _ _).
    + by rewrite Z.lor_0_r.
    + apply u64_lor; [done|apply u64_bit].
  - destruct (negb _); [|unfold u64, U64; simpl; lia].
    repeat match goal with |- context [if ?c then _ else _] => destruct c end;
      repeat apply u64_lor; try apply u64_bit; unfold u64, U64; simpl; lia.
Qed.

Lemma LegalKingMoves_side b c sq : sideToMove (LegalKingMoves b c sq).2 = sideToMove b.
Proof. reflexivity. Qed.

(** X17.  In a position where the analyzer counts two or more kinds of
    check, the generator emits moves of the king only. *)
Theorem double_check_king_only (b : Board) (ml : Moves) (b' : Board) :
  generateLegalMoves b = Some (ml, b') ->
  2 <= doubleCheck (analyzed b) ->
  Forall (fun m => piece m = makePiece King (sideToMove b)) (moveList ml).
Proof.
  unfold generateLegalMoves, analyzed. cbv zeta. intros H Hdc.
  destruct (Z.ltb_spec (doubleCheck (init b (sideToMove b) (KingSq b (sideToMove b)))) 2);
    [lia|].
  cbn [mbind option_bind] in H. apply (inj Some) in H. unfold gen_king in H. cbv zeta in H.
  set (ib := init b (sideToMove b) (KingSq b (sideToMove b))) in *.
  pose proof (u64_LegalKingMoves ib (sideToMove ib) (bsf (Kings ib (sideToMove ib)))) as Hu.
  pose proof (LegalKingMoves_side ib (sideToMove ib) (bsf (Kings ib (sideToMove ib)))) as Hs.
  destruct (LegalKingMoves ib (sideToMove ib) (bsf (Kings ib (sideToMove ib)))) as [targets b2].
  cbn [fst snd] in Hu, Hs. injection H as <- <-.
  rewrite emit_king_fold by done.
  destruct (fold_Add (king_move b2 (bsf (Kings ib (sideToMove ib)))) (set_squares targets)
              Moves_init Moves_init_ok) as (_ & _ & E).
  { pose proof (set_squares_length targets) as Hlen. change (count Moves_init) with 0.
    unfold Square, Bitboard in *. lia. }
  rewrite E. change (moveList Moves_init) with (@nil Move). cbn [app].
  assert (sideToMove b2 = sideToMove b) as Eside.
  { rewrite Hs. subst ib. by destruct (init_same_position b (sideToMove b) (KingSq b (sideToMove b)))
      as (_ & _ & ? & _). }
  apply Forall_forall. intros m Hm. apply list_elem_of_In in Hm.
  apply in_map_iff in Hm as (t & <- & Ht). apply set_squares_range in Ht.
  pose proof (bsf_from_range 64 0 (Kings ib (sideToMove ib)) ltac:(lia) ltac:(lia)) as Hb.
  fold (bsf (Kings ib (sideToMove ib))) in Hb.
  unfold king_move. cbv zeta. rewrite Eside.
  assert (0 <= makePiece King (sideToMove b) < 2 ^ 4) by (unfold makePiece; destruct (sideToMove b); simpl; lia).
  repeat destruct (_ && _); apply piece_mkMove; lia.
Qed.

Lemma double_check_king_only_witness :
  Forall (fun m => piece m = makePiece King (sideToMove pos_double)) (moveList gen_double.1).
Proof.
  apply (double_check_king_only pos_double gen_double.1 gen_double.2).
  - vm_compute. reflexivity.
  - vm_compute. discriminate.
Defined.

(** ** The move sets of the pieces *)

Lemma land3_bits A E M t :
  Z.testbit (Z.land (Z.land A E) M) t = true ->
  Z.testbit A t = true /\ Z.testbit E t = true /\ Z.testbit M t = true.
Proof.
  rewrite !Z.land_spec. intros H. apply andb_true_iff in H as [H ?].
  apply andb_true_iff in H as [? ?]. done.
Qed.

Lemma EnemyEmpty_bit b c t :
  0 <= t -> Z.testbit (EnemyEmpty b c) t = true -> Z.testbit (allPieces b c) t = false.
Proof.
  intros Ht. destruct c; unfold EnemyEmpty; rewrite testbit_not64 by done;
    intros [_ H]%andb_true_iff; by destruct (Z.testbit _ t).
Qed.

Lemma knight_sound b c sq t :
  0 <= sq < 64 -> 0 <= t < 64 -> Z.testbit (LegalKnightMoves b c sq) t = true ->
  attacks_by_rules b Knight c sq t = true /\ Z.testbit (allPieces b c) t = false /\
  Z.testbit (checkMask b) t = true.
Proof.
  intros Hsq Ht. unfold LegalKnightMoves.
  destruct (doubleCheck b =? 2); [by rewrite Z.bits_0|].
  destruct (nz _); [by rewrite Z.bits_0|].
  intros (HA & HE & HM)%land3_bits. split; [|split; [by apply EnemyEmpty_bit; [lia|]|done]].
  destruct (leaper_tables c sq t Hsq Ht) as (_ & E & _). by rewrite <- HA, E.
Qed.

Lemma bishop_sound b c sq t :
  0 <= sq < 64 -> 0 <= t < 64 -> Z.testbit (LegalBishopMoves b c sq) t = true ->
  slides b true sq t = true /\ Z.testbit (allPieces b c) t = false /\
  Z.testbit (checkMask b) t = true.
Proof.
  intros Hsq Ht. unfold LegalBishopMoves. cbv zeta. fold (occupancy b).
  destruct (doubleCheck b =? 2); [by rewrite Z.bits_0|].
  destruct (nz _); [by rewrite Z.bits_0|].
  rewrite slides_slides_on, <- GetBishopAttacks_bit by done.
  destruct (nz _).
  - rewrite Z.land_spec. intros [(HA & HE & HM)%land3_bits _]%andb_true_iff.
    split; [done|split; [by apply EnemyEmpty_bit; [lia|]|done]].
  - intros (HA & HE & HM)%land3_bits.
    split; [done|split; [by apply EnemyEmpty_bit; [lia|]|done]].
Qed.

Lemma rook_sound b c sq t :
  0 <= sq < 64 -> 0 <= t < 64 -> Z.testbit (LegalRookMoves b c sq) t = true ->
  slides b false sq t = true /\ Z.testbit (allPieces b c) t = false /\
  Z.testbit (checkMask b) t = true.
Proof.
  intros Hsq Ht. unfold LegalRookMoves. cbv zeta. fold (occupancy b).
  destruct (doubleCheck b =? 2); [by rewrite Z.bits_0|].
  destruct (nz _); [by rewrite Z.bits_0|].
  rewrite slides_slides_on, <- GetRookAttacks_bit by done.
  destruct (nz _).
  - rewrite Z.land_spec. intros [(HA & HE & HM)%land3_bits _]%andb_true_iff.
    split; [done|split; [by apply EnemyEmpty_bit; [lia|]|done]].
  - intros (HA & HE & HM)%land3_bits.
    split; [done|split; [by apply EnemyEmpty_bit; [lia|]|done]].
Qed.

(** X18.  Every square in the move set of a knight, bishop, rook or queen
    is attacked by the piece by the rules of chess (a slider over the empty
    squares of the board), is not occupied by a piece of its own colour and
    lies within the check mask. *)
Theorem officer_moves_sound (b : Board) (k : PieceType) (c : Color) (sq t : Square) :
  0 <= sq < 64 -> 0 <= t < 64 ->
  Z.testbit (officer_moves b k c sq) t = true ->
  attacks_by_rules b k c sq t = true /\ Z.testbit (allPieces b c) t = false /\
  Z.testbit (checkMask b) t = true.
Proof.
  intros Hsq Ht. destruct k; cbn [officer_moves attacks_by_rules].
  - by rewrite Z.bits_0.
  - by apply knight_sound.
  - by apply bishop_sound.
  - by apply rook_sound.
  - unfold LegalQueenMoves. destruct (doubleCheck b =? 2); [by rewrite Z.bits_0|].
    rewrite Z.lor_spec. intros [H|H]%orb_true_iff.
    + apply rook_sound in H as (H1 & H2 & H3); [|done..]. rewrite H1, orb_true_r. done.
    + apply bishop_sound in H as (H1 & H2 & H3); [|done..]. rewrite H1. done.
  - by rewrite Z.bits_0.
Qed.

Lemma officer_moves_sound_witness :
  attacks_by_rules pos_start Knight White 1 18 = true /\
  Z.testbit (allPieces pos_start White) 18 = false /\
  Z.testbit (checkMask (analyzed pos_start)) 18 = true.
Proof.
  apply (officer_moves_sound (analyzed pos_start) Knight White 1 18); [lia|lia|].
  vm_compute. reflexivity.
Defined.

(** *** The steps of the king *)

Lemma fold_bits (P : Square -> bool) (l : list Square) :
  (forall i, In i l -> 0 <= i < 64) -> forall a t, 0 <= t < 64 ->
  Z.testbit (fold_left (fun acc i => if P i then Z.lor acc 0 else Z.lor acc (bit i)) l a) t
  = Z.testbit a t || existsb (fun i => (i =? t) && negb (P i)) l.
Proof.
  induction l as [|i l IH]; intros Hl a t Ht; cbn [fold_left existsb].
  - by rewrite orb_false_r.
  - rewrite IH by (done || intros; apply Hl; by right).
    assert (0 <= i < 64) as Hi by (apply Hl; by left).
    destruct (P i); cbn [negb].
    + by rewrite Z.lor_0_r, andb_false_r.
    + rewrite Z.lor_spec, testbit_bit, andb_true_r, (Z.eqb_sym t i), <- orb_assoc by lia.
      destruct (Z.ltb_spec t 64); [|lia]. by rewrite andb_true_r.
Qed.

Lemma set_squares_In bb s : In s (set_squares bb) <-> In s squares /\ Z.testbit bb s = true.
Proof. unfold set_squares, set_squares_of. apply filter_In. Qed.

Lemma existsb_set_squares bb (Q : Square -> bool) t :
  0 <= t < 64 ->
  existsb (fun i => (i =? t) && Q i) (set_squares bb) = Z.testbit bb t && Q t.
Proof.
  intros Ht. apply eq_iff_eq_true. rewrite existsb_exists, andb_true_iff. split.
  - intros (i & Hi & [E HQ]%andb_true_iff). apply Z.eqb_eq in E. subst i.
    apply set_squares_In in Hi as [_ Hb]. done.
  - intros [Hb HQ]. exists t. split.
    + apply set_squares_In. split; [by apply squares_In|done].
    + by rewrite Z.eqb_refl.
Qed.

Lemma u64_EnemyEmpty b c : u64 (EnemyEmpty b c).
Proof.
  destruct c; unfold EnemyEmpty; with_strategy transparent [not64] unfold not64;
    apply u64_wrap64.
Qed.

(** X19.  The steps in the move set of the king: a square next to the
    king that holds no piece of its own colour and that [isSquareAttacked]
    does not report as attacked once the king is taken off the board is in
    the set; and when the check mask is not the full board (the king is in
    check) the set holds these squares and no castling square. *)
Theorem king_moves_steps (b : Board) (c : Color) (sq t : Square) :
  0 <= sq < 64 -> 0 <= t < 64 ->
  let step :=
    attacks_by_rules b King c sq t && negb (Z.testbit (allPieces b c) t)
    && negb (isSquareAttacked (king_lifted b c sq) t (opp c)) in
  (step = true -> Z.testbit (LegalKingMoves b c sq).1 t = true) /\
  (checkMask b <> ALL -> Z.testbit (LegalKingMoves b c sq).1 t = step).
Proof.
  intros Hsq Ht step.
  assert (Z.testbit (Z.land (GetKingAttacks sq) (EnemyEmpty b c)) t
          = attacks_by_rules b King c sq t && negb (Z.testbit (allPieces b c) t)) as Ekm.
  { rewrite Z.land_spec. destruct (leaper_tables c sq t Hsq Ht) as (_ & _ & E & _).
    rewrite E. f_equal. destruct c; unfold EnemyEmpty; rewrite testbit_not64 by lia;
      destruct (Z.ltb_spec t 64); try lia; done. }
  unfold LegalKingMoves. cbv zeta. cbn [fst]. fold (king_lifted b c sq).
  rewrite Z.lor_spec.
  rewrite pop_loop_fold
    by (first [rewrite Z.land_comm; apply u64_land, u64_EnemyEmpty|apply set_squares_length]).
  pose proof (fold_bits (fun i => isSquareAttacked (king_lifted b c sq) i (opp c))
                (set_squares (Z.land (GetKingAttacks sq) (EnemyEmpty b c)))
                (set_squares_range _) 0 t Ht) as F.
  cbv beta in F. rewrite F. clear F.
  rewrite Z.bits_0, orb_false_l, existsb_set_squares, Ekm by done. fold step.
  split.
  - intros ->. reflexivity.
  - intros Hcm.
    change (checkMask (setBB _ _ (king_lifted b c sq))) with (checkMask b).
    destruct (Z.eqb_spec ALL (checkMask b)) as [E|_]; [congruence|].
    cbn [negb]. by rewrite Z.bits_0, orb_false_r.
Qed.

Lemma king_moves_steps_witness :
  let step :=
    attacks_by_rules (analyzed pos_double) King White 4 3
    && negb (Z.testbit (allPieces (analyzed pos_double) White) 3)
    && negb (isSquareAttacked (king_lifted (analyzed pos_double) White 4) 3 Black) in
  (step = true -> Z.testbit (LegalKingMoves (analyzed pos_double) White 4).1 3 = true) /\
  (checkMask (analyzed pos_double) <> ALL ->
   Z.testbit (LegalKingMoves (analyzed pos_double) White 4).1 3 = step).
Proof. apply (king_moves_steps (analyzed pos_double) White 4 3); lia. Defined.

(** ** The key *)

Section Key.

Variable RANDOM_ARRAY : Z -> Z.
Variable hash_piece : Piece -> Z.
Variable castlingKey : Z -> Z.

Notation hash := (hash RANDOM_ARRAY hash_piece castlingKey).

(** X21.  [hash] writes the key and nothing else, and the key it writes
    is a function of the pieces, the side to move, the en-passant square
    and the castling rights: not of the key before, the move counters,
    the stack or the masks of the analyzer.  Hashing twice is hashing
    once. *)
Theorem hash_of_position (b1 b2 : Board) :
  PiecesBB b1 = PiecesBB b2 -> board b1 = board b2 -> sideToMove b1 = sideToMove b2 ->
  enpassantSquare b1 = enpassantSquare b2 -> castlingRights b1 = castlingRights b2 ->
  hashKey (hash b1) = hashKey (hash b2) /\
  hash b1 = set_hashKey (hashKey (hash b1)) b1 /\
  hash (hash b1) = hash b1.
Proof.
  intros EP EB ES EE EC. split; [|split].
  - destruct b1, b2. simpl in EP, EB, ES, EE, EC. subst. reflexivity.
  - reflexivity.
  - reflexivity.
Qed.

End Key.

Lemma hash_of_position_witness :
  hashKey (sample_hash pos_start) = hashKey (sample_hash (set_counters 7 12 pos_start)) /\
  sample_hash pos_start = set_hashKey (hashKey (sample_hash pos_start)) pos_start /\
  sample_hash (sample_hash pos_start) = sample_hash pos_start.
Proof.
  apply (hash_of_position sample_RANDOM_ARRAY sample_hash_piece sample_castlingKey
           pos_start (set_counters 7 12 pos_start)); reflexivity.
Defined.

(** ** The move set of a pawn *)







Lemma pawn_shift_by_no_square :
  enpassantSquare pos_shift = NO_SQ /\
  checkMask (analyzed pos_shift) <> ALL /\
  getPiece pos_shift 0 = NoPiece /\
  exists b', LegalPawnMoves (analyzed pos_shift) Black 9 = Some (bit 0, b').
Proof.
  split; [run|]. split; [by vm_compute|]. split; [run|]. eexists. run.
Qed.

(** ** The table of the squares between two squares ([chess.cpp]) *)

Lemma between_pair_ok_all sq1 sq2 :
  0 <= sq1 < 64 -> 0 <= sq2 < 64 -> between_pair_ok sq1 sq2 = true.
Proof.
  intros H1 H2.
  exact (squares_forall2 between_pair_ok ltac:(vm_compute; reflexivity) sq1 sq2 H1 H2).
Qed.

Lemma walks_meet d sqs sq1 sq2 t :
  0 <= t < 64 ->
  forallb (fun t =>
    if aligned d sq1 t && aligned d sq2 t
    then Bool.eqb (slides_on sqs d sq1 t && slides_on sqs d sq2 t) (strictly_between sq1 sq2 t)
    else negb (strictly_between sq1 sq2 t)) squares = true ->
  slides_on sqs d sq1 t && slides_on sqs d sq2 t = strictly_between sq1 sq2 t.
Proof.
  intros Ht H. pose proof (squares_forall _ H t Ht) as E. cbv beta in E.
  destruct (aligned d sq1 t) eqn:A1; [destruct (aligned d sq2 t) eqn:A2|]; cbn [andb] in E.
  - by apply eqb_prop in E.
  - rewrite (slides_on_not_aligned sqs d sq2 t A2), andb_false_r.
    by destruct (strictly_between sq1 sq2 t).
  - rewrite (slides_on_not_aligned sqs d sq1 t A1). cbn [andb].
    by destruct (strictly_between sq1 sq2 t).
Qed.

(** X23.  [initializeLookupTables] fills [SQUARES_BETWEEN_BB[sq1][sq2]] for
    two different squares of one file, rank or diagonal with exactly the
    squares strictly between them, and leaves the entry of two squares on
    no common line unwritten; the entry of a square with itself is not
    empty: it is the attack set of a rook on that square with no other
    piece on the board. *)
Theorem squares_between_table (sq1 sq2 t : Square) :
  0 <= sq1 < 64 -> 0 <= sq2 < 64 -> 0 <= t < 64 ->
  match squares_between_entry sq1 sq2 with
  | Some bb =>
      if sq1 =? sq2 then bb = GetRookAttacks sq1 (bit sq1)
      else Z.testbit bb t = strictly_between sq1 sq2 t
  | None => aligned false sq1 sq2 = false /\ aligned true sq1 sq2 = false
  end.
Proof.
  intros H1 H2 Ht. pose proof (between_pair_ok_all sq1 sq2 H1 H2) as W.
  unfold between_pair_ok in W. cbv zeta in W. fold (strictly_between sq1 sq2) in W.
  unfold squares_between_entry. cbv zeta. rewrite !SQUARE_BB_bit by done.
  destruct (Z.eqb_spec sq1 sq2) as [<-|Hne].
  - rewrite !Z.eqb_refl. cbn [orb]. by rewrite Z.lor_diag, Z.land_diag.
  - destruct (_ || _).
    + rewrite Z.land_spec, !GetRookAttacks_bit by done. by apply walks_meet.
    + destruct (_ || _).
      * rewrite Z.land_spec, !GetBishopAttacks_bit by done. by apply walks_meet.
      * apply andb_true_iff in W as [W1 W2]. split.
        -- by destruct (aligned false sq1 sq2).
        -- by destruct (aligned true sq1 sq2).
Qed.

Lemma squares_between_table_witness :
  match squares_between_entry 0 24 with
  | Some bb =>
      if 0 =? 24 then bb = GetRookAttacks 0 (bit 0)
      else Z.testbit bb 8 = strictly_between 0 24 8
  | None => aligned false 0 24 = false /\ aligned true 0 24 = false
  end.
Proof. apply (squares_between_table 0 24 8); lia. Defined.

(** ** The squares of a move after [makemove] *)

Lemma in_bounds_inv p sq :
  (0 <=? p) && (p <? 12) && (0 <=? sq) && (sq <? 64) = true -> 0 <= p < 12 /\ 0 <= sq < 64.
Proof.
  intros H. apply andb_true_iff in H as [H H4]. apply andb_true_iff in H as [H H3].
  apply andb_true_iff in H as [H1 H2].
  apply Z.leb_le in H1, H3. apply Z.ltb_lt in H2, H4. lia.
Qed.

Lemma insert_written (l : list Piece) sq p :
  0 <= sq < 64 -> length l = 64%nat ->
  default NoPiece (<[Z.to_nat sq := p]> l !! Z.to_nat sq) = p /\
  forall s, 0 <= s -> s <> sq ->
    default NoPiece (<[Z.to_nat sq := p]> l !! Z.to_nat s) = default NoPiece (l !! Z.to_nat s).
Proof.
  intros Hsq Hl. split.
  - rewrite list_lookup_insert_eq by lia. done.
  - intros s Hs Hne. rewrite list_lookup_insert_ne by lia. done.
Qed.

Lemma placePiece_written p sq b b' :
  placePiece p sq b = Some b' -> board_written b b' sq p.
Proof.
  unfold placePiece. destruct (_ && _) eqn:E; [|done]. intros [= <-].
  apply in_bounds_inv in E as [_ Hsq]. split; [done|]. intros Hl.
  destruct (insert_written (board b) sq p Hsq Hl) as [E1 E2].
  cbn. split; [by rewrite length_insert|]. unfold getPiece. cbn. split.
  - destruct (Z.ltb_spec sq 0); [lia|done].
  - intros s Hne. destruct (Z.ltb_spec s 0); [done|]. by apply E2.
Qed.

Lemma removePiece_written p sq b b' :
  removePiece p sq b = Some b' -> board_written b b' sq NoPiece.
Proof.
  unfold removePiece. destruct (_ && _) eqn:E; [|done]. intros [= <-].
  apply in_bounds_inv in E as [_ Hsq]. split; [done|]. intros Hl.
  destruct (insert_written (board b) sq NoPiece Hsq Hl) as [E1 E2].
  cbn. split; [by rewrite length_insert|]. unfold getPiece. cbn. split.
  - destruct (Z.ltb_spec sq 0); [lia|done].
  - intros s Hne. destruct (Z.ltb_spec s 0); [done|]. by apply E2.
Qed.

Lemma mm_castle_length m stm b b' :
  mm_castle m stm b = Some b' -> length (board b) = 64%nat -> length (board b') = 64%nat.
Proof.
  unfold mm_castle. intros H Hl.
  opt_steps;
    repeat match goal with
    | H : removePiece _ _ _ = Some _ |- _ => apply removePiece_written in H as [_ H]
    | H : placePiece _ _ _ = Some _ |- _ => apply placePiece_written in H as [_ H]
    end; unfold clear_right in *; simpl in *; intuition.
Qed.

Lemma mm_enpassant_length m stm b b' :
  mm_enpassant m stm b = Some b' -> length (board b) = 64%nat -> length (board b') = 64%nat.
Proof.
  unfold mm_enpassant. intros H Hl. destruct (_ && _).
  - apply removePiece_written in H as [_ H]. by destruct (H Hl).
  - by apply (inj Some) in H; subst b'.
Qed.

Lemma board_steps m stm b :
  board (mm_update_ep m stm b) = board b /\
  board (mm_rook_capture m stm b) = board b /\
  board (mm_rook_move m b) = board b /\
  board (mm_king_rights m stm b) = board b.
Proof.
  unfold mm_update_ep, mm_rook_capture, mm_rook_move, mm_king_rights.
  repeat split; repeat case_match; reflexivity.
Qed.

Lemma mm_pieces_squares m b b' :
  mm_pieces m b = Some b' -> length (board b) = 64%nat ->
  getPiece b' (target m) = (if promoted m =? NoPiece then piece m else promoted m) /\
  (source m <> target m -> getPiece b' (source m) = NoPiece).
Proof.
  unfold mm_pieces. intros H Hl.
  apply bind_Some in H as (b1 & H1 & H).
  apply bind_Some in H as (b2 & H2 & H).
  apply bind_Some in H as (b3 & H3 & H).
  assert (length (board b1) = 64%nat) as Hl1.
  { destruct (capture m); [|by apply (inj Some) in H1; subst b1].
    apply removePiece_written in H1 as [_ H1]. by destruct (H1 Hl). }
  apply removePiece_written in H2 as [_ W2]. destruct (W2 Hl1) as (Hl2 & S2 & _).
  apply placePiece_written in H3 as [_ W3]. destruct (W3 Hl2) as (Hl3 & T3 & O3).
  destruct (Z.eqb_spec (promoted m) NoPiece) as [Ep|Ep]; cbn [negb] in H.
  - apply (inj Some) in H. subst b'. split; [done|]. intros Hne. by rewrite O3.
  - apply bind_Some in H as (b4 & H4 & H5).
    apply removePiece_written in H4 as [_ W4]. destruct (W4 Hl3) as (Hl4 & _ & O4).
    apply placePiece_written in H5 as [_ W5]. destruct (W5 Hl4) as (_ & T5 & O5).
    split; [done|]. intros Hne. by rewrite O5, O4, O3.
Qed.

(** X24.  After [makemove], on a board whose mailbox has its 64 squares,
    the target square holds the piece that moved, or the promotion piece
    when the move has one, and the source square is empty. *)
Theorem makemove_squares (b : Board) (m : Move) (b' : Board) :
  makemove b m = Some b' -> length (board b) = 64%nat ->
  getPiece b' (target m) = (if promoted m =? NoPiece then piece m else promoted m) /\
  (source m <> target m -> getPiece b' (source m) = NoPiece).
Proof.
  unfold makemove. cbv zeta. intros H Hl.
  apply bind_Some in H as (b1 & H1 & H).
  apply bind_Some in H as (b2 & H2 & H).
  apply bind_Some in H as (b3 & H3 & H).
  apply (inj Some) in H. subst b'.
  apply mm_castle_length in H1; [|exact Hl].
  apply mm_enpassant_length in H2.
  2: { destruct (board_steps m (sideToMove b) (mm_rook_move m (mm_king_rights m (sideToMove b) b1)))
         as (_ & -> & _).
       destruct (board_steps m (sideToMove b) (mm_king_rights m (sideToMove b) b1))
         as (_ & _ & -> & _).
       destruct (board_steps m (sideToMove b) b1) as (_ & _ & _ & ->). exact H1. }
  apply mm_pieces_squares in H3.
  2: { destruct (board_steps m (sideToMove b) b2) as (-> & _). exact H2. }
  exact H3.
Qed.

Lemma makemove_squares_witness :
  getPiece pos_after_e2e4 (target move_e2e4)
  = (if promoted move_e2e4 =? NoPiece then piece move_e2e4 else promoted move_e2e4) /\
  (source move_e2e4 <> target move_e2e4 -> getPiece pos_after_e2e4 (source move_e2e4) = NoPiece).
Proof.
  apply (makemove_squares pos_start move_e2e4 pos_after_e2e4).
  - vm_compute. reflexivity.
  - vm_compute. reflexivity.
Defined.

(** ** Every move through [makemove] and back *)

Lemma mailbox_okb_spec b : mailbox_okb b = true -> mailbox_ok b.
Proof.
  unfold mailbox_okb, mailbox_ok. rewrite forallb_forall, Forall_forall.
  intros H p Hp. apply list_elem_of_In in Hp. apply H in Hp.
  apply andb_true_iff in Hp as [H1 H2]. apply Z.leb_le in H1, H2. lia.
Qed.

Section OutOfBounds.

Variable oob : list Piece -> Square -> list Piece.

Lemma removePiece_oob_saved p sq b b' :
  removePiece_oob oob p sq b = Some b' -> same_saved b b'.
Proof.
  unfold removePiece_oob. destruct (_ && _).
  - intros [= <-]. done.
  - apply removePiece_saved.
Qed.

Lemma mm_pieces_oob_saved m b b' : mm_pieces_oob oob m b = Some b' -> same_saved b b'.
Proof.
  unfold mm_pieces_oob. intros H.
  opt_steps;
    repeat match goal with
    | H : removePiece_oob _ _ _ _ = Some _ |- _ => apply removePiece_oob_saved in H
    | H : placePiece _ _ _ = Some _ |- _ => apply placePiece_saved in H
    end;
    eauto 6 using same_saved_refl, same_saved_trans.
Qed.

Lemma makemove_oob_saved b m b1 :
  makemove_oob oob b m = Some b1 ->
  storeInfo b1 = snapshot b :: storeInfo b /\ hashKey b1 = hashKey b /\
  halfMoveClock b1 = halfMoveClock b /\ fullMoveCounter b1 = fullMoveCounter b.
Proof.
  unfold makemove_oob. intros H. opt_steps.
  repeat match goal with
  | H : mm_castle _ _ _ = Some _ |- _ => apply mm_castle_saved in H
  | H : mm_enpassant _ _ _ = Some _ |- _ => apply mm_enpassant_saved in H
  | H : mm_pieces_oob _ _ _ = Some _ |- _ => apply mm_pieces_oob_saved in H
  end.
  match goal with
  | H1 : same_saved _ ?x,
    H2 : same_saved (mm_rook_capture m ?s (mm_rook_move m (mm_king_rights m ?s ?x))) ?y,
    H3 : same_saved (mm_update_ep m ?s ?y) ?z |- _ =>
      pose proof (mm_king_rights_saved m s x) as K1;
      pose proof (mm_rook_move_saved m (mm_king_rights m s x)) as K2;
      pose proof (mm_rook_capture_saved m s (mm_rook_move m (mm_king_rights m s x))) as K3;
      pose proof (mm_update_ep_saved m s y) as K4;
      pose proof (same_saved_trans _ _ _ H1
                   (same_saved_trans _ _ _ K1
                     (same_saved_trans _ _ _ K2
                       (same_saved_trans _ _ _ K3
                         (same_saved_trans _ _ _ H2
                           (same_saved_trans _ _ _ K4 H3)))))) as K
  end.
  destruct K as (K1' & K2' & K3' & K4'). simpl in *. done.
Qed.

(** Where [makemove] stays inside the arrays, [makemove_oob] is [makemove]. *)
Lemma removePiece_oob_extends p sq b b' :
  removePiece p sq b = Some b' -> removePiece_oob oob p sq b = Some b'.
Proof.
  intros H. unfold removePiece_oob.
  destruct (Z.eqb_spec p NoPiece) as [->|_]; [|done].
  unfold removePiece in H. by vm_compute in H.
Qed.

Lemma mm_pieces_oob_extends m b b' :
  mm_pieces m b = Some b' -> mm_pieces_oob oob m b = Some b'.
Proof.
  unfold mm_pieces, mm_pieces_oob. intros H.
  apply bind_Some in H as (b1 & H1 & H).
  apply bind_Some in H as (b2 & H2 & H).
  apply bind_Some in H as (b3 & H3 & H).
  assert ((if capture m
           then removePiece_oob oob (getPiece b (target m)) (target m) b
           else Some b) = Some b1) as ->
    by (destruct (capture m); [by apply removePiece_oob_extends|done]).
  cbn [mbind option_bind]. rewrite (removePiece_oob_extends _ _ _ _ H2).
  cbn [mbind option_bind]. rewrite H3. cbn [mbind option_bind].
  destruct (negb _); [|done].
  apply bind_Some in H as (b4 & H4 & H).
  rewrite (removePiece_oob_extends _ _ _ _ H4). done.
Qed.

Lemma makemove_oob_extends b m b1 :
  makemove b m = Some b1 -> makemove_oob oob b m = Some b1.
Proof.
  unfold makemove, makemove_oob. cbv zeta. intros H.
  apply bind_Some in H as (x & H1 & H).
  apply bind_Some in H as (y & H2 & H).
  apply bind_Some in H as (z & H3 & H).
  rewrite H1. cbn [mbind option_bind]. rewrite H2. cbn [mbind option_bind].
  rewrite (mm_pieces_oob_extends _ _ _ H3). done.
Qed.

(** *** The calls have a result *)

Lemma placePiece_defined p sq b :
  0 <= p < 12 -> 0 <= sq < 64 -> is_Some (placePiece p sq b).
Proof. intros Hp Hsq. unfold placePiece. rewrite in_bounds by done. by eexists. Qed.

Lemma removePiece_defined p sq b :
  0 <= p < 12 -> 0 <= sq < 64 -> is_Some (removePiece p sq b).
Proof. intros Hp Hsq. unfold removePiece. rewrite in_bounds by done. by eexists. Qed.

Lemma removePiece_oob_defined p sq b :
  0 <= p <= 12 -> 0 <= sq < 64 -> is_Some (removePiece_oob oob p sq b).
Proof.
  intros Hp Hsq. unfold removePiece_oob.
  destruct (Z.eqb_spec p NoPiece) as [->|Hne].
  - destruct (Z.leb_spec 0 sq), (Z.ltb_spec sq 64); try lia. by eexists.
  - apply removePiece_defined; [unfold NoPiece in Hne; lia|done].
Qed.

Lemma insert_mailbox (l : list Piece) i p :
  0 <= p <= 12 -> Forall (fun p => 0 <= p <= 12) l ->
  Forall (fun p => 0 <= p <= 12) (<[i := p]> l).
Proof. intros Hp Hl. by apply Forall_insert. Qed.

Lemma placePiece_mailbox p sq b b' :
  placePiece p sq b = Some b' -> mailbox_ok b -> mailbox_ok b'.
Proof.
  unfold placePiece. destruct (_ && _) eqn:E; [|done]. intros [= <-] H.
  apply in_bounds_inv in E as [Hp _]. apply insert_mailbox; [lia|done].
Qed.

Lemma removePiece_mailbox p sq b b' :
  removePiece p sq b = Some b' -> mailbox_ok b -> mailbox_ok b'.
Proof.
  unfold removePiece. destruct (_ && _) eqn:E; [|done]. intros [= <-] H.
  apply insert_mailbox; [unfold NoPiece; lia|done].
Qed.

Lemma mm_castle_mailbox m stm b b' :
  mm_castle m stm b = Some b' -> mailbox_ok b -> mailbox_ok b'.
Proof.
  unfold mm_castle. intros H Hl.
  opt_steps; try done.
  all: eapply placePiece_mailbox; [eassumption|];
    eapply removePiece_mailbox; [eassumption|]; exact Hl.
Qed.

Lemma mm_castle_defined m stm b : is_Some (mm_castle m stm b).
Proof.
  unfold mm_castle.
  destruct (piece m =? makePiece King stm); [|by eexists].
  repeat match goal with
  | |- is_Some (if ?c then _ else _) => destruct c
  end; try by eexists.
  all: match goal with
       | |- is_Some (mbind _ (removePiece ?p ?sq ?x)) =>
           destruct (removePiece_defined p sq x) as [y ->]; [by vm_compute..|];
           cbn [mbind option_bind]; apply placePiece_defined; by vm_compute
       end.
Qed.

Lemma mm_castle_ep m stm b b' :
  mm_castle m stm b = Some b' -> enpassantSquare b' = enpassantSquare b.
Proof.
  unfold mm_castle. intros H.
  opt_steps;
    repeat match goal with
    | H : removePiece _ _ _ = Some _ |- _ => apply removePiece_ep in H
    | H : placePiece _ _ _ = Some _ |- _ => apply placePiece_ep in H
    end; unfold clear_right in *; simpl in *; congruence.
Qed.

Lemma ep_steps m stm b :
  enpassantSquare (mm_rook_capture m stm (mm_rook_move m (mm_king_rights m stm b)))
  = enpassantSquare b.
Proof.
  unfold mm_rook_capture, mm_rook_move, mm_king_rights. repeat case_match; reflexivity.
Qed.

Lemma source_range m : 0 <= source m < 64.
Proof.
  unfold source. change 0x3f with (Z.ones 6). rewrite Z.land_ones by lia.
  apply Z.mod_pos_bound. lia.
Qed.

Lemma target_range m : 0 <= target m < 64.
Proof.
  unfold target. rewrite Z.shiftr_land. change (Z.shiftr 0xfc0 6) with (Z.ones 6).
  rewrite Z.land_ones by lia. apply Z.mod_pos_bound. lia.
Qed.

Lemma piece_nonneg m : 0 <= piece m.
Proof.
  unfold piece. rewrite Z.shiftr_land. change (Z.shiftr 0xf000 12) with (Z.ones 4).
  rewrite Z.land_ones by lia. apply Z.mod_pos_bound. lia.
Qed.

Lemma promoted_nonneg m : 0 <= promoted m.
Proof.
  unfold promoted. rewrite Z.shiftr_land. change (Z.shiftr 0xf0000 16) with (Z.ones 4).
  rewrite Z.land_ones by lia. apply Z.mod_pos_bound. lia.
Qed.

Lemma getPiece_mailbox b sq : mailbox_ok b -> 0 <= getPiece b sq <= 12.
Proof.
  intros H. unfold getPiece. destruct (sq <? 0); [unfold NoPiece; lia|].
  destruct (board b !! Z.to_nat sq) as [p|] eqn:E; [|unfold NoPiece; simpl; lia].
  simpl. unfold mailbox_ok in H. rewrite Forall_lookup in H. by apply (H _ _ E).
Qed.

Lemma mm_pieces_oob_defined m b :
  mailbox_ok b -> piece m < 12 -> promoted m <= 12 -> is_Some (mm_pieces_oob oob m b).
Proof.
  intros Hb Hp Hpr. unfold mm_pieces_oob.
  pose proof (source_range m) as Hs. pose proof (target_range m) as Ht.
  pose proof (piece_nonneg m) as Hp0. pose proof (promoted_nonneg m) as Hpr0.
  assert (exists b1, (if capture m
                      then removePiece_oob oob (getPiece b (target m)) (target m) b
                      else Some b) = Some b1) as [b1 ->].
  { destruct (capture m); [|by eexists].
    apply removePiece_oob_defined; [by apply getPiece_mailbox|done]. }
  cbn [mbind option_bind].
  destruct (removePiece_oob_defined (piece m) (source m) b1) as [b2 ->]; [lia|done|].
  cbn [mbind option_bind].
  destruct (placePiece_defined (piece m) (target m) b2) as [b3 ->]; [lia|done|].
  cbn [mbind option_bind].
  destruct (Z.eqb_spec (promoted m) NoPiece) as [|Hne]; cbn [negb]; [by eexists|].
  destruct (removePiece_oob_defined (piece m) (target m) b3) as [b4 ->]; [lia|done|].
  cbn [mbind option_bind]. apply placePiece_defined; [unfold NoPiece in Hne; lia|done].
Qed.

Lemma makemove_oob_defined b m :
  mailbox_ok b -> piece m < 12 -> promoted m <= 12 ->
  (enpassant m = true -> target m = enpassantSquare b ->
   0 <= enpassantSquare b + ep_offset (sideToMove b) < 64) ->
  is_Some (makemove_oob oob b m).
Proof.
  intros Hb Hp Hpr Hep. unfold makemove_oob. cbv zeta.
  destruct (mm_castle_defined m (sideToMove b) (set_storeInfo (snapshot b :: storeInfo b) b))
    as [x Hx].
  rewrite Hx. cbn [mbind option_bind].
  pose proof (mm_castle_mailbox _ _ _ _ Hx Hb) as Hbx.
  pose proof (mm_castle_ep _ _ _ _ Hx) as Hex. cbn in Hex.
  set (k := mm_rook_capture m (sideToMove b)
              (mm_rook_move m (mm_king_rights m (sideToMove b) x))).
  assert (board k = board x) as Hk.
  { subst k.
    destruct (board_steps m (sideToMove b) (mm_rook_move m (mm_king_rights m (sideToMove b) x)))
      as (_ & -> & _).
    destruct (board_steps m (sideToMove b) (mm_king_rights m (sideToMove b) x))
      as (_ & _ & -> & _).
    by destruct (board_steps m (sideToMove b) x) as (_ & _ & _ & ->). }
  assert (enpassantSquare k = enpassantSquare b) as Hek
    by (subst k; by rewrite ep_steps).
  assert (exists y, mm_enpassant m (sideToMove b) k = Some y /\ mailbox_ok y) as (y & Hy & Hby).
  { unfold mm_enpassant. rewrite Hek.
    destruct (Z.eqb_spec (target m) (enpassantSquare b)) as [Et|_];
      [destruct (enpassant m) eqn:Ee|]; cbn [andb].
    - specialize (Hep eq_refl Et). cbv zeta.
      rewrite Et, Z.mod_small by lia.
      destruct (removePiece_defined (makePiece Pawn (opp (sideToMove b)))
                  (enpassantSquare b + ep_offset (sideToMove b)) k) as [y Hy];
        [unfold makePiece; destruct (sideToMove b); simpl; lia|done|].
      exists y. split; [done|]. apply (removePiece_mailbox _ _ _ _ Hy).
      unfold mailbox_ok. by rewrite Hk.
    - exists k. split; [done|]. unfold mailbox_ok. by rewrite Hk.
    - exists k. split; [done|]. unfold mailbox_ok. by rewrite Hk. }
  rewrite Hy. cbn [mbind option_bind].
  destruct (mm_pieces_oob_defined m (mm_update_ep m (sideToMove b) y)) as [z ->];
    [|done..|by eexists].
  unfold mailbox_ok. by destruct (board_steps m (sideToMove b) y) as (-> & _).
Qed.

(** C3.  Every move whose piece is one of the twelve and whose promotion
    piece is one of the twelve or [None] (an en-passant capture taking a
    pawn that stands on the board), on a mailbox of pieces: [makemove]
    has a result, whatever the write of an en-passant capture past
    [PiecesBB] does to the mailbox, and [unmakemove] then gives back the
    twelve bitboards, the mailbox, the side to move, the en-passant
    square and the castling rights of the position before the move from
    the saved state, with the stack as it was; the halfmove clock and the
    hash key are members that neither function writes. *)
Theorem make_unmake_restores (b : Board) (m : Move) :
  mailbox_ok b -> piece m < 12 -> promoted m <= 12 ->
  (enpassant m = true -> target m = enpassantSquare b ->
   0 <= enpassantSquare b + ep_offset (sideToMove b) < 64) ->
  exists b1 b2,
    makemove_oob oob b m = Some b1 /\ unmakemove b1 = Some b2 /\
    PiecesBB b2 = PiecesBB b /\ board b2 = board b /\
    sideToMove b2 = sideToMove b /\ enpassantSquare b2 = enpassantSquare b /\
    castlingRights b2 = castlingRights b /\
    halfMoveClock b2 = halfMoveClock b /\ hashKey b2 = hashKey b /\
    storeInfo b2 = storeInfo b.
Proof.
  intros Hb Hp Hpr Hep.
  destruct (makemove_oob_defined b m Hb Hp Hpr Hep) as [b1 H1].
  exists b1. pose proof (makemove_oob_saved b m b1 H1) as (Hst & Hh & Hc & _).
  unfold unmakemove. rewrite Hst. eexists. split; [done|]. split; [reflexivity|].
  simpl. auto 10.
Qed.

End OutOfBounds.

Lemma make_unmake_restores_witness :
  exists b1 b2,
    makemove_oob oob_clear pos_ep_free move_e5d6 = Some b1 /\ unmakemove b1 = Some b2 /\
    PiecesBB b2 = PiecesBB pos_ep_free /\ board b2 = board pos_ep_free /\
    sideToMove b2 = sideToMove pos_ep_free /\
    enpassantSquare b2 = enpassantSquare pos_ep_free /\
    castlingRights b2 = castlingRights pos_ep_free /\
    halfMoveClock b2 = halfMoveClock pos_ep_free /\ hashKey b2 = hashKey pos_ep_free /\
    storeInfo b2 = storeInfo pos_ep_free.
Proof.
  apply (make_unmake_restores oob_clear pos_ep_free move_e5d6).
  - apply mailbox_okb_spec. vm_compute. reflexivity.
  - vm_compute. reflexivity.
  - vm_compute. discriminate.
  - intros _ _. vm_compute. split; [discriminate|reflexivity].
Defined.

(** The en-passant capture is in the list of the generator, and [makemove]
    as it stays inside the arrays has no result on it. *)
Lemma enpassant_move_generated :
  exists ml b0,
    generateLegalMoves pos_ep_free = Some (ml, b0) /\ In move_e5d6 (moveList ml) /\
    getPiece b0 (target move_e5d6) = NoPiece /\ makemove b0 move_e5d6 = None.
Proof. eexists _, _. split; [run|]. split; [vm_compute; tauto|]. split; run. Qed.

(** ** Lines of play *)

Lemma unplay_last n : forall b, unplay (S n) b = b1 ← unplay n b; unmakemove b1.
Proof.
  induction n as [|n IH]; intros b.
  - cbn [unplay mbind option_bind]. by destruct (unmakemove b).
  - change (unplay (S (S n)) b) with (b1 ← unmakemove b; unplay (S n) b1).
    change (unplay (S n) b) with (b1 ← unmakemove b; unplay n b1).
    destruct (unmakemove b) as [b1|]; [|done]. cbn [mbind option_bind]. apply IH.
Qed.

Section Lines.

Variable oob : list Piece -> Square -> list Piece.

Lemma unmake_restores b m b1 c1 :
  makemove_oob oob b m = Some b1 -> same_position b1 c1 ->
  exists b0, unmakemove c1 = Some b0 /\ same_position b b0.
Proof.
  intros H (_ & _ & _ & _ & _ & Est & Eh & Ef & Ek).
  apply makemove_oob_saved in H as (Hst & Hk & Hh & Hf).
  unfold unmakemove. rewrite Est, Hst. eexists. split; [reflexivity|].
  unfold same_position, snapshot. cbn. repeat split; congruence.
Qed.

(** X20.  A line of moves made with [makemove] and taken back with as
    many [unmakemove] leaves the position as it was: the pieces, the side
    to move, the en-passant square, the castling rights and the stack;
    en-passant captures included, whatever their write past [PiecesBB]
    does to the mailbox. *)
Theorem play_unplay (b : Board) (ms : list Move) (b' : Board) :
  play_oob oob b ms = Some b' ->
  exists b'', unplay (length ms) b' = Some b'' /\ same_position b b''.
Proof.
  assert (forall ms b b', play_oob oob b ms = Some b' -> forall c', same_position b' c' ->
            exists b'', unplay (length ms) c' = Some b'' /\ same_position b b'') as G.
  { clear. induction ms as [|m rest IH]; intros b b' H c' Hc.
    - cbn in H. apply (inj Some) in H. subst b'. by exists c'.
    - cbn [play_oob] in H. apply bind_Some in H as (b1 & Hm & H).
      destruct (IH b1 b' H c' Hc) as (c1 & Hu & Hs).
      destruct (unmake_restores b m b1 c1 Hm Hs) as (b0 & Hb0 & Hs0).
      exists b0. split; [|done].
      change (length (m :: rest)) with (S (length rest)).
      rewrite unplay_last, Hu. exact Hb0. }
  intros H. apply (G ms b b' H b'). unfold same_position. by repeat split.
Qed.

End Lines.

Lemma play_unplay_witness :
  exists b'', unplay (length line_enpassant) pos_after_line = Some b''
              /\ same_position pos_start b''.
Proof. apply (play_unplay oob_clear pos_start line_enpassant). vm_compute. reflexivity. Defined.

Lemma line_enpassant_generated :
  line_generated oob_clear pos_start line_enpassant = true /\
  play_oob oob_clear pos_start line_enpassant = Some pos_after_line /\
  getPiece pos_after_line 43 = WhitePawn /\ getPiece pos_after_line 35 = NoPiece.
Proof. repeat split; run. Qed.

(** ** Two checkers of one kind *)

(** C5, at the failing input.  The generator lists d7xe8=R in
    [4r3/R2Pk3/8/1n6/8/8/8/6K1 w]; after it the rooks on a7 and e8 both
    check the black king on e7: two distinct checkers, and the counter of
    the analyzer is 1.  With the counter at 1 the generator keeps the moves
    of other pieces onto the check mask, and lists Nb5xa7 and Nb5-c7, after
    each of which the king is still attacked by the rook on e8. *)
Theorem two_rooks_check_counted_once :
  (exists ml b0,
     generateLegalMoves pos_promotion = Some (ml, b0) /\ In move_d7e8 (moveList ml) /\
     makemove b0 move_d7e8 = Some pos_rook_checks) /\
  sideToMove pos_rook_checks = Black /\ KingSq pos_rook_checks Black = 52 /\
  Rooks pos_rook_checks White = Z.lor (bit 48) (bit 60) /\
  attacks_by_rules pos_rook_checks Rook White 48 52 = true /\
  attacks_by_rules pos_rook_checks Rook White 60 52 = true /\
  checkers pos_rook_checks Black 52 = Z.lor (bit 48) (bit 60) /\
  card (checkers pos_rook_checks Black 52) = 2 /\
  doubleCheck (analyzed pos_rook_checks) = 1 /\
  exists ml b0 b1 b2,
    generateLegalMoves pos_rook_checks = Some (ml, b0) /\
    In move_b5a7 (moveList ml) /\ In move_b5c7 (moveList ml) /\
    makemove b0 move_b5a7 = Some b1 /\ makemove b0 move_b5c7 = Some b2 /\
    KingSq b1 Black = 52 /\ attacked_by_rules b1 52 White = true /\
    KingSq b2 Black = 52 /\ attacked_by_rules b2 52 White = true.
Proof.
  split.
  { eexists _, _. split; [run|]. split; [vm_compute; tauto|run]. }
  do 8 (split; [run|]).
  eexists _, _, _, _. split; [run|].
  split; [vm_compute; tauto|]. split; [vm_compute; tauto|].
  do 5 (split; [run|]). run.
Qed.

(** ** A mate the predicate misses *)

(** C8, at the failing input.  In [k6R/8/1K6/8/8/8/8/8 b] Black is in
    check from the rook on h8 and has the king only; each of its steps,
    a7, b7 and b8, ends on a square that White attacks by the rules: the
    side to move is in check and has no legal move.  The generator lists
    a8a7 and a8b7, next to the white king, so the count is 2 and
    [isCheckmate] answers false, whatever [isCheck] answers. *)
Theorem isCheckmate_misses_mate (isCheck : Board -> Color -> bool) :
  sideToMove pos_mate = Black /\ KingSq pos_mate Black = 56 /\
  allPieces pos_mate Black = bit 56 /\
  attacked_by_rules pos_mate 56 White = true /\
  isSquareAttacked pos_mate 56 White = true /\
  set_squares (GetKingAttacks 56) = [48; 49; 57] /\
  forallb (fun t => match king_stepped pos_mate t with
                    | Some b1 => (KingSq b1 Black =? t) && attacked_by_rules b1 t White
                    | None => false
                    end) [48; 49; 57] = true /\
  (exists ml b0,
     legal_moves pos_mate = Some (ml, b0) /\ count ml = 2 /\
     moveList ml = [mkMove 56 48 BlackKing NoPiece 0 0 0 0;
                    mkMove 56 49 BlackKing NoPiece 0 0 0 0]) /\
  isCheckmate isCheck pos_mate = Some false.
Proof.
  do 7 (split; [run|]).
  split; [eexists _, _; split; [run|]; split; run|].
  unfold isCheckmate. destruct (isCheck _ _); [|reflexivity]. run.
Qed.
